(** * clock_diff: an NTP drift monitor

    Shallow embedding of [clock_diff.py] and the properties of its
    timestamp codec, offset/delay computation, poll loop and summary.

    Numbers are modelled as the program has them: Python [int] as [Z],
    Python [float] as the kernel's binary64 [float] (round to nearest,
    ties to even), [bytes] as [list byte].  Exceptions are values of
    [exn]; code that can raise lives in the error monad [result], code
    that also appends to [results] or prints lives in [M].

    What the outside world decides -- the clock, the fate of the request,
    the reply, Ctrl-C, and how the platform refuses a time that is out
    of its range -- is an [exchange_env] per turn of the loop.  Two
    operations differ from one interpreter to the next and are parameters
    of the summary: the builtin [sum] (compensated since CPython 3.12)
    and [x ** 2] (the C library's [pow], whose overflow CPython turns
    into [OverflowError]).  Opening the socket, formatting a number and
    writing to the console are taken to succeed. *)

From Stdlib Require Import String.
From Stdlib Require Import ZArith List Bool Lia QArith Qabs Qpower Qfield Sorted.
From Stdlib Require Import Floats.
From Stdlib Require Uint63.
From Stdlib.Strings Require Byte.
Import ListNotations.

Set Warnings "-inexact-float".
Local Open Scope Z_scope.

(** ** Python runtime fragment *)

Module Py.

(** The exception classes that can reach the handlers of [main]. *)
Inductive exn : Type :=
| Socket_timeout                (* socket.timeout *)
| Socket_gaierror               (* socket.gaierror *)
| Struct_error                  (* struct.error *)
| OS_error (errno : Z)          (* any other OSError, with its errno *)
| Zero_division_error
| Value_error
| Overflow_error
| Keyboard_interrupt.

(** [except Exception] catches everything but [KeyboardInterrupt], which
    derives from [BaseException] only. *)
Definition is_Exception (e : exn) : bool :=
  match e with Keyboard_interrupt => false | _ => true end.

Definition result (A : Type) : Type := (exn + A)%type.

Definition ret {A} (a : A) : result A := inr a.
Definition raise {A} (e : exn) : result A := inl e.
Definition bind {A B} (c : result A) (k : A -> result B) : result B :=
  match c with inl e => inl e | inr a => k a end.

Declare Scope result_scope.
Delimit Scope result_scope with res.
Notation "x <- c ;; k" := (bind c (fun x => k))
  (at level 61, c at next level, right associativity) : result_scope.
Notation "' pat <- c ;; k" := (bind c (fun x => match x with pat => k end))
  (at level 61, pat pattern, c at next level, right associativity) : result_scope.
Local Open Scope result_scope.

(** [float(n)] for an [int] n with |n| < 2^63 (every integer of the
    program is far below): the nearest binary64 value. *)
Definition float_of_int (n : Z) : float :=
  if n <? 0 then (- of_uint63 (Uint63.of_Z (- n)))%float
  else of_uint63 (Uint63.of_Z n).

(** [a / b] on two ints: true division. *)
Definition int_truediv (a b : Z) : result float :=
  if b =? 0 then raise Zero_division_error
  else ret (float_of_int a / float_of_int b)%float.

(** [x / n] with a float on the left and an int on the right. *)
Definition float_truediv_int (x : float) (n : Z) : result float :=
  if n =? 0 then raise Zero_division_error
  else ret (x / float_of_int n)%float.

(** [x ** 2] on a float, for one C library: CPython hands the work to
    [pow], whose result is not the same on every platform, and raises
    [OverflowError] when [pow] overflows on a finite [x]; a NaN or an
    infinity goes through.  [float_sq] is [x ** 2] where [pow] is
    correctly rounded: the binary64 product of [x] with itself, [None]
    standing for the [OverflowError].  The summary takes [x ** 2] as a
    parameter; [float_sq] is the instance the worked examples use. *)
Definition float_sq (x : float) : option float :=
  let y := (x * x)%float in
  if is_finite x && is_infinity y then None else Some y.

(** [math.sqrt]: a negative argument is a "math domain error". *)
Definition math_sqrt (x : float) : result float :=
  if (x <? 0)%float then raise Value_error else ret (PrimFloat.sqrt x).

(** How a platform call refuses an argument it cannot take:
    [OverflowError], [ValueError], or an [OSError] with its [errno]. *)
Inductive refusal : Type :=
| Refused_overflow
| Refused_value
| Refused_os (errno : Z).

Definition exn_of_refusal (r : refusal) : exn :=
  match r with
  | Refused_overflow => Overflow_error
  | Refused_value => Value_error
  | Refused_os errno => OS_error errno
  end.

(** The lengths [time.sleep] is sure to take: from zero to 10^9 seconds
    (some 31 years); far longer ones overflow its count of nanoseconds. *)
Definition sleepable (seconds : float) : bool :=
  (0 <=? seconds)%float && (seconds <=? 1000000000)%float.

(** The lengths [time.sleep] refuses with [ValueError]: NaN, and the
    negative ones (down to -10^9 seconds; far below, the count of
    nanoseconds overflows first). *)
Definition unsleepable (seconds : float) : bool :=
  is_nan seconds || ((seconds <? 0)%float && (-1000000000 <=? seconds)%float).

(** [time.sleep(seconds)] up to the waiting itself.  The length goes to
    a signed 64-bit count of nanoseconds: from 9.3 * 10^9 seconds on, in
    absolute value, that is an [OverflowError].  Between the lengths
    that are sure to be taken or refused and that bound, the limit of the
    count and of the system call decide, and with them the [platform]:
    [None] when it does the usual thing there too, [Some r] when it
    refuses with [r]. *)
Definition time_sleep (seconds : float) (platform : option refusal) : result unit :=
  if unsleepable seconds then raise Value_error
  else if sleepable seconds then ret tt
  else if (9300000000 <=? PrimFloat.abs seconds)%float then raise Overflow_error
  else match platform with
       | Some r => raise (exn_of_refusal r)
       | None => if (seconds <? 0)%float then raise Value_error else ret tt
       end.

(** The clock readings every platform's [time.localtime] converts: from
    the epoch to 2^31 seconds after it. *)
Definition displayable (t : float) : bool :=
  (0 <=? t)%float && (t <? 2147483648)%float.

(** [time.strftime("%H:%M:%S", time.localtime(t))]: NaN is a
    [ValueError]; from 9.3 * 10^18 seconds on, in absolute value, the
    reading does not fit the platform's [time_t], an [OverflowError];
    from 6.8 * 10^16 seconds on the year does not fit the [int] of the
    calendar and the call fails, with the [platform]'s refusal (the
    [OSError] of errno 75, [EOVERFLOW], when it names none).  Between
    that and the readings it is sure to convert the [platform] decides:
    [None] when it converts, [Some r] when it refuses with [r]. *)
Definition time_localtime (t : float) (platform : option refusal) : result unit :=
  if is_nan t then raise Value_error
  else if displayable t then ret tt
  else if (9300000000000000000 <=? PrimFloat.abs t)%float then raise Overflow_error
  else if (68000000000000000 <=? PrimFloat.abs t)%float
  then raise (match platform with
              | Some r => exn_of_refusal r
              | None => OS_error 75
              end)
  else match platform with
       | Some r => raise (exn_of_refusal r)
       | None => ret tt
       end.

(** [b[i:j]] for 0 <= i <= j. *)
Definition slice {A} (i j : nat) (b : list A) : list A := skipn i (firstn j b).

(** Network byte order: the unsigned integer a run of bytes stands for. *)
Definition be_uint (bs : list Byte.byte) : Z :=
  fold_left (fun acc b => acc * 256 + Z.of_N (Byte.to_N b)) bs 0.

(** [struct.unpack("!II", buf)]: the buffer must hold exactly 8 bytes. *)
Definition struct_unpack_II (buf : list Byte.byte) : result (Z * Z) :=
  if (length buf =? 8)%nat
  then ret (be_uint (firstn 4 buf), be_uint (skipn 4 buf))
  else raise Struct_error.

(** [max(xs)] and [min(xs)]: the first item is kept until a later one
    compares strictly greater (smaller). *)
Definition py_max (xs : list float) : result float :=
  match xs with
  | [] => raise Value_error
  | x :: rest => ret (fold_left (fun m y => if (m <? y)%float then y else m) rest x)
  end.

Definition py_min (xs : list float) : result float :=
  match xs with
  | [] => raise Value_error
  | x :: rest => ret (fold_left (fun m y => if (y <? m)%float then y else m) rest x)
  end.

(** [sum(xs)] on floats, as the language reference gives it: the start
    value 0 and the items are added from left to right. *)
Definition py_sum (xs : list float) : float :=
  fold_left (fun acc x => (acc + x)%float) xs (float_of_int 0).

(** [sum(xs)] as CPython 3.12 and later compute it on floats: the same
    running sum, with Neumaier's compensation term added at the end. *)
Fixpoint neumaier (f_result c : float) (xs : list float) : float :=
  match xs with
  | [] =>
      if negb (c =? 0)%float && is_finite c then (f_result + c)%float else f_result
  | x :: rest =>
      let t := (f_result + x)%float in
      let c' := if (PrimFloat.abs x <=? PrimFloat.abs f_result)%float
                then (c + ((f_result - t) + x))%float
                else (c + ((x - t) + f_result))%float in
      neumaier t c' rest
  end.

Definition py_sum_compensated (xs : list float) : float :=
  match xs with
  | [] => float_of_int 0
  | x :: rest => neumaier (float_of_int 0 + x)%float 0%float rest
  end.

End Py.

Import Py.
Local Open Scope result_scope.

(** ** The program *)

Definition NTP_DELTA : Z := 2208988800.
Definition PORT : Z := 123.
Definition BUF_SIZE : nat := 1024.

(** Lines 12-15. *)
Definition get_ntp_time (timestamp_bytes : list Byte.byte) : result float :=
  '(seconds, fraction) <- struct_unpack_II timestamp_bytes ;;
  q <- int_truediv fraction (2 ^ 32) ;;
  ret (float_of_int (seconds - NTP_DELTA) + q)%float.

(** One recorded measurement: the dict [{'offset': ..., 'delay': ...}]. *)
Record sample : Type := { offset : float; delay : float }.

(** Lines 68-69, on the four timestamps of an exchange. *)
Definition offset_delay (t1 t2 t3 t4 : float) : result sample :=
  let delay := ((t4 - t1) - (t3 - t2))%float in
  offset <- float_truediv_int ((t2 - t1) + (t3 - t4))%float 2 ;;
  ret {| offset := offset; delay := delay |}.

(** *** What the program shows and does *)

Inductive verdict : Type := ACCURATE | DRIFTING.

(** The printed lines, by content: formatting a number and writing to
    the console are taken to succeed. *)
Inductive line : Type :=
| Header (server : String.string) (interval : float)
| Progress (sequence : Z) (t4 offset delay : float)
| Request_timed_out (sequence : Z)
| Could_not_resolve (sequence : Z) (server : String.string)
| Error_line (sequence : Z) (e : exn)
| Stopped_banner
| Target_line (server : String.string)
| Count_line (count : Z)
| Average_offset_line (x : float)
| Max_offset_line (x : float)
| Min_offset_line (x : float)
| Std_deviation_line (x : float)
| Average_delay_line (x : float)
| Verdict_line (v : verdict)
| No_data_collected
| Separator
| Rule.

Inductive event : Type :=
| Print (l : line)
| Sendto (msg : list Byte.byte) (host : String.string) (port : Z)
| Sleep (seconds : float)
| Close.

(** The mutable state of [main]: the list [results] and what the process
    has done so far, oldest first. *)
Record world : Type := { results : list sample; trace : list event }.

(** Code that may raise and may change the world; an exception keeps
    the changes made before it. *)
Definition M (A : Type) : Type := world -> result A * world.

Definition mret {A} (a : A) : M A := fun w => (inr a, w).
Definition mbind {A B} (c : M A) (k : A -> M B) : M B :=
  fun w => match c w with
           | (inl e, w') => (inl e, w')
           | (inr a, w') => k a w'
           end.
Definition lift {A} (c : result A) : M A := fun w => (c, w).
Definition emit (ev : event) : M unit :=
  fun w => (inr tt, {| results := results w; trace := trace w ++ [ev] |}).
Definition print (l : line) : M unit := emit (Print l).
Definition results_append (s : sample) : M unit :=
  fun w => (inr tt, {| results := results w ++ [s]; trace := trace w |}).

(** [try: body except ...: handler]: a handler of [None] lets the
    exception through. *)
Definition try_except {A} (body : M A) (handler : exn -> option (M A)) : M A :=
  fun w => match body w with
           | (inl e, w') =>
               match handler e with
               | Some h => h w'
               | None => (inl e, w')
               end
           | r => r
           end.

Declare Scope M_scope.
Delimit Scope M_scope with M.
Notation "x <- c ;; k" := (mbind c (fun x => k))
  (at level 61, c at next level, right associativity) : M_scope.
Notation "c ;;; k" := (mbind c (fun _ => k))
  (at level 61, right associativity) : M_scope.

(** *** What the outside world does during one iteration *)

Record exchange_env : Type := {
  time_send : float;                          (* time.time(), line 57 *)
  sendto_outcome : option exn;                (* line 58: [None], the datagram left *)
  recvfrom_outcome : result (list Byte.byte); (* line 60: the reply, or what is raised *)
  time_recv : float;                          (* time.time(), line 61 *)
  localtime_refusal : option refusal;         (* line 73, see [time_localtime] *)
  cooldown_interrupted : bool;                (* Ctrl-C during line 82 *)
  sleep_refusal : option refusal;             (* line 86, see [time_sleep] *)
  sleep_interrupted : bool                    (* Ctrl-C during line 86 *)
}.

Definition sendto (msg : list Byte.byte) (host : String.string) (port : Z)
  (env : exchange_env) : M unit :=
  match sendto_outcome env with
  | Some e => lift (raise e)
  | None => emit (Sendto msg host port)
  end.

(** [client.recvfrom(bufsize)]: at most [bufsize] bytes of the datagram. *)
Definition recvfrom (bufsize : nat) (env : exchange_env) : M (list Byte.byte) :=
  lift (data <- recvfrom_outcome env ;; ret (firstn bufsize data)).

(** [time.sleep(seconds)]: a length that is refused raises before any
    sleeping; Ctrl-C ends the sleep of one that is taken. *)
Definition sleep (seconds : float) (interrupted : bool)
  (platform : option refusal) : M unit :=
  match time_sleep seconds platform with
  | inl e => lift (raise e)
  | inr _ =>
      if interrupted then lift (raise Keyboard_interrupt) else emit (Sleep seconds)
  end.

(** Line 53: [b'\x1b' + 47 * b'\0']. *)
Definition msg : list Byte.byte := Byte.x1b :: repeat Byte.x00 47.

(** Lines 56-76: the body of the inner [try]. *)
Definition exchange (target_server : String.string) (sequence : Z)
  (env : exchange_env) : M unit :=
  (let t1 := time_send env in
   sendto msg target_server PORT env ;;;
   data <- recvfrom BUF_SIZE env ;;
   let t4 := time_recv env in
   match data with
   | [] => mret tt
   | _ :: _ =>
       t2 <- lift (get_ntp_time (slice 32 40 data)) ;;
       t3 <- lift (get_ntp_time (slice 40 48 data)) ;;
       s <- lift (offset_delay t1 t2 t3 t4) ;;
       results_append s ;;;
       lift (time_localtime t4 (localtime_refusal env)) ;;;
       print (Progress sequence t4 (offset s) (delay s))
   end)%M.

(** Lines 78-84: the three [except] clauses, in order. *)
Definition handlers (target_server : String.string) (sequence : Z)
  (env : exchange_env) (e : exn) : option (M unit) :=
  match e with
  | Socket_timeout => Some (print (Request_timed_out sequence))
  | Socket_gaierror =>
      Some (print (Could_not_resolve sequence target_server) ;;;
            sleep 1 (cooldown_interrupted env) None)%M
  | _ => if is_Exception e then Some (print (Error_line sequence e)) else None
  end.

(** Lines 52-86: one turn of [while True], [sequence] already incremented. *)
Definition iteration (target_server : String.string) (interval : float)
  (sequence : Z) (env : exchange_env) : M unit :=
  (try_except (exchange target_server sequence env)
              (handlers target_server sequence env) ;;;
   sleep interval (sleep_interrupted env) (sleep_refusal env))%M.

(** Lines 51-86 along the environments of the successive turns; when
    they run out the loop is still going. *)
Fixpoint poll_loop (target_server : String.string) (interval : float)
  (sequence : Z) (envs : list exchange_env) : M unit :=
  match envs with
  | [] => mret tt
  | env :: rest =>
      (iteration target_server interval (sequence + 1) env ;;;
       poll_loop target_server interval (sequence + 1) rest)%M
  end.

(** *** The summary (lines 90-122) *)

Record stats : Type := {
  count : Z;
  avg_offset : float;
  max_offset : float;
  min_offset : float;
  avg_delay : float;
  std_dev : float
}.

Inductive report : Type :=
| No_data
| Statistics (st : stats) (v : verdict).

(** Lines 114-117. *)
Definition classify (avg_offset : float) : verdict :=
  if (PrimFloat.abs avg_offset <=? 0.5)%float then ACCURATE else DRIFTING.

Section Summary.

(** The builtin [sum]: [py_sum] or [py_sum_compensated], by interpreter. *)
Variable fsum : list float -> float.

(** [x ** 2], [None] for an [OverflowError]: [float_sq] where the C
    library's [pow] is correctly rounded. *)
Variable square : float -> option float.

(** Line 102: the terms [(x - avg_offset) ** 2] in the order of the
    offsets; the first that overflows ends the summing. *)
Fixpoint squares (avg_offset : float) (offsets : list float) : result (list float) :=
  match offsets with
  | [] => ret []
  | x :: rest =>
      match square (x - avg_offset) with
      | None => raise Overflow_error
      | Some y => ys <- squares avg_offset rest ;; ret (y :: ys)
      end
  end.

(** Lines 92-103 and 114: everything computed before the first numeric
    line is printed. *)
Definition summarize_with (results : list sample) : result report :=
  match results with
  | [] => ret No_data
  | _ :: _ =>
      let offsets := map offset results in
      let delays := map delay results in
      let count := Z.of_nat (List.length offsets) in
      avg_offset <- float_truediv_int (fsum offsets) count ;;
      max_offset <- py_max offsets ;;
      min_offset <- py_min offsets ;;
      avg_delay <- float_truediv_int (fsum delays) count ;;
      terms <- squares avg_offset offsets ;;
      variance <- float_truediv_int (fsum terms) count ;;
      std_dev <- math_sqrt variance ;;
      ret (Statistics
             {| count := count; avg_offset := avg_offset;
                max_offset := max_offset; min_offset := min_offset;
                avg_delay := avg_delay; std_dev := std_dev |}
             (classify avg_offset))
  end.

(** Lines 105-119: what is printed for a report. *)
Definition report_lines (target_server : String.string) (r : report) : list line :=
  match r with
  | No_data => [No_data_collected]
  | Statistics st v =>
      [Target_line target_server; Count_line (count st);
       Average_offset_line (avg_offset st); Max_offset_line (max_offset st);
       Min_offset_line (min_offset st); Std_deviation_line (std_dev st);
       Average_delay_line (avg_delay st); Separator; Verdict_line v]
  end.

Fixpoint print_all (ls : list line) : M unit :=
  match ls with
  | [] => mret tt
  | l :: rest => (print l ;;; print_all rest)%M
  end.

(** Lines 88-122: the handler of [KeyboardInterrupt]. *)
Definition summary (target_server : String.string) : M unit :=
  (print Stopped_banner ;;;
   r <- (fun w => (summarize_with (results w), w)) ;;
   print_all (report_lines target_server r) ;;;
   print Rule ;;;
   emit Close)%M.

(** Lines 35-122, along the environments of the turns the loop takes. *)
Definition main_with (target_server : String.string) (interval : float)
  (envs : list exchange_env) : M unit :=
  (print (Header target_server interval) ;;;
   try_except (poll_loop target_server interval 0 envs)
     (fun e => match e with
               | Keyboard_interrupt => Some (summary target_server)
               | _ => None
               end))%M.

End Summary.

Definition summarize : list sample -> result report :=
  summarize_with py_sum float_sq.
Definition main := main_with py_sum float_sq.

(** The process starts with [results = []] and nothing done. *)
Definition initial_world : world := {| results := []; trace := [] |}.

(** ** Reference notions the properties are stated with *)

(** The byte whose value is [z mod 256]. *)
Definition byte_of_Z (z : Z) : Byte.byte :=
  match Byte.of_N (Z.to_N (z mod 256)) with
  | Some b => b
  | None => Byte.x00
  end.

(** An unsigned 32-bit integer in network byte order, and
    [struct.pack("!II", seconds, fraction)]. *)
Definition be32 (n : Z) : list Byte.byte :=
  [byte_of_Z (n / 2 ^ 24); byte_of_Z (n / 2 ^ 16); byte_of_Z (n / 2 ^ 8); byte_of_Z n].

Definition struct_pack_II (seconds fraction : Z) : list Byte.byte :=
  be32 seconds ++ be32 fraction.

(** The rational number a finite binary64 value stands for. *)
Definition SF2Q (x : spec_float) : option Q :=
  match x with
  | S754_zero _ => Some 0%Q
  | S754_finite s m e =>
      Some (inject_Z (if s then Z.neg m else Z.pos m) * Qpower 2 e)%Q
  | _ => None
  end.

Definition float_value (x : float) : option Q := SF2Q (Prim2SF x).

(** [x] is a finite float within [tol] of the rational [q]. *)
Definition within (tol : Q) (x : float) (q : Q) : Prop :=
  exists v, float_value x = Some v /\ (Qabs (v - q) <= tol)%Q.

(** The number a timestamp of [seconds] and [fraction] stands for, in
    seconds since the Unix epoch. *)
Definition unix_seconds (seconds fraction : Z) : Q :=
  (inject_Z (seconds - NTP_DELTA) + inject_Z fraction / inject_Z (2 ^ 32))%Q.

(** Decoding the encoding of a timestamp lands within [tol] of it. *)
Definition codec_round_trip_within (tol : Q) : Prop :=
  forall s f, 0 <= s < 2 ^ 32 -> 0 <= f < 2 ^ 32 ->
    exists x, get_ntp_time (struct_pack_II s f) = ret x /\
              within tol x (unix_seconds s f).

(** [s] is what a complete exchange in [env] yields: the request left, a
    reply came in, both timestamps decoded and lines 68-69 returned [s]. *)
Definition complete_sample (env : exchange_env) (s : sample) : Prop :=
  sendto_outcome env = None /\
  exists data t2 t3,
    recvfrom_outcome env = inr data /\
    get_ntp_time (slice 32 40 (firstn BUF_SIZE data)) = ret t2 /\
    get_ntp_time (slice 40 48 (firstn BUF_SIZE data)) = ret t3 /\
    offset_delay (time_send env) t2 t3 (time_recv env) = ret s.

(** The reading of "a reply shorter than 48 bytes is an error of the
    exchange": the body of the [try] raises, whatever the reply. *)
Definition short_reply_always_raises : Prop :=
  forall ts seq env w data,
    sendto_outcome env = None -> recvfrom_outcome env = inr data ->
    (List.length data < 48)%nat ->
    exists e w', exchange ts seq env w = (inl e, w').


(** The sample of the turn in [env], when its exchange is complete:
    [complete_sample], computed. *)
Definition sample_of (env : exchange_env) : option sample :=
  match sendto_outcome env, recvfrom_outcome env with
  | None, inr data =>
      let reply := firstn BUF_SIZE data in
      match (t2 <- get_ntp_time (slice 32 40 reply) ;;
             t3 <- get_ntp_time (slice 40 48 reply) ;;
             offset_delay (time_send env) t2 t3 (time_recv env)) with
      | inr s => Some s
      | inl _ => None
      end
  | _, _ => None
  end.

(** What the turn in [env] adds to [results]. *)
Definition recorded_in (env : exchange_env) : list sample :=
  match sample_of env with
  | Some s => [s]
  | None => []
  end.

(** The samples of the complete exchanges among [envs], in turn order. *)
Definition recorded (envs : list exchange_env) : list sample :=
  flat_map recorded_in envs.

(** How the turn in [env] ends ([inr tt]: the loop goes on); neither the
    server's name nor the sequence number nor the world has a say. *)
Definition turn_result (interval : float) (env : exchange_env) : result unit :=
  fst (iteration EmptyString interval 0 env initial_world).

(** The turns the loop takes along [envs]: up to and including the
    first one that raises. *)
Fixpoint turns_taken (interval : float) (envs : list exchange_env) : nat :=
  match envs with
  | [] => O
  | env :: rest =>
      match turn_result interval env with
      | inl _ => 1%nat
      | inr _ => S (turns_taken interval rest)
      end
  end.

(** *** Binary64 notions used in the proofs *)

(** The value of a finite float counted in units of 2^-1074, the
    smallest positive binary64 number: always an integer. *)
Definition SFunits (x : spec_float) : option Z :=
  match x with
  | S754_zero _ => Some 0
  | S754_finite s m e =>
      if -1074 <=? e
      then Some ((if s then Z.neg m else Z.pos m) * 2 ^ (e + 1074))
      else None
  | _ => None
  end.

(** What [k] right shifts of the mantissa [M] leave behind: the quotient,
    the round bit (the remainder is at least half) and the sticky bit
    (the remainder is neither zero nor exactly half). *)
Definition shr_inv (M : Z) (k : nat) (mrs : shr_record) : Prop :=
  shr_m mrs = M / 2 ^ Z.of_nat k /\
  (shr_r mrs = true <-> 2 ^ Z.of_nat k <= 2 * (M mod 2 ^ Z.of_nat k)) /\
  (shr_s mrs = true <->
   (M mod 2 ^ Z.of_nat k <> 0 /\ 2 * (M mod 2 ^ Z.of_nat k) <> 2 ^ Z.of_nat k)).

(** Not below zero: NaN, a zero of either sign, a positive number or
    the positive infinity. *)
Definition SFnot_negative (x : spec_float) : bool :=
  match x with
  | S754_infinity true | S754_finite true _ _ => false
  | _ => true
  end.

(** [square] never returns a number below zero. *)
Definition never_negative (square : float -> option float) : Prop :=
  forall x y, square x = Some y -> SFnot_negative (Prim2SF y) = true.

(** The sign bit is clear, or the float is NaN. *)
Definition SFsign_clear (x : spec_float) : bool :=
  match x with
  | S754_zero true | S754_infinity true | S754_finite true _ _ => false
  | _ => true
  end.

(** The example of the aggregate check: offsets 0.1, 0.2, 0.3 (the
    delays play no part in it). *)
Definition three_samples : list sample :=
  [ {| offset := 0.1; delay := 0.01 |};
    {| offset := 0.2; delay := 0.01 |};
    {| offset := 0.3; delay := 0.01 |} ].

(** The example read with exact equalities, under a given [sum] and
    whatever [x ** 2] is. *)
Definition aggregate_example_exact (fsum : list float -> float) : Prop :=
  exists square st v,
    summarize_with fsum square three_samples = ret (Statistics st v) /\
    avg_offset st = 0.2%float /\ min_offset st = 0.1%float /\
    max_offset st = 0.3%float /\
    std_dev st = PrimFloat.sqrt ((0.1 * 0.1 + 0 + 0.1 * 0.1) / 3)%float.

(** A rank that orders the valid floats other than NaN as their values. *)
Definition SFrank (x : spec_float) : Z :=
  match x with
  | S754_zero _ => 0
  | S754_infinity s => if s then - 2 ^ 70 else 2 ^ 70
  | S754_nan => 0
  | S754_finite s m e =>
      let k := (e + 1075) * 2 ^ 53 + Z.pos m in
      if s then - k else k
  end.

(** NaN, the one float that compares with nothing. *)
Definition SFis_nan (x : spec_float) : bool :=
  match x with S754_nan => true | _ => false end.

(** *** An example run *)

(** A reply of 48 bytes whose receive and transmit timestamps are
    2024-01-01 00:00:00.5 and 00:00:00.75. *)
Definition example_reply : list Byte.byte :=
  repeat Byte.x00 32 ++ struct_pack_II 3913056000 2147483648
    ++ struct_pack_II 3913056000 3221225472.

(** Three turns: a complete exchange, a timeout, and a resolution
    failure whose turn ends with Ctrl-C in the sleep. *)
Definition example_envs : list exchange_env :=
  [ {| time_send := 1704067200.25; sendto_outcome := None;
       recvfrom_outcome := inr example_reply; time_recv := 1704067200.5;
       localtime_refusal := None; cooldown_interrupted := false;
       sleep_refusal := None; sleep_interrupted := false |};
    {| time_send := 1704067201.5; sendto_outcome := None;
       recvfrom_outcome := inl Socket_timeout; time_recv := 1704067203.5;
       localtime_refusal := None; cooldown_interrupted := false;
       sleep_refusal := None; sleep_interrupted := false |};
    {| time_send := 1704067204.5; sendto_outcome := Some Socket_gaierror;
       recvfrom_outcome := inl Socket_timeout; time_recv := 1704067204.5;
       localtime_refusal := None; cooldown_interrupted := false;
       sleep_refusal := None; sleep_interrupted := true |} ].

(** *** What a run shows, and the ranges of the further properties *)

(** The samples that the progress lines of a trace show, oldest first. *)
Fixpoint shown_samples (tr : list event) : list sample :=
  match tr with
  | [] => []
  | Print (Progress _ _ o d) :: rest => {| offset := o; delay := d |} :: shown_samples rest
  | _ :: rest => shown_samples rest
  end.

(** The sequence numbers that the per-turn lines of a trace carry. *)
Fixpoint shown_sequences (tr : list event) : list Z :=
  match tr with
  | [] => []
  | Print (Progress n _ _ _) :: rest
  | Print (Request_timed_out n) :: rest
  | Print (Could_not_resolve n _) :: rest
  | Print (Error_line n _) :: rest => n :: shown_sequences rest
  | _ :: rest => shown_sequences rest
  end.

(** Ctrl-C arrives at one of the points of the turn where it can. *)
Definition interrupted (env : exchange_env) : bool :=
  match sendto_outcome env with Some Keyboard_interrupt => true | _ => false end
  || match recvfrom_outcome env with inl Keyboard_interrupt => true | _ => false end
  || cooldown_interrupted env || sleep_interrupted env.

(** What the handlers of lines 78-84 do for an exception they catch. *)
Definition notice (target_server : String.string) (sequence : Z) (e : exn) : list event :=
  match e with
  | Socket_timeout => [Print (Request_timed_out sequence)]
  | Socket_gaierror => [Print (Could_not_resolve sequence target_server); Sleep 1]
  | _ => [Print (Error_line sequence e)]
  end.

(** [env] with the reply replaced. *)
Definition with_reply (env : exchange_env) (data : list Byte.byte) : exchange_env :=
  {| time_send := time_send env; sendto_outcome := sendto_outcome env;
     recvfrom_outcome := inr data; time_recv := time_recv env;
     localtime_refusal := localtime_refusal env;
     cooldown_interrupted := cooldown_interrupted env;
     sleep_refusal := sleep_refusal env;
     sleep_interrupted := sleep_interrupted env |}.

(** The world after the header of lines 37-43 is out. *)
Definition after_header (ts : String.string) (interval : float) (w : world) : world :=
  {| results := results w; trace := trace w ++ [Print (Header ts interval)] |}.

(** What a turn of the loop may do: send the request of line 53 to the
    NTP port of the target, sleep, or print one of the per-turn lines. *)
Definition turn_event (target_server : String.string) (ev : event) : Prop :=
  match ev with
  | Sendto m host port => m = msg /\ host = target_server /\ port = PORT
  | Sleep _ => True
  | Print (Progress _ _ _ _) | Print (Request_timed_out _)
  | Print (Could_not_resolve _ _) | Print (Error_line _ _) => True
  | _ => False
  end.

(** A float that is a number: neither NaN nor an infinity. *)
Definition finite (x : float) : Prop := exists q, float_value x = Some q.

(** [t] is a clock reading of value [v], between 2^30 and 2^31 seconds
    after the Unix epoch: from 2004-01-10 to 2038-01-19. *)
Definition clock_reading (t : float) (v : Q) : Prop :=
  float_value t = Some v /\ (1073741824 <= v)%Q /\ (v < 2147483648)%Q.

(** A timestamp on the wire that names a moment of the same era: at
    least 2^30 seconds after the Unix epoch, and in NTP era 0. *)
Definition era_stamp (seconds fraction : Z) : Prop :=
  NTP_DELTA + 2 ^ 30 <= seconds < 2 ^ 32 /\ 0 <= fraction < 2 ^ 32.

(** A finite float of absolute value at most 2^k. *)
Definition magnitude_at_most (k : Z) (x : float) : Prop :=
  exists u, SFunits (Prim2SF x) = Some u /\ Z.abs u <= 2 ^ (k + 1074).

(** [x ** 2] does not overflow on a number of at most 2^100. *)
Definition moderate_squares (square : float -> option float) : Prop :=
  forall x, magnitude_at_most 100 x -> square x <> None.


(** *** Proof automation *)

(** Settles a comparison of two ranks. *)
Ltac rank_compare :=
  f_equal; symmetry; cbv iota;
  match goal with
  | |- (_ ?= _) = Lt => apply Z.compare_lt_iff
  | |- (_ ?= _) = Gt => apply Z.compare_gt_iff
  | |- (_ ?= _) = Eq => apply Z.compare_eq_iff
  end; lia.

(** ** Properties *)

(** *** Binary64 arithmetic

    Rounding to nearest with ties to even, as [SpecFloat] defines it and
    as the primitive operations are specified to compute. *)

(** In the normal range the exponent of a number of [e] binary digits
    leaves 53 of them to the mantissa. *)
Lemma fexp_normal e : -1021 <= e -> SpecFloat.fexp prec emax e = e - 53.
Proof. unfold SpecFloat.fexp, SpecFloat.emin, prec, emax. lia. Qed.

(** [digits2_pos p] is the number of binary digits of [p]. *)
Lemma digits2_pos_bounds (p : positive) :
  2 ^ (Z.pos (digits2_pos p) - 1) <= Z.pos p < 2 ^ Z.pos (digits2_pos p).
Proof.
  induction p as [p IH|p IH|]; cbn [digits2_pos].
  - rewrite Pos2Z.inj_succ.
    replace (Z.succ (Z.pos (digits2_pos p)) - 1)
      with (Z.succ (Z.pos (digits2_pos p) - 1)) by lia.
    rewrite !Z.pow_succ_r by lia. lia.
  - rewrite Pos2Z.inj_succ.
    replace (Z.succ (Z.pos (digits2_pos p)) - 1)
      with (Z.succ (Z.pos (digits2_pos p) - 1)) by lia.
    rewrite !Z.pow_succ_r by lia. lia.
  - cbn. lia.
Qed.

Lemma digits2_pos_unique (p : positive) (d : Z) :
  2 ^ (d - 1) <= Z.pos p < 2 ^ d -> Z.pos (digits2_pos p) = d.
Proof.
  intros [Hl Hu]. pose proof (digits2_pos_bounds p) as [Bl Bu].
  assert (0 < d).
  { destruct (Z.lt_ge_cases 0 d); [assumption|].
    assert (2 ^ d <= 2 ^ 0) by (apply Z.pow_le_mono_r; lia).
    change (2 ^ 0) with 1 in *. lia. }
  destruct (Z.lt_trichotomy (Z.pos (digits2_pos p)) d) as [H1|[H1|H1]]; [|assumption|].
  - assert (2 ^ Z.pos (digits2_pos p) <= 2 ^ (d - 1))
      by (apply Z.pow_le_mono_r; lia).
    lia.
  - assert (2 ^ d <= 2 ^ (Z.pos (digits2_pos p) - 1))
      by (apply Z.pow_le_mono_r; lia).
    lia.
Qed.

Lemma iter_xO (m n : positive) : Z.pos (Pos.iter xO m n) = Z.pos m * 2 ^ Z.pos n.
Proof.
  induction n as [|n IH] using Pos.peano_ind.
  - cbn. lia.
  - rewrite Pos.iter_succ, Pos2Z.inj_succ, Z.pow_succ_r by lia.
    change (Z.pos (Pos.iter xO m n)~0) with (2 * Z.pos (Pos.iter xO m n)).
    rewrite IH. ring.
Qed.

Lemma iter_pos_nat {A} (f : A -> A) (n : positive) (x : A) :
  iter_pos f n x = Nat.iter (Pos.to_nat n) f x.
Proof.
  revert x. induction n as [n IH|n IH|]; intros x; cbn [iter_pos].
  - rewrite !IH. rewrite Pos2Nat.inj_xI.
    replace (S (2 * Pos.to_nat n)) with (Pos.to_nat n + (Pos.to_nat n + 1))%nat by lia.
    rewrite !Nat.iter_add. reflexivity.
  - rewrite !IH. rewrite Pos2Nat.inj_xO.
    replace (2 * Pos.to_nat n)%nat with (Pos.to_nat n + Pos.to_nat n)%nat by lia.
    rewrite Nat.iter_add. reflexivity.
  - reflexivity.
Qed.

Lemma shr_nat (mrs : shr_record) (e n : Z) :
  0 <= n -> shr mrs e n = (Nat.iter (Z.to_nat n) shr_1 mrs, e + n).
Proof.
  intros Hn. unfold shr. destruct n as [|p|p]; [cbn; f_equal; lia| |lia].
  rewrite iter_pos_nat. reflexivity.
Qed.

Lemma shr_1_nonneg (m : Z) (r s : bool) :
  0 <= m ->
  shr_1 {| shr_m := m; shr_r := r; shr_s := s |} =
  {| shr_m := m / 2; shr_r := Z.odd m; shr_s := r || s |}.
Proof.
  intros Hm. destruct m as [|[p|p|]|p]; try lia; cbn [shr_1 Z.odd].
  - reflexivity.
  - f_equal. change (Z.pos p~1) with (2 * Z.pos p + 1). symmetry.
    Z.to_euclidean_division_equations; lia.
  - f_equal. change (Z.pos p~0) with (2 * Z.pos p). symmetry.
    Z.to_euclidean_division_equations; lia.
  - reflexivity.
Qed.

(** Shifting right [k] times keeps the invariant. *)
Lemma shr_iter_inv (M : Z) (k : nat) :
  0 <= M ->
  shr_inv M k (Nat.iter k shr_1 {| shr_m := M; shr_r := false; shr_s := false |}).
Proof.
  intros HM. induction k as [|k IH].
  - unfold shr_inv. cbn [Nat.iter nat_rect shr_m shr_r shr_s Z.of_nat]. change (2 ^ 0) with 1.
    rewrite Z.div_1_r, Z.mod_1_r. repeat split; intros; try lia; try discriminate.
  - cbn [Nat.iter nat_rect].
    fold (Nat.iter k shr_1 {| shr_m := M; shr_r := false; shr_s := false |}).
    destruct (Nat.iter k shr_1 _) as [m r s]. destruct IH as (Hm & Hr & Hs).
    cbn [shr_m shr_r shr_s] in Hm, Hr, Hs.
    assert (HP : 0 < 2 ^ Z.of_nat k) by (apply Z.pow_pos_nonneg; lia).
    assert (Hm0 : 0 <= m) by (subst m; apply Z.div_pos; lia).
    rewrite shr_1_nonneg by assumption.
    unfold shr_inv. cbn [shr_m shr_r shr_s].
    rewrite Nat2Z.inj_succ, Z.pow_succ_r by lia.
    set (P := 2 ^ Z.of_nat k) in *.
    replace (2 * P) with (P * 2) by ring.
    rewrite Z.rem_mul_r by lia. rewrite <- Z.div_div by lia. rewrite <- Hm.
    pose proof (Z.mod_pos_bound M P HP) as HR. set (R := M mod P) in *.
    pose proof (Z.mod_pos_bound m 2 ltac:(lia)) as Hb.
    assert (Hodd : Z.odd m = true <-> m mod 2 = 1).
    { rewrite Zmod_odd. destruct (Z.odd m); split; intros; try lia; try discriminate. }
    set (b := m mod 2) in *. clearbody P R b.
    assert (Hb' : b = 0 \/ b = 1) by lia.
    split; [reflexivity|]. split.
    + rewrite Hodd. destruct Hb' as [-> | ->]; lia.
    + rewrite orb_true_iff, Hr, Hs. destruct Hb' as [-> | ->]; lia.
Qed.

(** Rounding to nearest even after [k] shifts is off by at most half of
    [2^k], and by nothing when nothing was shifted out. *)
Lemma round_shr (M : Z) (k : nat) (mrs : shr_record) :
  0 <= M -> shr_inv M k mrs ->
  M / 2 ^ Z.of_nat k <= round_nearest_even (shr_m mrs) (loc_of_shr_record mrs)
    <= M / 2 ^ Z.of_nat k + 1 /\
  2 * Z.abs (M - round_nearest_even (shr_m mrs) (loc_of_shr_record mrs) * 2 ^ Z.of_nat k)
    <= 2 ^ Z.of_nat k /\
  (k = 0%nat -> round_nearest_even (shr_m mrs) (loc_of_shr_record mrs) = M).
Proof.
  intros HM (Hm & Hr & Hs).
  assert (HP : 0 < 2 ^ Z.of_nat k) by (apply Z.pow_pos_nonneg; lia).
  pose proof (Z.div_mod M _ (Z.neq_sym _ _ (Z.lt_neq _ _ HP))) as HD.
  pose proof (Z.mod_pos_bound M _ HP) as HR.
  assert (H0 : k = 0%nat -> 2 ^ Z.of_nat k = 1) by (intros ->; reflexivity).
  destruct mrs as [m r s]. cbn [shr_m shr_r shr_s] in *. rewrite <- Hm in *.
  set (P := 2 ^ Z.of_nat k) in *. set (R := M mod P) in *. clearbody P R.
  destruct r, s; cbn [loc_of_shr_record round_nearest_even].
  - assert (P <= 2 * R) by (apply Hr; reflexivity).
    assert (R <> 0 /\ 2 * R <> P) by (apply Hs; reflexivity). nia.
  - assert (P <= 2 * R) by (apply Hr; reflexivity).
    assert (2 * R = P).
    { destruct (Z.eq_dec (2 * R) P); [assumption|]. 
      assert (false = true) by (apply Hs; lia). discriminate. }
    destruct (Z.even m); nia.
  - assert (~ P <= 2 * R) by (intros H; apply Hr in H; discriminate).
    nia.
  - assert (~ P <= 2 * R) by (intros H; apply Hr in H; discriminate).
    assert (R = 0).
    { destruct (Z.eq_dec R 0); [assumption|].
      assert (false = true) by (apply Hs; lia). discriminate. }
    nia.
Qed.

(** Rounding a mantissa of at least 53 digits, in the normal range and
    short of overflow: the result is a finite float of 53 digits, within
    half a unit in the last place; values are counted in units of [2^E]. *)
Lemma binary_round_aux_exact (s : bool) (M : positive) (e E : Z) :
  53 <= Z.pos (digits2_pos M) -> E <= e ->
  -1021 <= Z.pos (digits2_pos M) + e -> Z.pos (digits2_pos M) + e <= 1023 ->
  exists m' e',
    binary_round_aux prec emax s (Z.pos M) e loc_Exact = S754_finite s m' e' /\
    e + (Z.pos (digits2_pos M) - 53) <= e' /\
    Z.pos (digits2_pos m') = 53 /\
    2 * Z.abs (Z.pos m' * 2 ^ (e' - E) - Z.pos M * 2 ^ (e - E))
      <= 2 ^ (Z.pos (digits2_pos M) + e - 53 - E) /\
    (Z.pos (digits2_pos M) = 53 -> m' = M /\ e' = e).
Proof.
  set (D := Z.pos (digits2_pos M)). intros HD HE Hlo Hhi.
  pose proof (digits2_pos_bounds M) as HB. fold D in HB.
  unfold binary_round_aux, shr_fexp. cbn [Zdigits2]. fold D.
  rewrite fexp_normal by lia.
  replace (D + e - 53 - e) with (D - 53) by lia.
  rewrite shr_nat by lia. cbn [shr_record_of_loc].
  set (k := Z.to_nat (D - 53)).
  assert (Hk : Z.of_nat k = D - 53) by (unfold k; lia).
  pose proof (shr_iter_inv (Z.pos M) k ltac:(lia)) as Hinv.
  set (mrs := Nat.iter k shr_1 _) in *.
  pose proof (round_shr (Z.pos M) k mrs ltac:(lia) Hinv) as (Hr1 & Hr2 & Hr3).
  set (m2 := round_nearest_even (shr_m mrs) (loc_of_shr_record mrs)) in *.
  clearbody m2. clear Hinv. clearbody mrs. clear mrs.
  rewrite Hk in *.
  assert (HP : 0 < 2 ^ (D - 53)) by (apply Z.pow_pos_nonneg; lia).
  assert (Hsplit : 2 ^ D = 2 ^ (D - 53) * 2 ^ 53).
  { rewrite <- Z.pow_add_r by lia. f_equal. lia. }
  assert (Hsplit' : 2 ^ (D - 1) = 2 ^ (D - 53) * 2 ^ 52).
  { rewrite <- Z.pow_add_r by lia. f_equal. lia. }
  assert (Hq : 2 ^ 52 <= Z.pos M / 2 ^ (D - 53) < 2 ^ 53).
  { split; [apply Z.div_le_lower_bound|apply Z.div_lt_upper_bound]; lia. }
  assert (Hm2 : 2 ^ 52 <= m2 <= 2 ^ 53) by lia.
  (* scaling *)
  assert (Hpow1 : 2 ^ (D + e - 53 - E) = 2 ^ (D - 53) * 2 ^ (e - E)).
  { rewrite <- Z.pow_add_r by lia. f_equal. lia. }
  assert (HPE : 0 < 2 ^ (e - E)) by (apply Z.pow_pos_nonneg; lia).
  destruct (Z.eq_dec m2 (2 ^ 53)) as [Heq|Hne].
  - (* the mantissa rounded up to the next power of two *)
    subst m2. change (2 ^ 53) with (Z.pos 9007199254740992).
    cbn [Zdigits2 digits2_pos Pos.succ].
    rewrite fexp_normal by lia.
    replace (54 + (e + (D - 53)) - 53 - (e + (D - 53))) with 1 by lia.
    cbn [shr iter_pos shr_1 shr_m].
    assert (Hle : (e + (D - 53) + 1 <=? emax - prec) = true)
      by (apply Z.leb_le; unfold emax, prec; lia).
    rewrite Hle.
    exists 4503599627370496%positive, (e + (D - 53) + 1).
    split; [reflexivity|]. split; [lia|]. split; [reflexivity|]. split.
    + replace (e + (D - 53) + 1 - E) with (1 + ((D - 53) + (e - E))) by lia.
      rewrite Z.pow_add_r, Z.pow_add_r by lia. rewrite Hpow1.
      change (2 ^ 53) with 9007199254740992 in Hr2. change (2 ^ 1) with 2.
      set (P := 2 ^ (D - 53)) in *. set (Q := 2 ^ (e - E)) in *. clearbody P Q.
      replace (4503599627370496 * (2 * (P * Q)) - Z.pos M * Q)
        with (- ((Z.pos M - 9007199254740992 * P) * Q)) by ring.
      rewrite Z.abs_opp, Z.abs_mul, (Z.abs_eq Q) by lia. nia.
    + intros H53. exfalso. rewrite H53 in *. change (2 ^ (53 - 53)) with 1 in *.
      rewrite Z.div_1_r in Hr1. specialize (Hr3 ltac:(lia)). lia.
  - destruct m2 as [|q|q]; try lia.
    assert (Hdq : Z.pos (digits2_pos q) = 53) by (apply digits2_pos_unique; lia).
    cbn [Zdigits2]. rewrite Hdq. rewrite fexp_normal by lia.
    replace (53 + (e + (D - 53)) - 53 - (e + (D - 53))) with 0 by lia.
    cbn [shr shr_m].
    assert (Hle : (e + (D - 53) <=? emax - prec) = true)
      by (apply Z.leb_le; unfold emax, prec; lia).
    rewrite Hle.
    exists q, (e + (D - 53)).
    split; [reflexivity|]. split; [lia|]. split; [assumption|]. split.
    + replace (e + (D - 53) - E) with ((D - 53) + (e - E)) by lia.
      rewrite Z.pow_add_r by lia. rewrite Hpow1.
      set (P := 2 ^ (D - 53)) in *. set (Q := 2 ^ (e - E)) in *. clearbody P Q.
      replace (Z.pos q * (P * Q) - Z.pos M * Q)
        with (- ((Z.pos M - Z.pos q * P) * Q)) by ring.
      rewrite Z.abs_opp, Z.abs_mul, (Z.abs_eq Q) by lia. nia.
    + intros H53. specialize (Hr3 ltac:(lia)). split; [congruence|lia].
Qed.

(** The same for any mantissa: one of at most 53 digits is only
    shifted left, and nothing is lost. *)
Lemma binary_round_spec (s : bool) (M : positive) (e E : Z) :
  E <= e -> E <= Z.pos (digits2_pos M) + e - 53 ->
  -1021 <= Z.pos (digits2_pos M) + e -> Z.pos (digits2_pos M) + e <= 1023 ->
  exists m' e',
    binary_round prec emax s M e = S754_finite s m' e' /\
    E <= e' /\ Z.pos (digits2_pos M) + e - 53 <= e' /\
    Z.pos (digits2_pos m') = 53 /\
    (Z.pos (digits2_pos M) <= 53 ->
     Z.pos m' * 2 ^ (e' - E) = Z.pos M * 2 ^ (e - E) /\
     e' = Z.pos (digits2_pos M) + e - 53) /\
    2 * Z.abs (Z.pos m' * 2 ^ (e' - E) - Z.pos M * 2 ^ (e - E))
      <= 2 ^ (Z.pos (digits2_pos M) + e - 53 - E).
Proof.
  set (d := Z.pos (digits2_pos M)). intros HE HE' Hlo Hhi.
  pose proof (digits2_pos_bounds M) as HB. fold d in HB.
  unfold binary_round. fold d. rewrite fexp_normal by lia.
  unfold shl_align.
  destruct (Z.lt_ge_cases d 53) as [Hlt|Hge].
  - (* fewer than 53 digits: the mantissa is shifted left, nothing is lost *)
    destruct (d + e - 53 - e) as [|p|p] eqn:Hp; try lia.
    assert (Hpz : Z.pos p = 53 - d) by lia.
    assert (Hmz : Z.pos (Pos.iter xO M p) = Z.pos M * 2 ^ (53 - d))
      by (rewrite iter_xO, Hpz; reflexivity).
    assert (H53 : 2 ^ 53 = 2 ^ d * 2 ^ (53 - d)).
    { rewrite <- Z.pow_add_r by lia. f_equal. lia. }
    assert (H52 : 2 ^ 52 = 2 ^ (d - 1) * 2 ^ (53 - d)).
    { rewrite <- Z.pow_add_r by lia. f_equal. lia. }
    assert (HP : 0 < 2 ^ (53 - d)) by (apply Z.pow_pos_nonneg; lia).
    assert (Hdz : Z.pos (digits2_pos (Pos.iter xO M p)) = 53).
    { apply digits2_pos_unique. rewrite Hmz. change (53 - 1) with 52. nia. }
    destruct (binary_round_aux_exact s (Pos.iter xO M p) (d + e - 53) E)
      as (m' & e' & Hr & He' & Hd' & Herr & Hex); try lia.
    destruct (Hex Hdz) as [-> ->].
    exists (Pos.iter xO M p), (d + e - 53).
    split; [exact Hr|]. split; [lia|]. split; [lia|]. split; [exact Hdz|].
    assert (Heq : Z.pos (Pos.iter xO M p) * 2 ^ (d + e - 53 - E) = Z.pos M * 2 ^ (e - E)).
    { rewrite Hmz. replace (e - E) with ((53 - d) + (d + e - 53 - E)) by lia.
      rewrite Z.pow_add_r by lia. ring. }
    split; [intros _; split; [exact Heq|reflexivity]|].
    rewrite Heq, Z.sub_diag. cbn [Z.abs]. 
    assert (0 < 2 ^ (d + e - 53 - E)) by (apply Z.pow_pos_nonneg; lia). lia.
  - destruct (d + e - 53 - e) as [|p|p] eqn:Hp; try lia;
      (destruct (binary_round_aux_exact s M e E)
        as (m' & e' & Hr & He' & Hd' & Herr & Hex); try (fold d; lia);
       fold d in He', Herr, Hex;
       exists m', e';
       split; [exact Hr|]; split; [lia|]; split; [lia|]; split; [exact Hd'|];
       split; [|exact Herr];
       intros Hle; assert (d = 53) as Hd53 by lia;
       destruct (Hex Hd53) as [-> ->]; split; [reflexivity|lia]).
Qed.

Lemma of_uint63_of_Z (n : Z) :
  0 <= n < 2 ^ 63 ->
  Prim2SF (of_uint63 (Uint63.of_Z n)) = binary_normalize prec emax n 0 false.
Proof.
  intros Hn. rewrite of_uint63_spec, Uint63.of_Z_spec.
  rewrite Z.mod_small; [reflexivity|]. exact Hn.
Qed.

(** [float(n)] is exact below 2^53. *)
Lemma float_of_int_pos (n : Z) :
  0 < n < 2 ^ 53 ->
  exists m e,
    Prim2SF (float_of_int n) = S754_finite false m e /\
    Z.pos (digits2_pos m) = 53 /\ -52 <= e <= 0 /\
    Z.pos m * 2 ^ (e + 1074) = n * 2 ^ 1074.
Proof.
  intros Hn. unfold float_of_int.
  destruct (Z.ltb_spec n 0) as [H|_]; [lia|].
  rewrite of_uint63_of_Z
    by (change (2 ^ 63) with 9223372036854775808;
        change (2 ^ 53) with 9007199254740992 in Hn; lia).
  destruct n as [|p|p]; try lia. cbn [binary_normalize].
  pose proof (digits2_pos_bounds p) as HB.
  assert (Hd : 1 <= Z.pos (digits2_pos p) <= 53).
  { split; [lia|]. destruct (Z.le_gt_cases (Z.pos (digits2_pos p)) 53); [assumption|].
    assert (2 ^ 53 <= 2 ^ (Z.pos (digits2_pos p) - 1)) by (apply Z.pow_le_mono_r; lia). lia. }
  destruct (binary_round_spec false p 0 (-1074))
    as (m & e & Hr & He & He' & Hdm & Hex & _); try lia.
  destruct (Hex ltac:(lia)) as [Hv ->].
  exists m, (Z.pos (digits2_pos p) + 0 - 53).
  split; [exact Hr|]. split; [exact Hdm|]. split; [lia|].
  replace (Z.pos (digits2_pos p) + 0 - 53 + 1074)
    with (Z.pos (digits2_pos p) + 0 - 53 - -1074) by lia.
  rewrite Hv. reflexivity.
Qed.

Lemma float_of_int_units (n : Z) :
  - 2 ^ 53 < n < 2 ^ 53 -> SFunits (Prim2SF (float_of_int n)) = Some (n * 2 ^ 1074).
Proof.
  intros Hn. destruct (Z.lt_trichotomy n 0) as [Hneg|[->|Hpos]].
  - unfold float_of_int. destruct (Z.ltb_spec n 0) as [_|H]; [|lia].
    rewrite opp_spec.
    destruct (float_of_int_pos (- n) ltac:(lia)) as (m & e & Hr & _ & He & Hv).
    unfold float_of_int in Hr. destruct (Z.ltb_spec (- n) 0) as [H|_]; [lia|].
    rewrite Hr. cbn [SFopp negb SFunits].
    destruct (Z.leb_spec (-1074) e) as [_|H]; [|lia].
    f_equal. change (Z.neg m) with (- Z.pos m). rewrite Z.mul_opp_l, Hv. ring.
  - reflexivity.
  - destruct (float_of_int_pos n ltac:(lia)) as (m & e & Hr & _ & He & Hv).
    rewrite Hr. cbn [SFunits].
    destruct (Z.leb_spec (-1074) e) as [_|H]; [|lia].
    f_equal. exact Hv.
Qed.

Lemma two_32_float : Prim2SF (float_of_int (2 ^ 32)) = S754_finite false 4503599627370496 (-20).
Proof. vm_compute. reflexivity. Qed.

Lemma div_eucl_exact (q b : Z) : 0 < b -> Z.div_eucl (q * b) b = (q, 0).
Proof.
  intros Hb. pose proof (Z.div_mul q b ltac:(lia)) as Hq.
  pose proof (Z.mod_mul q b ltac:(lia)) as Hr.
  unfold Z.div, Z.modulo in Hq, Hr.
  destruct (Z.div_eucl (q * b) b) as [q' r']. now subst.
Qed.

(** Dividing a normal number by 2^32 only lowers its exponent. *)
Lemma SFdiv_two_32 (m : positive) (e : Z) :
  Z.pos (digits2_pos m) = 53 -> -52 <= e <= 0 ->
  SF64div (S754_finite false m e) (S754_finite false 4503599627370496 (-20)) =
  S754_finite false m (e - 32).
Proof.
  intros Hd He. unfold SF64div, SFdiv, SFdiv_core_binary.
  cbn [Zdigits2 xorb]. rewrite Hd.
  change (Z.pos (digits2_pos 4503599627370496)) with 53.
  replace (53 + e - (53 + -20)) with (e + 20) by lia.
  rewrite fexp_normal by lia.
  replace (Z.min (e + 20 - 53) (e - -20)) with (e - 33) by lia.
  replace (e - -20 - (e - 33)) with 53 by lia.
  rewrite Z.shiftl_mul_pow2 by lia.
  replace (Z.pos m * 2 ^ 53) with ((2 * Z.pos m) * Z.pos 4503599627370496)
    by (change (2 ^ 53) with (2 * Z.pos 4503599627370496); ring).
  rewrite div_eucl_exact by lia.
  change (new_location (Z.pos 4503599627370496) 0) with loc_Exact.
  change (2 * Z.pos m) with (Z.pos m~0).
  unfold binary_round_aux, shr_fexp. cbn [Zdigits2 digits2_pos].
  rewrite Pos2Z.inj_succ, Hd. rewrite fexp_normal by lia.
  replace (Z.succ 53 + (e - 33) - 53 - (e - 33)) with 1 by lia.
  cbn [shr_record_of_loc shr iter_pos shr_1 loc_of_shr_record round_nearest_even shr_m orb].
  cbn [Zdigits2]. rewrite Hd. rewrite fexp_normal by lia.
  replace (53 + (e - 33 + 1) - 53 - (e - 33 + 1)) with 0 by lia.
  cbn [shr shr_m].
  assert (Hle : (e - 33 + 1 <=? emax - prec) = true)
    by (apply Z.leb_le; unfold emax, prec; lia).
  rewrite Hle. f_equal. lia.
Qed.

(** [fraction / 2**32] is exact. *)
Lemma fraction_units (f : Z) :
  0 <= f < 2 ^ 32 ->
  SFunits (SF64div (Prim2SF (float_of_int f)) (Prim2SF (float_of_int (2 ^ 32))))
  = Some (f * 2 ^ 1042).
Proof.
  intros Hf. rewrite two_32_float.
  destruct (Z.eq_dec f 0) as [->|Hne]; [reflexivity|].
  assert (H53 : 2 ^ 32 < 2 ^ 53) by reflexivity.
  destruct (float_of_int_pos f ltac:(lia)) as (m & e & Hr & Hd & He & Hv).
  rewrite Hr, SFdiv_two_32 by assumption. cbn [SFunits].
  destruct (Z.leb_spec (-1074) (e - 32)) as [_|H]; [|lia].
  f_equal. replace (e - 32 + 1074) with (e + 1042) by lia.
  replace (e + 1074) with (e + 1042 + 32) in Hv by lia.
  rewrite Z.pow_add_r in Hv by lia.
  change (2 ^ 1074) with (2 ^ 1042 * 2 ^ 32) in Hv.
  assert (0 < 2 ^ 32) by reflexivity. nia.
Qed.

Lemma shl_align_fst (m : positive) (e e' : Z) :
  e' <= e -> Z.pos (fst (shl_align m e e')) = Z.pos m * 2 ^ (e - e').
Proof.
  intros H. unfold shl_align. destruct (e' - e) as [|d|d] eqn:Hd; cbn [fst]; try lia.
  - replace (e - e') with 0 by lia. change (2 ^ 0) with 1. lia.
  - rewrite iter_xO. f_equal. f_equal. lia.
Qed.

Lemma pow2_lt_exponent (a b : Z) : 0 <= b -> 2 ^ a < 2 ^ b -> a < b.
Proof. intros Hb H. apply (Z.pow_lt_mono_r_iff 2); lia. Qed.

Lemma SFunits_finite (s : bool) (m : positive) (e : Z) :
  -1074 <= e ->
  SFunits (S754_finite s m e) = Some ((if s then Z.neg m else Z.pos m) * 2 ^ (e + 1074)).
Proof. intros H. cbn [SFunits]. destruct (Z.leb_spec (-1074) e); [reflexivity|lia]. Qed.

Lemma SFunits_finite_inv (s : bool) (m : positive) (e u : Z) :
  SFunits (S754_finite s m e) = Some u ->
  -1074 <= e /\ u = (if s then Z.neg m else Z.pos m) * 2 ^ (e + 1074).
Proof.
  cbn [SFunits]. destruct (Z.leb_spec (-1074) e); [|discriminate].
  intros Hu; inversion Hu. split; [assumption|reflexivity].
Qed.

(** Rounding a non-zero integer multiple of [2^ez] to binary64. *)
Lemma binary_normalize_units (M ez B : Z) :
  -1074 <= ez -> 53 <= B <= 2097 ->
  2 ^ 52 <= Z.abs (M * 2 ^ (ez + 1074)) < 2 ^ B ->
  exists u, SFunits (binary_normalize prec emax M ez false) = Some u /\
            2 * Z.abs (u - M * 2 ^ (ez + 1074)) <= 2 ^ (B - 53).
Proof.
  intros Hez HB HU.
  assert (HQ : 0 < 2 ^ (ez + 1074)) by (apply Z.pow_pos_nonneg; lia).
  assert (Hmain : forall (s : bool) (p : positive),
             2 ^ 52 <= Z.pos p * 2 ^ (ez + 1074) < 2 ^ B ->
             exists u, SFunits (binary_round prec emax s p ez) = Some u /\
               2 * Z.abs (u - (if s then Z.neg p else Z.pos p) * 2 ^ (ez + 1074))
                 <= 2 ^ (B - 53)).
  { intros s p Hp. pose proof (digits2_pos_bounds p) as Hd.
    set (d := Z.pos (digits2_pos p)) in *.
    assert (Hd1 : 52 < d + ez + 1074).
    { apply pow2_lt_exponent; [lia|].
      replace (d + ez + 1074) with (d + (ez + 1074)) by lia.
      rewrite Z.pow_add_r by lia. nia. }
    assert (Hd2 : d + ez + 1074 <= B).
    { assert (d - 1 + (ez + 1074) < B); [|lia].
      apply pow2_lt_exponent; [lia|]. rewrite Z.pow_add_r by lia. nia. }
    destruct (binary_round_spec s p ez (-1074))
      as (m' & e' & Hr & He & _ & _ & _ & Herr); try (fold d; lia).
    fold d in Herr. rewrite Hr, SFunits_finite by lia.
    eexists. split; [reflexivity|].
    replace (e' - -1074) with (e' + 1074) in Herr by lia.
    replace (ez - -1074) with (ez + 1074) in Herr by lia.
    assert (Hmono : 2 ^ (d + ez - 53 - -1074) <= 2 ^ (B - 53))
      by (apply Z.pow_le_mono_r; lia).
    destruct s.
    - change (Z.neg m') with (- Z.pos m'). change (Z.neg p) with (- Z.pos p).
      replace (- Z.pos m' * 2 ^ (e' + 1074) - - Z.pos p * 2 ^ (ez + 1074))
        with (- (Z.pos m' * 2 ^ (e' + 1074) - Z.pos p * 2 ^ (ez + 1074))) by ring.
      rewrite Z.abs_opp. lia.
    - lia. }
  destruct M as [|p|p]; cbn [binary_normalize].
  - cbn in HU. lia.
  - apply (Hmain false p). rewrite Z.abs_eq in HU by lia. exact HU.
  - apply (Hmain true p). change (Z.neg p) with (- Z.pos p) in HU.
    rewrite Z.mul_opp_l, Z.abs_opp, Z.abs_eq in HU by lia. exact HU.
Qed.

(** The sum of two finite floats: exact when it is zero, and otherwise
    off by at most half a unit in the last place of its binade. *)
Lemma SFadd_units (x y : spec_float) (ux uy B : Z) :
  SFunits x = Some ux -> SFunits y = Some uy -> 53 <= B <= 2097 ->
  ux + uy = 0 \/ 2 ^ 52 <= Z.abs (ux + uy) < 2 ^ B ->
  exists u, SFunits (SF64add x y) = Some u /\
            2 * Z.abs (u - (ux + uy)) <= 2 ^ (B - 53).
Proof.
  intros Hx Hy HB HU.
  assert (HP : 0 <= 2 ^ (B - 53)) by (apply Z.pow_nonneg; lia).
  assert (Hexact : forall r, SFunits r = Some (ux + uy) ->
            exists u, SFunits r = Some u /\ 2 * Z.abs (u - (ux + uy)) <= 2 ^ (B - 53)).
  { intros r Hr. exists (ux + uy). split; [exact Hr|]. rewrite Z.sub_diag. cbn. lia. }
  destruct x as [sx|sx| |sx mx ex]; try discriminate;
    destruct y as [sy|sy| |sy my ey]; try discriminate.
  - cbn in Hx, Hy. inversion Hx; inversion Hy; subst.
    apply Hexact. now destruct sx, sy.
  - cbn in Hx. inversion Hx; subst. apply Hexact. exact Hy.
  - cbn in Hy. inversion Hy; subst. apply Hexact. rewrite Z.add_0_r. exact Hx.
  - apply SFunits_finite_inv in Hx, Hy. destruct Hx as [Hex ->], Hy as [Hey ->].
    unfold SF64add, SFadd.
    set (ez := Z.min ex ey).
    rewrite !shl_align_fst by lia.
    set (M := cond_Zopp sx (Z.pos mx * 2 ^ (ex - ez))
              + cond_Zopp sy (Z.pos my * 2 ^ (ey - ez))).
    assert (HM : (if sx then Z.neg mx else Z.pos mx) * 2 ^ (ex + 1074)
                 + (if sy then Z.neg my else Z.pos my) * 2 ^ (ey + 1074)
                 = M * 2 ^ (ez + 1074)).
    { unfold M.
      assert (Hpx : 2 ^ (ex + 1074) = 2 ^ (ex - ez) * 2 ^ (ez + 1074))
        by (rewrite <- Z.pow_add_r by lia; f_equal; lia).
      assert (Hpy : 2 ^ (ey + 1074) = 2 ^ (ey - ez) * 2 ^ (ez + 1074))
        by (rewrite <- Z.pow_add_r by lia; f_equal; lia).
      rewrite Hpx, Hpy.
      destruct sx, sy; cbn [cond_Zopp];
        change (Z.neg mx) with (- Z.pos mx); change (Z.neg my) with (- Z.pos my); ring. }
    rewrite HM in *.
    destruct HU as [H0|HU].
    + assert (0 < 2 ^ (ez + 1074)) by (apply Z.pow_pos_nonneg; lia).
      assert (M = 0) as -> by nia. cbn [binary_normalize].
      apply Hexact. reflexivity.
    + apply binary_normalize_units; try assumption. lia.
Qed.

Lemma Qpower_2_units (e : Z) :
  -1074 <= e ->
  (Qpower 2 e == inject_Z (2 ^ (e + 1074)) / inject_Z (2 ^ 1074))%Q.
Proof.
  intros He.
  assert (H2 : ~ (2 == 0)%Q) by discriminate.
  rewrite !Zpower_Qpower by lia. change (inject_Z 2) with 2%Q.
  rewrite Qpower_plus by exact H2.
  field; try (apply Qpower_not_0; exact H2).
Qed.

Lemma units_positive : (0 < inject_Z (2 ^ 1074))%Q.
Proof.
  change 0%Q with (inject_Z 0). rewrite <- Zlt_Qlt. apply Z.pow_pos_nonneg; lia.
Qed.

Lemma SFunits_SF2Q (x : spec_float) (u : Z) :
  SFunits x = Some u ->
  exists q, SF2Q x = Some q /\ (q == inject_Z u / inject_Z (2 ^ 1074))%Q.
Proof.
  destruct x as [s|s| |s m e]; try discriminate.
  - cbn. intros H; inversion H. exists 0%Q. split; [reflexivity|].
    unfold Qdiv. now rewrite Qmult_0_l.
  - intros H. apply SFunits_finite_inv in H. destruct H as [He ->].
    eexists. split; [reflexivity|].
    rewrite Qpower_2_units by exact He. rewrite inject_Z_mult.
    unfold Qdiv. now rewrite Qmult_assoc.
Qed.

(** From a bound counted in units of 2^-1074 to a bound on the values. *)
Lemma within_of_units (x : float) (u v : Z) (q tol : Q) :
  SFunits (Prim2SF x) = Some u ->
  (q == inject_Z v / inject_Z (2 ^ 1074))%Q ->
  (inject_Z (Z.abs (u - v)) <= tol * inject_Z (2 ^ 1074))%Q ->
  within tol x q.
Proof.
  intros Hu Hq Hb. destruct (SFunits_SF2Q _ _ Hu) as (q' & Hq' & Eq').
  exists q'. split; [exact Hq'|].
  pose proof units_positive as HP.
  assert (E : (q' - q == inject_Z (u - v) / inject_Z (2 ^ 1074))%Q).
  { rewrite Eq', Hq. unfold Z.sub. rewrite inject_Z_plus, inject_Z_opp.
    field. intros H0. rewrite H0 in HP. now apply Qlt_irrefl in HP. }
  rewrite E. unfold Qdiv. rewrite Qabs_Qmult.
  rewrite (Qabs_pos (/ _)) by (apply Qinv_le_0_compat, Qlt_le_weak, HP).
  assert (EA : (Qabs (inject_Z (u - v)) == inject_Z (Z.abs (u - v)))%Q).
  { unfold inject_Z. now rewrite <- Zabs_Qabs. }
  rewrite EA. apply Qle_shift_div_r; assumption.
Qed.

Lemma unix_seconds_units (s f : Z) :
  (unix_seconds s f ==
   inject_Z ((s - NTP_DELTA) * 2 ^ 1074 + f * 2 ^ 1042) / inject_Z (2 ^ 1074))%Q.
Proof.
  unfold unix_seconds. rewrite inject_Z_plus, !inject_Z_mult.
  change (2 ^ 1074) with (2 ^ 32 * 2 ^ 1042). rewrite inject_Z_mult.
  assert (H32 : ~ (inject_Z (2 ^ 32) == 0)%Q) by discriminate.
  assert (H1042 : ~ (inject_Z (2 ^ 1042) == 0)%Q) by discriminate.
  field. split; assumption.
Qed.

(** *** Signs *)

Lemma sign_clear_not_negative x : SFsign_clear x = true -> SFnot_negative x = true.
Proof. now destruct x as [[]|[]| |[] ? ?]. Qed.

Lemma ltb_zero (x : float) : (x <? 0)%float = negb (SFnot_negative (Prim2SF x)).
Proof.
  rewrite ltb_spec. change (Prim2SF 0) with (S754_zero false).
  now destruct (Prim2SF x) as [[]|[]| |[] ? ?].
Qed.

Lemma binary_round_aux_sign m e l :
  SFsign_clear (binary_round_aux prec emax false m e l) = true.
Proof.
  unfold binary_round_aux.
  destruct (shr_fexp prec emax m e l) as [mrs' e'].
  destruct (shr_fexp prec emax _ e' loc_Exact) as [mrs'' e''].
  destruct (shr_m mrs''); [reflexivity| |reflexivity].
  now destruct (e'' <=? emax - prec).
Qed.

Lemma binary_round_sign m e : SFsign_clear (binary_round prec emax false m e) = true.
Proof.
  unfold binary_round. destruct (shl_align m e _) as [mz ez].
  apply binary_round_aux_sign.
Qed.

Lemma SFmul_square_sign x : SFnot_negative (SF64mul x x) = true.
Proof.
  destruct x as [[]|[]| |s m e]; try reflexivity.
  unfold SF64mul, SFmul. rewrite xorb_nilpotent.
  apply sign_clear_not_negative, binary_round_aux_sign.
Qed.

Lemma SFadd_sign x y :
  SFnot_negative x = true -> SFnot_negative y = true ->
  SFnot_negative (SF64add x y) = true.
Proof.
  destruct x as [[]|[]| |[] mx ex]; try discriminate;
    destruct y as [[]|[]| |[] my ey]; try discriminate; try reflexivity.
  intros _ _. unfold SF64add, SFadd. cbn [cond_Zopp Z.add binary_normalize].
  apply sign_clear_not_negative, binary_round_sign.
Qed.

Lemma SFdiv_sign x y :
  SFnot_negative x = true -> SFsign_clear y = true ->
  SFnot_negative (SF64div x y) = true.
Proof.
  destruct x as [[]|[]| |[] mx ex]; try discriminate;
    destruct y as [[]|[]| |[] my ey]; try discriminate; try reflexivity.
  intros _ _. unfold SF64div, SFdiv.
  destruct (SFdiv_core_binary prec emax (Z.pos mx) ex (Z.pos my) ey) as [[mz ez] lz].
  apply sign_clear_not_negative, binary_round_aux_sign.
Qed.

Lemma float_of_int_sign (n : Z) : 0 <= n -> SFsign_clear (Prim2SF (float_of_int n)) = true.
Proof.
  intros Hn. unfold float_of_int. destruct (Z.ltb_spec n 0) as [H|_]; [lia|].
  rewrite of_uint63_spec.
  pose proof (Uint63.to_Z_bounded (Uint63.of_Z n)) as [Hb _].
  destruct (Uint63.to_Z (Uint63.of_Z n)) as [|p|p]; [reflexivity| |lia].
  apply binary_round_sign.
Qed.

Lemma py_sum_sign (xs : list float) :
  Forall (fun x => SFnot_negative (Prim2SF x) = true) xs ->
  SFnot_negative (Prim2SF (py_sum xs)) = true.
Proof.
  unfold py_sum.
  assert (H0 : SFnot_negative (Prim2SF (float_of_int 0)) = true) by reflexivity.
  revert H0. generalize (float_of_int 0). 
  induction xs as [|x xs IH]; intros acc Hacc Hall; cbn [fold_left]; [exact Hacc|].
  inversion Hall; subst. apply IH; [|assumption].
  rewrite add_spec. now apply SFadd_sign.
Qed.

(** *** Comparisons *)

Lemma Qabs_units_le (u c : Z) :
  (Qabs (inject_Z u / inject_Z (2 ^ 1074)) <= inject_Z c / inject_Z (2 ^ 1074))%Q
  <-> Z.abs u <= c.
Proof.
  pose proof units_positive as HP.
  assert (HP' : (0 <= / inject_Z (2 ^ 1074))%Q)
    by (apply Qinv_le_0_compat, Qlt_le_weak, HP).
  assert (HP'' : (0 < / inject_Z (2 ^ 1074))%Q) by (apply Qinv_lt_0_compat, HP).
  unfold Qdiv. rewrite Qabs_Qmult, (Qabs_pos (/ _)) by exact HP'.
  assert (EA : (Qabs (inject_Z u) == inject_Z (Z.abs u))%Q).
  { unfold inject_Z. now rewrite <- Zabs_Qabs. }
  rewrite EA. rewrite Zle_Qle. split.
  - intros H. apply Qmult_le_r in H; assumption.
  - intros H. apply Qmult_le_r; assumption.
Qed.

Lemma valid_finite (s : bool) (m : positive) (e : Z) :
  valid_binary (S754_finite s m e) = true ->
  -1074 <= e /\ Z.pos (digits2_pos m) <= 53 /\
  (-1074 < e -> Z.pos (digits2_pos m) = 53).
Proof.
  cbn [SpecFloat.valid_binary]. unfold bounded, canonical_mantissa.
  rewrite andb_true_iff, Z.eqb_eq. unfold SpecFloat.fexp, SpecFloat.emin, prec, emax.
  lia.
Qed.

(** The float comparison with 0.5 is the comparison of the numbers. *)
Lemma abs_le_half (a : float) (q : Q) :
  float_value a = Some q ->
  (PrimFloat.abs a <=? 0.5)%float = true <-> (Qabs q <= 1 # 2)%Q.
Proof.
  unfold float_value. intros Hq.
  rewrite leb_spec, abs_spec.
  change (Prim2SF 0.5) with (S754_finite false 4503599627370496 (-53)).
  assert (HM0 : Z.pos 4503599627370496 = 2 ^ 52) by reflexivity.
  revert HM0. generalize 4503599627370496%positive. intros M0 HM0.
  pose proof (Prim2SF_valid a) as Hv.
  assert (Hhalf : ((1 # 2) == inject_Z (2 ^ 1073) / inject_Z (2 ^ 1074))%Q).
  { change (2 ^ 1074) with (2 ^ 1073 * 2). rewrite inject_Z_mult.
    assert (~ (inject_Z (2 ^ 1073) == 0)%Q) by discriminate.
    field. assumption. }
  destruct (Prim2SF a) as [s|s| |s m e]; try discriminate.
  - cbn in Hq. injection Hq as <-. cbn. split; [discriminate|reflexivity].
  - apply valid_finite in Hv. destruct Hv as (He & Hd & Hn).
    destruct (SFunits_SF2Q (S754_finite s m e) _ (SFunits_finite s m e He))
      as (q' & Hq' & Eq').
    rewrite Hq in Hq'. injection Hq' as <-.
    rewrite Eq', Hhalf, Qabs_units_le.
    assert (Habs : Z.abs ((if s then Z.neg m else Z.pos m) * 2 ^ (e + 1074))
                   = Z.pos m * 2 ^ (e + 1074)).
    { assert (0 < 2 ^ (e + 1074)) by (apply Z.pow_pos_nonneg; lia).
      destruct s; [change (Z.neg m) with (- Z.pos m); rewrite Z.mul_opp_l, Z.abs_opp|];
        apply Z.abs_eq; lia. }
    rewrite Habs. clear Habs Eq' Hq.
    pose proof (digits2_pos_bounds m) as HB.
    unfold SFleb, SFcompare. cbn [SFabs].
    destruct (Z.compare_spec e (-53)) as [->|Hlt|Hgt].
    + change (2 ^ (-53 + 1074)) with (2 ^ 1021). change (2 ^ 1073) with (2 ^ 52 * 2 ^ 1021).
      assert (HP : 0 < 2 ^ 1021) by (apply Z.pow_pos_nonneg; lia).
      rewrite <- HM0.
      set (P := 2 ^ 1021) in *. clearbody P.
      change (PosDef.Pos.compare_cont Eq m M0) with (Pos.compare m M0).
      destruct (Pos.compare_spec m M0) as [->|Hl|Hg].
      * split; [intros _; apply Z.le_refl|reflexivity].
      * split; [intros _|reflexivity]. apply Z.mul_le_mono_nonneg_r; lia.
      * split; [discriminate|]. intros H1. exfalso.
        apply Z.mul_le_mono_pos_r in H1; lia.
    + split; [intros _|reflexivity].
      assert (Hm : Z.pos m < 2 ^ 53).
      { eapply Z.lt_le_trans; [apply HB|]. apply Z.pow_le_mono_r; lia. }
      assert (Hp : 2 ^ (e + 1074) <= 2 ^ 1020) by (apply Z.pow_le_mono_r; lia).
      assert (HQ : 0 < 2 ^ (e + 1074)) by (apply Z.pow_pos_nonneg; lia).
      change (2 ^ 1073) with (2 ^ 53 * 2 ^ 1020).
      assert (H53 : 0 < 2 ^ 53) by reflexivity.
      set (P := 2 ^ 1020) in *. set (Q := 2 ^ (e + 1074)) in *. set (T := 2 ^ 53) in *.
      clearbody P Q T. clear HB.
      apply Z.le_trans with (T * Q).
      * apply Z.mul_le_mono_nonneg_r; lia.
      * apply Z.mul_le_mono_nonneg_l; lia.
    + split; [discriminate|]. intros H1. exfalso.
      rewrite (Hn ltac:(lia)) in HB. change (53 - 1) with 52 in HB.
      assert (Hp : 2 ^ 1022 <= 2 ^ (e + 1074)) by (apply Z.pow_le_mono_r; lia).
      change (2 ^ 1073) with (2 ^ 51 * 2 ^ 1022) in H1.
      assert (HP : 0 < 2 ^ 1022) by (apply Z.pow_pos_nonneg; lia).
      assert (H5 : 2 ^ 51 < 2 ^ 52) by reflexivity.
      assert (H51 : 0 < 2 ^ 51) by reflexivity.
      set (P := 2 ^ 1022) in *. set (Q := 2 ^ (e + 1074)) in *.
      set (T := 2 ^ 51) in *. set (T' := 2 ^ 52) in *.
      clearbody P Q T T'.
      assert (T' * P <= Z.pos m * Q).
      { apply Z.le_trans with (T' * Q).
        - apply Z.mul_le_mono_nonneg_l; lia.
        - apply Z.mul_le_mono_nonneg_r; lia. }
      assert (T * P < T' * P) by (apply Z.mul_lt_mono_pos_r; lia).
      lia.
Qed.

Lemma rank_finite_bounds (s : bool) (m : positive) (e : Z) :
  valid_binary (S754_finite s m e) = true ->
  0 < Z.pos m < 2 ^ 53 /\ 0 < e + 1075 <= 2046.
Proof.
  intros Hv. pose proof Hv as Hv'. apply valid_finite in Hv. destruct Hv as (He & Hd & _).
  cbn [SpecFloat.valid_binary] in Hv'. unfold bounded in Hv'.
  apply andb_true_iff in Hv'. destruct Hv' as [_ Hle]. apply Z.leb_le in Hle.
  unfold emax, prec in Hle.
  pose proof (digits2_pos_bounds m) as [_ HB].
  assert (2 ^ Z.pos (digits2_pos m) <= 2 ^ 53) by (apply Z.pow_le_mono_r; lia).
  lia.
Qed.

Lemma SFcompare_rank (x y : spec_float) :
  valid_binary x = true -> valid_binary y = true ->
  SFis_nan x = false -> SFis_nan y = false ->
  SFcompare x y = Some (SFrank x ?= SFrank y).
Proof.
  intros Hx Hy Nx Ny.
  assert (H53 : 2 ^ 53 = 9007199254740992) by reflexivity.
  assert (H70 : 2 ^ 70 = 1180591620717411303424) by reflexivity.
  destruct x as [sx|sx| |sx mx ex]; try discriminate;
    destruct y as [sy|sy| |sy my ey]; try discriminate;
    try (apply rank_finite_bounds in Hx); try (apply rank_finite_bounds in Hy);
    cbn [SFcompare SFrank]; rewrite ?H53, ?H70 in *.
  - reflexivity.
  - destruct sy; reflexivity.
  - destruct sy; rank_compare.
  - destruct sx; reflexivity.
  - destruct sx, sy; reflexivity.
  - destruct sx, sy; rank_compare.
  - destruct sx; rank_compare.
  - destruct sx, sy; rank_compare.
  - change (PosDef.Pos.compare_cont Eq mx my) with (Z.pos mx ?= Z.pos my).
    destruct sx, sy; try rank_compare;
      destruct (Z.compare_spec ex ey) as [->|H|H];
      try rank_compare;
      destruct (Z.compare_spec (Z.pos mx) (Z.pos my)) as [E|E|E];
      cbn [CompOpp]; rank_compare.
Qed.

Lemma is_nan_spec (x : float) : is_nan x = SFis_nan (Prim2SF x).
Proof.
  unfold is_nan. rewrite FloatAxioms.eqb_spec. unfold SFeqb.
  pose proof (Prim2SF_valid x) as Hv.
  destruct (Prim2SF x) as [s|s| |s m e] eqn:E; try reflexivity.
  - now destruct s.
  - rewrite SFcompare_rank by (assumption || reflexivity).
    now rewrite Z.compare_refl.
Qed.

(** Away from NaN, [<] on floats is [<] on their ranks. *)
Lemma ltb_rank (x y : float) :
  is_nan x = false -> is_nan y = false ->
  (x <? y)%float = (SFrank (Prim2SF x) <? SFrank (Prim2SF y)).
Proof.
  rewrite !is_nan_spec. intros Nx Ny. rewrite FloatAxioms.ltb_spec. unfold SFltb.
  rewrite SFcompare_rank by (apply Prim2SF_valid || assumption).
  unfold Z.ltb. now destruct (_ ?= _).
Qed.

Lemma fold_max_greatest (rest : list float) (x0 : float) :
  Forall (fun y => is_nan y = false) (x0 :: rest) ->
  let m := fold_left (fun m y => if (m <? y)%float then y else m) rest x0 in
  In m (x0 :: rest) /\ is_nan m = false /\
  forall y, In y (x0 :: rest) -> SFrank (Prim2SF y) <= SFrank (Prim2SF m).
Proof.
  revert x0. induction rest as [|y rest IH]; intros x0 Hall; cbn [fold_left].
  - inversion Hall; subst. split; [now left|]. split; [assumption|].
    intros y [<-|[]]. lia.
  - inversion Hall as [|? ? N0 Hall']; subst. inversion Hall' as [|? ? Ny Hrest]; subst.
    pose proof (ltb_rank x0 y N0 Ny) as Hlt.
    set (x1 := if (x0 <? y)%float then y else x0) in *.
    assert (N1 : is_nan x1 = false) by (unfold x1; now destruct (x0 <? y)%float).
    assert (H1 : SFrank (Prim2SF x0) <= SFrank (Prim2SF x1) /\
                 SFrank (Prim2SF y) <= SFrank (Prim2SF x1) /\ (x1 = x0 \/ x1 = y)).
    { unfold x1. destruct (x0 <? y)%float; symmetry in Hlt;
        [apply Z.ltb_lt in Hlt|apply Z.ltb_ge in Hlt]; repeat split; auto; lia. }
    destruct H1 as (L0 & Ly & Hx1).
    destruct (IH x1 (Forall_cons _ N1 Hrest)) as (Hin & Nm & Hge).
    split; [|split; [exact Nm|]].
    + destruct Hin as [<-|Hin]; [|right; right; exact Hin].
      destruct Hx1 as [->| ->]; [now left|right; now left].
    + intros z [<-|[<-|Hz]].
      * specialize (Hge x1 (or_introl eq_refl)). lia.
      * specialize (Hge x1 (or_introl eq_refl)). lia.
      * apply Hge. now right.
Qed.

Lemma fold_min_least (rest : list float) (x0 : float) :
  Forall (fun y => is_nan y = false) (x0 :: rest) ->
  let m := fold_left (fun m y => if (y <? m)%float then y else m) rest x0 in
  In m (x0 :: rest) /\ is_nan m = false /\
  forall y, In y (x0 :: rest) -> SFrank (Prim2SF m) <= SFrank (Prim2SF y).
Proof.
  revert x0. induction rest as [|y rest IH]; intros x0 Hall; cbn [fold_left].
  - inversion Hall; subst. split; [now left|]. split; [assumption|].
    intros y [<-|[]]. lia.
  - inversion Hall as [|? ? N0 Hall']; subst. inversion Hall' as [|? ? Ny Hrest]; subst.
    pose proof (ltb_rank y x0 Ny N0) as Hlt.
    set (x1 := if (y <? x0)%float then y else x0) in *.
    assert (N1 : is_nan x1 = false) by (unfold x1; now destruct (y <? x0)%float).
    assert (H1 : SFrank (Prim2SF x1) <= SFrank (Prim2SF x0) /\
                 SFrank (Prim2SF x1) <= SFrank (Prim2SF y) /\ (x1 = x0 \/ x1 = y)).
    { unfold x1. destruct (y <? x0)%float; symmetry in Hlt;
        [apply Z.ltb_lt in Hlt|apply Z.ltb_ge in Hlt]; repeat split; auto; lia. }
    destruct H1 as (L0 & Ly & Hx1).
    destruct (IH x1 (Forall_cons _ N1 Hrest)) as (Hin & Nm & Hge).
    split; [|split; [exact Nm|]].
    + destruct Hin as [<-|Hin]; [|right; right; exact Hin].
      destruct Hx1 as [->| ->]; [now left|right; now left].
    + intros z [<-|[<-|Hz]].
      * specialize (Hge x1 (or_introl eq_refl)). lia.
      * specialize (Hge x1 (or_introl eq_refl)). lia.
      * apply Hge. now right.
Qed.

(** On floats free of NaN, the scan of [max] ends on one of them that
    none exceeds, and the scan of [min] on one that none is below. *)
Lemma fold_max_min_spec (x : float) (rest : list float) :
  Forall (fun y => is_nan y = false) (x :: rest) ->
  let hi := fold_left (fun m y => if (m <? y)%float then y else m) rest x in
  let lo := fold_left (fun m y => if (y <? m)%float then y else m) rest x in
  In hi (x :: rest) /\ In lo (x :: rest) /\
  Forall (fun y => (hi <? y)%float = false /\ (y <? lo)%float = false) (x :: rest).
Proof.
  intros Hall hi lo. unfold hi, lo.
  destruct (fold_max_greatest rest x Hall) as (Hin & Nhi & Hge).
  destruct (fold_min_least rest x Hall) as (Hin' & Nlo & Hle).
  split; [exact Hin|]. split; [exact Hin'|].
  apply Forall_forall. intros y Hy.
  assert (Ny : is_nan y = false) by (rewrite Forall_forall in Hall; now apply Hall).
  rewrite (ltb_rank _ y Nhi Ny), (ltb_rank y _ Ny Nlo).
  split; apply Z.ltb_ge; [apply Hge|apply Hle]; exact Hy.
Qed.

Lemma py_max_min_spec (x : float) (rest : list float) :
  Forall (fun y => is_nan y = false) (x :: rest) ->
  exists hi lo,
    py_max (x :: rest) = ret hi /\ py_min (x :: rest) = ret lo /\
    In hi (x :: rest) /\ In lo (x :: rest) /\
    Forall (fun y => (hi <? y)%float = false /\ (y <? lo)%float = false) (x :: rest).
Proof.
  intros Hall. eexists _, _. split; [reflexivity|]. split; [reflexivity|].
  exact (fold_max_min_spec x rest Hall).
Qed.

(** *** The byte codec *)

Lemma byte_of_Z_value (z : Z) : Z.of_N (Byte.to_N (byte_of_Z z)) = z mod 256.
Proof.
  unfold byte_of_Z.
  assert (Hr : 0 <= z mod 256 < 256) by (apply Z.mod_pos_bound; lia).
  destruct (Byte.of_N (Z.to_N (z mod 256))) as [b|] eqn:E.
  - apply Byte.to_of_N in E. rewrite E. apply Z2N.id. lia.
  - apply Byte.of_N_None_iff in E. lia.
Qed.

Lemma byte_value_bounded (b : Byte.byte) : 0 <= Z.of_N (Byte.to_N b) < 256.
Proof. pose proof (Byte.to_N_bounded b). lia. Qed.

Lemma byte_of_Z_of_byte (b : Byte.byte) : byte_of_Z (Z.of_N (Byte.to_N b)) = b.
Proof.
  unfold byte_of_Z. pose proof (byte_value_bounded b).
  rewrite Z.mod_small by lia. rewrite N2Z.id, Byte.of_to_N. reflexivity.
Qed.

Lemma be_uint_be32 (n : Z) : 0 <= n < 2 ^ 32 -> be_uint (be32 n) = n.
Proof.
  intros Hn. unfold be_uint, be32. cbn [fold_left].
  rewrite !byte_of_Z_value.
  change (2 ^ 24) with 16777216. change (2 ^ 16) with 65536. change (2 ^ 8) with 256.
  change (2 ^ 32) with 4294967296 in Hn.
  Z.to_euclidean_division_equations. lia.
Qed.

Lemma struct_unpack_pack (s f : Z) :
  0 <= s < 2 ^ 32 -> 0 <= f < 2 ^ 32 ->
  struct_unpack_II (struct_pack_II s f) = ret (s, f).
Proof.
  intros Hs Hf. unfold struct_unpack_II, struct_pack_II.
  change (List.length (be32 s ++ be32 f) =? 8)%nat with true. cbv iota.
  change (firstn 4 (be32 s ++ be32 f)) with (be32 s).
  change (skipn 4 (be32 s ++ be32 f)) with (be32 f).
  now rewrite !be_uint_be32.
Qed.

Lemma be_digits (v0 v1 v2 v3 : Z) :
  0 <= v0 < 256 -> 0 <= v1 < 256 -> 0 <= v2 < 256 -> 0 <= v3 < 256 ->
  let n := (((0 * 256 + v0) * 256 + v1) * 256 + v2) * 256 + v3 in
  0 <= n < 2 ^ 32 /\
  (n / 2 ^ 24) mod 256 = v0 /\ (n / 2 ^ 16) mod 256 = v1 /\
  (n / 2 ^ 8) mod 256 = v2 /\ n mod 256 = v3.
Proof.
  intros H0 H1 H2 H3 n. subst n.
  change (2 ^ 24) with 16777216. change (2 ^ 16) with 65536. change (2 ^ 8) with 256.
  change (2 ^ 32) with 4294967296.
  repeat split; try lia; Z.to_euclidean_division_equations; lia.
Qed.

Lemma byte_of_Z_mod (z : Z) : byte_of_Z (z mod 256) = byte_of_Z z.
Proof. unfold byte_of_Z. now rewrite Z.mod_mod by lia. Qed.

Lemma be32_be_uint (b0 b1 b2 b3 : Byte.byte) :
  0 <= be_uint [b0; b1; b2; b3] < 2 ^ 32 /\
  be32 (be_uint [b0; b1; b2; b3]) = [b0; b1; b2; b3].
Proof.
  unfold be_uint, be32. cbn [fold_left].
  destruct (be_digits _ _ _ _ (byte_value_bounded b0) (byte_value_bounded b1)
              (byte_value_bounded b2) (byte_value_bounded b3))
    as (R & E0 & E1 & E2 & E3).
  cbv zeta in R, E0, E1, E2, E3. split; [exact R|].
  rewrite <- (byte_of_Z_mod (_ / 2 ^ 24)), <- (byte_of_Z_mod (_ / 2 ^ 16)),
    <- (byte_of_Z_mod (_ / 2 ^ 8)), <- (byte_of_Z_mod (_ + _)).
  rewrite E0, E1, E2, E3. now rewrite !byte_of_Z_of_byte.
Qed.

(** Every buffer of 8 bytes is the encoding of one pair of unsigned
    32-bit integers. *)
Lemma eight_bytes_are_a_pair (b : list Byte.byte) :
  List.length b = 8%nat ->
  exists s f, 0 <= s < 2 ^ 32 /\ 0 <= f < 2 ^ 32 /\ b = struct_pack_II s f.
Proof.
  intros Hlen.
  destruct b as [|a0 b]; [discriminate|]. destruct b as [|a1 b]; [discriminate|].
  destruct b as [|a2 b]; [discriminate|]. destruct b as [|a3 b]; [discriminate|].
  destruct b as [|a4 b]; [discriminate|]. destruct b as [|a5 b]; [discriminate|].
  destruct b as [|a6 b]; [discriminate|]. destruct b as [|a7 b]; [discriminate|].
  destruct b; [|discriminate].
  destruct (be32_be_uint a0 a1 a2 a3) as [R1 P1].
  destruct (be32_be_uint a4 a5 a6 a7) as [R2 P2].
  exists (be_uint [a0; a1; a2; a3]), (be_uint [a4; a5; a6; a7]).
  split; [exact R1|]. split; [exact R2|].
  unfold struct_pack_II. rewrite P1, P2. reflexivity.
Qed.

Lemma slice_length {A} (i j : nat) (l : list A) :
  List.length (slice i j l) = (Nat.min j (List.length l) - i)%nat.
Proof. unfold slice. now rewrite length_skipn, length_firstn. Qed.

Lemma get_ntp_time_wrong_length (b : list Byte.byte) :
  List.length b <> 8%nat -> get_ntp_time b = raise Struct_error.
Proof.
  intros H. unfold get_ntp_time, struct_unpack_II.
  destruct (Nat.eqb_spec (List.length b) 8); [contradiction|reflexivity].
Qed.

Lemma get_ntp_time_eight_bytes (b : list Byte.byte) :
  List.length b = 8%nat -> exists t, get_ntp_time b = ret t.
Proof.
  intros H. unfold get_ntp_time, struct_unpack_II. rewrite H. cbn. eauto.
Qed.

(** C7: an input of fewer than 8 bytes makes [get_ntp_time] fail with
    the decoding error [struct.error]; no value is returned. *)
Theorem get_ntp_time_short_input (b : list Byte.byte) :
  (List.length b < 8)%nat -> get_ntp_time b = raise Struct_error.
Proof. intros H. apply get_ntp_time_wrong_length. lia. Qed.

Lemma get_ntp_time_short_input_witness :
  (List.length [Byte.x00; Byte.x01; Byte.x02] < 8)%nat /\
  get_ntp_time [Byte.x00; Byte.x01; Byte.x02] = raise Struct_error.
Proof.
  split; [cbn; lia|].
  apply (get_ntp_time_short_input [Byte.x00; Byte.x01; Byte.x02]). cbn; lia.
Defined.

(** C3: on the 8 bytes that hold [seconds] and then [fraction], both as
    big-endian unsigned 32-bit integers, [get_ntp_time] returns the float
    [(seconds - 2208988800) + fraction / 2**32]; being a function of its
    argument alone, it has no effect on the world. *)
Theorem get_ntp_time_decodes (seconds fraction : Z) :
  0 <= seconds < 2 ^ 32 -> 0 <= fraction < 2 ^ 32 ->
  get_ntp_time (struct_pack_II seconds fraction) =
  ret (float_of_int (seconds - 2208988800)
       + float_of_int fraction / float_of_int (2 ^ 32))%float.
Proof.
  intros Hs Hf. unfold get_ntp_time.
  rewrite (struct_unpack_pack _ _ Hs Hf). reflexivity.
Qed.

Lemma get_ntp_time_decodes_witness :
  get_ntp_time (struct_pack_II 3913056000 2147483648) = ret 1704067200.5%float.
Proof.
  rewrite (get_ntp_time_decodes 3913056000 2147483648); [reflexivity| |];
    split; (discriminate || reflexivity).
Defined.

(** *** The timestamp codec against exact arithmetic *)

(** C8, as stated, fails: the seconds of a current timestamp take 31
    bits of the 53-bit mantissa, so a fraction of 2 / 2^32 is rounded
    away whole. *)
Lemma codec_round_trip_not_2_32 : ~ codec_round_trip_within (1 # 2 ^ 32).
Proof.
  intros H.
  destruct (H 3900000000 2) as (x & Hx & v & Hv & Hb); [split; reflexivity || discriminate ..|].
  vm_compute in Hx. injection Hx as <-.
  vm_compute in Hv. injection Hv as <-.
  apply Qle_bool_iff in Hb. vm_compute in Hb. discriminate Hb.
Qed.

(** The bound below is reached: at [seconds = 0], [fraction = 1024] the
    decoded value is off by exactly 2^-22. *)
Lemma codec_round_trip_tight : ~ codec_round_trip_within (1 # 2 ^ 23).
Proof.
  intros H.
  destruct (H 0 1024) as (x & Hx & v & Hv & Hb); [split; reflexivity || discriminate ..|].
  vm_compute in Hx. injection Hx as <-.
  vm_compute in Hv. injection Hv as <-.
  apply Qle_bool_iff in Hb. vm_compute in Hb. discriminate Hb.
Qed.

(** C8, amended: for all [seconds] and [fraction] below 2^32, encoding
    the pair as two big-endian 32-bit integers and decoding the 8 bytes
    with [get_ntp_time] yields a finite float within 2^-22 of
    [(seconds - 2208988800) + fraction / 2^32]: both terms are exact and
    their sum is rounded once, to 53 bits. *)
Theorem codec_round_trip_bound : codec_round_trip_within (1 # 2 ^ 22).
Proof.
  intros s f Hs Hf. unfold get_ntp_time.
  rewrite (struct_unpack_pack _ _ Hs Hf). cbn [bind ret int_truediv].
  change (2 ^ 32 =? 0) with false. cbv iota.
  eexists. split; [reflexivity|].
  change (2 ^ 32) with 4294967296 in Hs, Hf.
  set (a := s - NTP_DELTA).
  assert (Ha : -2208988800 <= a < 2085978496) by (unfold a, NTP_DELTA; lia).
  assert (Hux : SFunits (Prim2SF (float_of_int a)) = Some (a * 2 ^ 1074)).
  { apply float_of_int_units. change (2 ^ 53) with 9007199254740992. lia. }
  assert (Huy := fraction_units f ltac:(change (2 ^ 32) with 4294967296; lia)).
  assert (Hsum : a * 2 ^ 1074 + f * 2 ^ 1042 = (a * 4294967296 + f) * 2 ^ 1042).
  { change (2 ^ 1074) with (4294967296 * 2 ^ 1042). ring. }
  assert (HQ : 0 < 2 ^ 1042) by (apply Z.pow_pos_nonneg; lia).
  destruct (SFadd_units _ _ _ _ 1106 Hux Huy ltac:(lia)) as (u & Hu & Herr).
  { rewrite Hsum. destruct (Z.eq_dec (a * 4294967296 + f) 0) as [H0|Hne].
    - left. rewrite H0. reflexivity.
    - right. rewrite Z.abs_mul, (Z.abs_eq (2 ^ 1042)) by lia.
      change (2 ^ 52) with (2 ^ 52 * 1).
      change (2 ^ 1106) with (18446744073709551616 * 2 ^ 1042).
      assert (1 <= Z.abs (a * 4294967296 + f) < 18446744073709551616) by lia.
      assert (2 ^ 52 <= 2 ^ 1042) by (apply Z.pow_le_mono_r; lia).
      nia. }
  rewrite <- div_spec, <- add_spec in Hu.
  apply (within_of_units _ u (a * 2 ^ 1074 + f * 2 ^ 1042)).
  - exact Hu.
  - apply unix_seconds_units.
  - change (1106 - 53) with 1053 in Herr.
    assert (Hle : Z.abs (u - (a * 2 ^ 1074 + f * 2 ^ 1042)) <= 2 ^ 1052).
    { change (2 ^ 1053) with (2 * 2 ^ 1052) in Herr. lia. }
    rewrite Zle_Qle in Hle. eapply Qle_trans; [exact Hle|].
    apply Qle_bool_imp_le. vm_compute. reflexivity.
Qed.

Lemma codec_round_trip_bound_witness :
  exists x, get_ntp_time (struct_pack_II 3900000000 2) = ret x /\
            within (1 # 2 ^ 22) x (unix_seconds 3900000000 2).
Proof.
  apply (codec_round_trip_bound 3900000000 2); split; reflexivity || discriminate.
Defined.

(** *** Offset and delay *)

(** C2, as stated, fails at its own example: on the binary64 values of
    1000.0, 1000.5, 1000.6 and 1000.2 the results are not the floats 0.45
    and 0.1. *)
Lemma known_values_are_not_exact :
  offset_delay 1000.0 1000.5 1000.6 1000.2 <> ret {| offset := 0.45; delay := 0.1 |}.
Proof.
  intros H.
  apply (f_equal (fun r => match r with
                           | inr s => (delay s =? 0.1)%float
                           | inl _ => true
                           end)) in H.
  vm_compute in H. discriminate H.
Qed.

(** C2, amended: for all four timestamps the result is
    [delay = (t4 - t1) - (t3 - t2)] and [offset = ((t2 - t1) + (t3 - t4)) / 2],
    each operation rounded to binary64; at 1000.0, 1000.5, 1000.6, 1000.2
    this gives [delay = 0.10000000000002274] and
    [offset = 0.44999999999998863], within 10^-13 of 0.1 and of 0.45. *)
Theorem offset_delay_formula :
  (forall t1 t2 t3 t4,
     offset_delay t1 t2 t3 t4 =
     ret {| offset := ((t2 - t1) + (t3 - t4)) / 2;
            delay := (t4 - t1) - (t3 - t2) |}%float) /\
  offset_delay 1000.0 1000.5 1000.6 1000.2 =
    ret {| offset := 0.44999999999998863; delay := 0.10000000000002274 |} /\
  within (1 # 10 ^ 13) 0.10000000000002274 (1 # 10) /\
  within (1 # 10 ^ 13) 0.44999999999998863 (45 # 100).
Proof.
  split; [reflexivity|]. split; [reflexivity|].
  split; (eexists; split; [vm_compute; reflexivity|]);
    apply Qle_bool_imp_le; vm_compute; reflexivity.
Qed.

(** *** The poll loop *)

Lemma recvfrom_short (env : exchange_env) (data : list Byte.byte) (w : world) :
  recvfrom_outcome env = inr data -> (List.length data <= BUF_SIZE)%nat ->
  recvfrom BUF_SIZE env w = (inr data, w).
Proof.
  intros H L. unfold recvfrom, lift. rewrite H. cbn [bind ret].
  now rewrite firstn_all2.
Qed.

(** What [exchange] does once the request has left and a reply of at
    most [BUF_SIZE] bytes is in. *)
Lemma exchange_on_reply ts seq env w data :
  sendto_outcome env = None -> recvfrom_outcome env = inr data ->
  (List.length data <= BUF_SIZE)%nat ->
  exchange ts seq env w =
  (match data with
   | [] => mret tt
   | _ :: _ =>
       t2 <- lift (get_ntp_time (slice 32 40 data)) ;;
       t3 <- lift (get_ntp_time (slice 40 48 data)) ;;
       s <- lift (offset_delay (time_send env) t2 t3 (time_recv env)) ;;
       results_append s ;;;
       lift (time_localtime (time_recv env) (localtime_refusal env)) ;;;
       print (Progress seq (time_recv env) (offset s) (delay s))
   end)%M {| results := results w; trace := trace w ++ [Sendto msg ts PORT] |}.
Proof.
  intros Hs Hr Hl. unfold exchange, sendto. rewrite Hs.
  unfold mbind at 1. cbn [emit].
  unfold mbind at 1. rewrite (recvfrom_short _ _ _ Hr Hl). reflexivity.
Qed.

Lemma sleepable_valid (x : float) : sleepable x = true -> (0 <=? x)%float = true.
Proof. unfold sleepable. now intros [H _]%andb_true_iff. Qed.

(** A float that is at least zero is neither NaN nor below zero. *)
Lemma not_below_zero (x : float) :
  (0 <=? x)%float = true -> is_nan x = false /\ (x <? 0)%float = false.
Proof.
  rewrite is_nan_spec, FloatAxioms.ltb_spec, leb_spec.
  change (Prim2SF 0) with (S754_zero false).
  destruct (Prim2SF x) as [[]|[]| |[] m e]; cbn; try discriminate; now split.
Qed.

(** [time.sleep] takes every length up to 10^9 seconds and refuses
    every NaN and every negative length down to -10^9 seconds, whatever
    the platform. *)
Lemma time_sleep_sleepable (seconds : float) (platform : option refusal) :
  sleepable seconds = true -> time_sleep seconds platform = ret tt.
Proof.
  intros Hs. unfold time_sleep. rewrite Hs.
  destruct (not_below_zero _ (sleepable_valid _ Hs)) as [Hn Hl].
  unfold unsleepable. now rewrite Hn, Hl.
Qed.

Lemma time_sleep_unsleepable (seconds : float) (platform : option refusal) :
  unsleepable seconds = true -> time_sleep seconds platform = raise Value_error.
Proof. intros Hs. unfold time_sleep. now rewrite Hs. Qed.

Lemma time_sleep_raises (seconds : float) (platform : option refusal) (e : exn) :
  time_sleep seconds platform = inl e -> e <> Keyboard_interrupt.
Proof.
  unfold time_sleep.
  destruct (unsleepable seconds); [now intros [= <-]|].
  destruct (sleepable seconds); [discriminate|].
  destruct (9300000000 <=? abs seconds)%float; [now intros [= <-]|].
  destruct platform as [[| |n]|]; cbn; try (now intros [= <-]).
  destruct (seconds <? 0)%float; [now intros [= <-]|discriminate].
Qed.


Lemma time_localtime_raises (t : float) (platform : option refusal) (e : exn) :
  time_localtime t platform = inl e ->
  displayable t = false /\
  e <> Keyboard_interrupt /\ e <> Socket_timeout /\ e <> Socket_gaierror /\
  e <> Struct_error.
Proof.
  unfold time_localtime.
  destruct (displayable t) eqn:Hd.
  { apply andb_true_iff in Hd. destruct Hd as [Hd _].
    destruct (not_below_zero _ Hd) as [-> _]. discriminate. }
  intros H. split; [reflexivity|].
  destruct (is_nan t); [injection H as <-; repeat split; discriminate|].
  destruct (9300000000000000000 <=? abs t)%float;
    [injection H as <-; repeat split; discriminate|].
  destruct (68000000000000000 <=? abs t)%float, platform as [[| |n]|];
    cbn in H; try discriminate; injection H as <-; repeat split; discriminate.
Qed.

Lemma sleep_sleepable (seconds : float) (i : bool) (platform : option refusal) (w : world) :
  sleepable seconds = true ->
  sleep seconds i platform w =
  if i then (inl Keyboard_interrupt, w)
  else (inr tt, {| results := results w; trace := trace w ++ [Sleep seconds] |}).
Proof.
  intros Hs. unfold sleep. rewrite (time_sleep_sleepable _ _ Hs). now destruct i.
Qed.

Lemma sleep_keeps_results (seconds : float) (interrupted : bool)
  (platform : option refusal) (w : world) :
  results (snd (sleep seconds interrupted platform w)) = results w.
Proof.
  unfold sleep. now destruct (time_sleep seconds platform), interrupted.
Qed.


Lemma offset_delay_returns (t1 t2 t3 t4 : float) :
  exists s, offset_delay t1 t2 t3 t4 = ret s.
Proof. eexists. reflexivity. Qed.

Lemma get_ntp_time_raises_struct_error (b : list Byte.byte) (e : exn) :
  get_ntp_time b = inl e -> e = Struct_error.
Proof.
  unfold get_ntp_time, struct_unpack_II.
  destruct (_ =? 8)%nat; cbn; [discriminate|]. now intros [= <-].
Qed.

(** [sample_of] computes [complete_sample]. *)
Lemma sample_of_complete (env : exchange_env) (s : sample) :
  sample_of env = Some s <-> complete_sample env s.
Proof.
  unfold sample_of, complete_sample. split.
  - destruct (sendto_outcome env); [discriminate|].
    destruct (recvfrom_outcome env) as [e|data]; [discriminate|].
    cbv zeta.
    destruct (get_ntp_time (slice 32 40 (firstn BUF_SIZE data))) as [e2|t2] eqn:H2;
      [discriminate|].
    destruct (get_ntp_time (slice 40 48 (firstn BUF_SIZE data))) as [e3|t3] eqn:H3;
      [discriminate|].
    cbn [bind].
    destruct (offset_delay (time_send env) t2 t3 (time_recv env)) as [e4|s'] eqn:H4;
      [discriminate|].
    intros [= <-]. split; [reflexivity|]. now exists data, t2, t3.
  - intros (-> & data & t2 & t3 & -> & H2 & H3 & H4).
    cbv zeta. rewrite H2, H3. cbn [bind ret]. now rewrite H4.
Qed.

(** The body of the [try], step by step: what it has done when it
    ends, and how it ends. *)
Lemma exchange_steps ts seq env w :
  exchange ts seq env w =
  match sendto_outcome env with
  | Some e => (inl e, w)
  | None =>
      let w1 := {| results := results w; trace := trace w ++ [Sendto msg ts PORT] |} in
      match recvfrom_outcome env with
      | inl e => (inl e, w1)
      | inr data =>
          match firstn BUF_SIZE data with
          | [] => (inr tt, w1)
          | _ :: _ =>
              match sample_of env with
              | None => (inl Struct_error, w1)
              | Some s =>
                  let w2 := {| results := results w ++ [s]; trace := trace w1 |} in
                  match time_localtime (time_recv env) (localtime_refusal env) with
                  | inl e => (inl e, w2)
                  | inr _ =>
                      (inr tt,
                       {| results := results w ++ [s];
                          trace := trace w1 ++
                            [Print (Progress seq (time_recv env) (offset s) (delay s))] |})
                  end
              end
          end
      end
  end.
Proof.
  unfold exchange, sendto, recvfrom, sample_of.
  destruct (sendto_outcome env) as [e0|]; [reflexivity|].
  destruct (recvfrom_outcome env) as [e1|data0]; [reflexivity|].
  unfold mbind at 1. unfold emit at 1. unfold mbind at 1. unfold lift at 1.
  cbn [bind ret]. cbv zeta.
  destruct (firstn BUF_SIZE data0) as [|b data]; [reflexivity|].
  unfold mbind at 1. unfold lift at 1.
  destruct (get_ntp_time (slice 32 40 (b :: data))) as [e2|t2] eqn:H2.
  { apply get_ntp_time_raises_struct_error in H2. now subst. }
  unfold mbind at 1. unfold lift at 1.
  destruct (get_ntp_time (slice 40 48 (b :: data))) as [e3|t3] eqn:H3.
  { apply get_ntp_time_raises_struct_error in H3. now subst. }
  cbn [bind].
  unfold mbind at 1. unfold lift at 1.
  destruct (offset_delay_returns (time_send env) t2 t3 (time_recv env)) as [s ->].
  unfold ret. unfold mbind at 1. unfold results_append at 1.
  unfold mbind at 1. unfold lift at 1. cbn [results trace].
  destruct (time_localtime (time_recv env) (localtime_refusal env)) as [e|[]];
    reflexivity.
Qed.

Lemma shown_samples_app (a b : list event) :
  shown_samples (a ++ b) = shown_samples a ++ shown_samples b.
Proof.
  induction a as [|ev a IH]; [reflexivity|].
  destruct ev as [l| | |]; cbn [app shown_samples]; try exact IH.
  destruct l; cbn; try exact IH. now rewrite IH.
Qed.

Lemma shown_sequences_app (a b : list event) :
  shown_sequences (a ++ b) = shown_sequences a ++ shown_sequences b.
Proof.
  induction a as [|ev a IH]; [reflexivity|].
  destruct ev as [l| | |]; cbn [app shown_sequences]; try exact IH.
  destruct l; cbn; try exact IH; now rewrite IH.
Qed.

(** What one run of the body of the [try] does.  [results] grows by the
    sample of the turn, if it has one; the progress line shows that very
    sample, and is there whenever the clock reading can be displayed. *)
Lemma exchange_effect ts seq env w r w1 :
  exchange ts seq env w = (r, w1) ->
  exists tr,
    trace w1 = trace w ++ tr /\
    results w1 = results w ++ recorded_in env /\
    (displayable (time_recv env) = true -> shown_samples tr = recorded_in env) /\
    ((r = inr tt /\
      exists s, tr = [Sendto msg ts PORT;
                      Print (Progress seq (time_recv env) (offset s) (delay s))]) \/
     ((tr = [] \/ tr = [Sendto msg ts PORT]) /\
      (r = inr tt \/
       exists e, r = inl e /\ (e = Keyboard_interrupt -> interrupted env = true)))).
Proof.
  rewrite exchange_steps. unfold recorded_in, interrupted, sample_of.
  destruct (sendto_outcome env) as [e0|] eqn:Hs.
  { intros [= <- <-]. exists []. rewrite !app_nil_r. repeat split.
    right. split; [now left|]. right. exists e0. split; [reflexivity|]. now intros ->. }
  cbv zeta.
  destruct (recvfrom_outcome env) as [e1|data0] eqn:Hr.
  { intros [= <- <-]. exists [Sendto msg ts PORT]. cbn [results trace].
    rewrite app_nil_r. repeat split.
    right. split; [now right|]. right. exists e1. split; [reflexivity|].
    intros ->. cbn. now rewrite ?orb_true_r. }
  destruct (firstn BUF_SIZE data0) as [|b data] eqn:Hd.
  { intros [= <- <-]. exists [Sendto msg ts PORT]. cbn [results trace].
    rewrite app_nil_r. repeat split. right. split; [now right|now left]. }
  destruct (bind (get_ntp_time (slice 32 40 (b :: data))) _) as [e|s] eqn:Hsm.
  { intros [= <- <-]. exists [Sendto msg ts PORT]. cbn [results trace].
    rewrite app_nil_r. repeat split. right. split; [now right|]. right.
    exists Struct_error. split; [reflexivity|discriminate]. }
  destruct (time_localtime (time_recv env) (localtime_refusal env)) as [e|[]] eqn:Hlt.
  - intros [= <- <-]. exists [Sendto msg ts PORT]. cbn [results trace].
    destruct (time_localtime_raises _ _ _ Hlt) as (Hnd & Hki & _).
    repeat split.
    + intros Hdisp. congruence.
    + right. split; [now right|]. right. exists e. split; [reflexivity|].
      intros ->. contradiction.
  - intros [= <- <-].
    exists [Sendto msg ts PORT; Print (Progress seq (time_recv env) (offset s) (delay s))].
    cbn [results trace]. rewrite <- app_assoc. destruct s as [o d].
    repeat split. left. split; [reflexivity|]. now exists {| offset := o; delay := d |}.
Qed.

(** What a handler that takes the exception does. *)
Lemma handlers_effect ts seq env e h (w : world) :
  handlers ts seq env e = Some h ->
  e <> Keyboard_interrupt /\
  results (snd (h w)) = results w /\
  ((fst (h w) = inr tt /\ trace (snd (h w)) = trace w ++ notice ts seq e) \/
   (fst (h w) = inl Keyboard_interrupt /\ e = Socket_gaierror /\
    cooldown_interrupted env = true /\
    trace (snd (h w)) = trace w ++ [Print (Could_not_resolve seq ts)])).
Proof.
  unfold handlers. intros H.
  destruct e; cbn -[sleep] in H; inversion H; subst; clear H;
    (split; [discriminate|]); (split; [try reflexivity|]); try (left; split; reflexivity).
  - unfold mbind, print, emit. cbn -[sleep]. now rewrite sleep_keeps_results.
  - unfold mbind, print, emit. rewrite sleep_sleepable by reflexivity.
    destruct (cooldown_interrupted env); cbn.
    + right. repeat split.
    + left. split; [reflexivity|]. now rewrite <- app_assoc.
Qed.

Lemma handlers_none ts seq env e :
  handlers ts seq env e = None -> e = Keyboard_interrupt.
Proof. unfold handlers. destruct e; cbn; congruence. Qed.

Lemma sleep_effect (seconds : float) (i : bool) (platform : option refusal) (w : world) :
  results (snd (sleep seconds i platform w)) = results w /\
  exists tr, trace (snd (sleep seconds i platform w)) = trace w ++ tr /\
    shown_samples tr = [] /\ shown_sequences tr = [] /\
    (forall ts, Forall (turn_event ts) tr) /\
    (sleepable seconds = true ->
     if i then fst (sleep seconds i platform w) = inl Keyboard_interrupt /\ tr = []
     else fst (sleep seconds i platform w) = inr tt /\ tr = [Sleep seconds]) /\
    (unsleepable seconds = true ->
     fst (sleep seconds i platform w) = inl Value_error /\ tr = []) /\
    (fst (sleep seconds i platform w) = inl Keyboard_interrupt -> i = true).
Proof.
  split; [apply sleep_keeps_results|]. unfold sleep.
  destruct (time_sleep seconds platform) as [e|[]] eqn:Hts.
  - exists []. cbn. rewrite app_nil_r.
    split; [reflexivity|]. split; [reflexivity|]. split; [reflexivity|].
    split; [constructor|]. split; [|split].
    + intros Hs. rewrite (time_sleep_sleepable _ _ Hs) in Hts. discriminate.
    + intros Hs. rewrite (time_sleep_unsleepable _ _ Hs) in Hts.
      unfold raise in *. split; [congruence|reflexivity].
    + intros [= ->]. now apply time_sleep_raises in Hts.
  - destruct i; cbn; [exists []|exists [Sleep seconds]]; rewrite ?app_nil_r;
      repeat split; intros; repeat constructor;
      try (rewrite time_sleep_unsleepable in Hts by assumption; discriminate);
      try discriminate.
Qed.

Lemma notice_shows ts seq e :
  shown_samples (notice ts seq e) = [] /\ shown_sequences (notice ts seq e) = [seq] /\
  Forall (turn_event ts) (notice ts seq e).
Proof. destruct e; repeat split; repeat constructor. Qed.

(** One turn of the loop, seen from outside. *)
Lemma iteration_effect ts interval seq env w :
  exists tr,
    trace (snd (iteration ts interval seq env w)) = trace w ++ tr /\
    results (snd (iteration ts interval seq env w)) = results w ++ recorded_in env /\
    (displayable (time_recv env) = true -> shown_samples tr = recorded_in env) /\
    (shown_sequences tr = [] \/ shown_sequences tr = [seq]) /\
    Forall (turn_event ts) tr /\
    (sleepable interval = true ->
     fst (iteration ts interval seq env w) = inr tt \/
     fst (iteration ts interval seq env w) = inl Keyboard_interrupt) /\
    (unsleepable interval = true -> interrupted env = false ->
     fst (iteration ts interval seq env w) = inl Value_error) /\
    (fst (iteration ts interval seq env w) = inl Keyboard_interrupt ->
     interrupted env = true).
Proof.
  set (p := sleep_refusal env).
  assert (Hsl : forall w1 tr1,
             trace w1 = trace w ++ tr1 ->
             results w1 = results w ++ recorded_in env ->
             (displayable (time_recv env) = true -> shown_samples tr1 = recorded_in env) ->
             (shown_sequences tr1 = [] \/ shown_sequences tr1 = [seq]) ->
             Forall (turn_event ts) tr1 ->
             exists tr,
               trace (snd (sleep interval (sleep_interrupted env) p w1)) = trace w ++ tr /\
               results (snd (sleep interval (sleep_interrupted env) p w1))
               = results w ++ recorded_in env /\
               (displayable (time_recv env) = true -> shown_samples tr = recorded_in env) /\
               (shown_sequences tr = [] \/ shown_sequences tr = [seq]) /\
               Forall (turn_event ts) tr /\
               (sleepable interval = true ->
                fst (sleep interval (sleep_interrupted env) p w1) = inr tt \/
                fst (sleep interval (sleep_interrupted env) p w1) = inl Keyboard_interrupt) /\
               (unsleepable interval = true -> interrupted env = false ->
                fst (sleep interval (sleep_interrupted env) p w1) = inl Value_error) /\
               (fst (sleep interval (sleep_interrupted env) p w1) = inl Keyboard_interrupt ->
                interrupted env = true)).
  { intros w1 tr1 Ht Hr Hsh Hq Hev.
    destruct (sleep_effect interval (sleep_interrupted env) p w1)
      as (Hres & tr2 & Htr & Hss & Hsq & Hev2 & Hok & Hbad & Hki).
    specialize (Hev2 ts).
    exists (tr1 ++ tr2). rewrite Htr, Ht, Hres, Hr, app_assoc.
    rewrite shown_samples_app, shown_sequences_app, Hss, Hsq, !app_nil_r.
    repeat split; try assumption.
    - apply Forall_app. now split.
    - intros Hv. specialize (Hok Hv).
      destruct (sleep_interrupted env); destruct Hok as [Hok _]; [right|left]; exact Hok.
    - intros Hv _. apply (Hbad Hv).
    - intros Hk. unfold interrupted. rewrite (Hki Hk). apply orb_true_r. }
  unfold iteration. unfold mbind. unfold try_except. fold p.
  destruct (exchange ts seq env w) as [r w1] eqn:Hx.
  destruct (exchange_effect _ _ _ _ _ _ Hx) as (tr1 & Ht & Hr & Hsh & Hcase).
  destruct Hcase as [[-> [s ->]]|[Hq Hres]].
  { apply (Hsl w1 _ Ht Hr Hsh); [now right|]. repeat constructor. }
  assert (Hq1 : shown_samples tr1 = [] /\ shown_sequences tr1 = [] /\
                Forall (turn_event ts) tr1)
    by (destruct Hq as [-> | ->]; repeat split; repeat constructor).
  destruct Hq1 as (Hq1 & Hq2 & Hq3).
  destruct Hres as [-> | (e & -> & Hki)].
  { apply (Hsl w1 _ Ht Hr Hsh); [now left|assumption]. }
  destruct (handlers ts seq env e) as [h|] eqn:Hh.
  - destruct (handlers_effect _ _ _ _ _ w1 Hh) as (Hne & Hkeep & Hh').
    destruct (h w1) as [rh w2] eqn:Hhw. cbn [fst snd] in Hkeep, Hh'.
    destruct Hh' as [[-> Htr]|(-> & -> & Hcd & Htr)].
    + destruct (notice_shows ts seq e) as (N1 & N2 & N3).
      apply (Hsl w2 (tr1 ++ notice ts seq e)).
      * rewrite Htr, Ht. symmetry. apply app_assoc.
      * now rewrite Hkeep, Hr.
      * intros Hd. now rewrite shown_samples_app, N1, app_nil_r, (Hsh Hd).
      * right. now rewrite shown_sequences_app, Hq2, N2.
      * apply Forall_app. now split.
    + cbn [fst snd]. exists (tr1 ++ [Print (Could_not_resolve seq ts)]).
      rewrite Htr, Ht, Hkeep, Hr, app_assoc, shown_samples_app, shown_sequences_app, Hq2.
      cbn [shown_samples shown_sequences app]. rewrite app_nil_r. repeat split.
      * assumption.
      * now right.
      * apply Forall_app. split; [assumption|]. repeat constructor.
      * intros _. now right.
      * intros _ Hni. unfold interrupted in Hni. rewrite Hcd in Hni.
        rewrite orb_true_r in Hni. cbn in Hni. discriminate.
      * intros _. unfold interrupted. rewrite Hcd. now rewrite orb_true_r.
  - apply handlers_none in Hh. subst e. cbn [fst snd]. exists tr1.
    rewrite Ht, Hr, Hq2. repeat split.
    + assumption.
    + now left.
    + assumption.
    + intros _. now right.
    + intros _ Hni. rewrite (Hki eq_refl) in Hni. discriminate.
    + intros _. now apply Hki.
Qed.

(** How a turn ends depends on the interval and on its environment only. *)
Lemma iteration_result ts interval seq env w :
  fst (iteration ts interval seq env w) = turn_result interval env.
Proof.
  unfold turn_result, iteration, try_except. unfold mbind. rewrite !exchange_steps.
  assert (Hsl : forall w1 w2,
             fst (sleep interval (sleep_interrupted env) (sleep_refusal env) w1) =
             fst (sleep interval (sleep_interrupted env) (sleep_refusal env) w2)).
  { intros w1 w2. unfold sleep.
    now destruct (time_sleep interval (sleep_refusal env)), (sleep_interrupted env). }
  assert (Hh : forall e w1 w2,
             fst (let (r, w') := match handlers ts seq env e with
                                 | Some h => h w1
                                 | None => (inl e, w1)
                                 end in
                  match r with
                  | inl e' => (inl e', w')
                  | inr _ => sleep interval (sleep_interrupted env) (sleep_refusal env) w'
                  end) =
             fst (let (r, w') := match handlers EmptyString 0 env e with
                                 | Some h => h w2
                                 | None => (inl e, w2)
                                 end in
                  match r with
                  | inl e' => (inl e', w')
                  | inr _ => sleep interval (sleep_interrupted env) (sleep_refusal env) w'
                  end)).
  { intros e w1 w2.
    destruct e; cbn [handlers is_Exception]; unfold print, emit, mbind;
      try apply Hsl; try reflexivity.
    rewrite !sleep_sleepable by reflexivity.
    destruct (cooldown_interrupted env); [reflexivity|apply Hsl]. }
  destruct (sendto_outcome env) as [e0|]; [apply Hh|]. cbv zeta.
  destruct (recvfrom_outcome env) as [e1|data]; [apply Hh|].
  destruct (firstn BUF_SIZE data); [apply Hsl|].
  destruct (sample_of env) as [s|]; [|apply Hh].
  destruct (time_localtime (time_recv env) (localtime_refusal env)) as [e|[]];
    [apply Hh|apply Hsl].
Qed.

Lemma turns_taken_bound interval envs :
  (turns_taken interval envs <= List.length envs)%nat.
Proof.
  induction envs as [|env envs IH]; cbn [turns_taken List.length]; [lia|].
  destruct (turn_result interval env); lia.
Qed.

(** The loop, seen from outside: what it adds to the trace and to
    [results], turn after turn. *)
Lemma poll_loop_effect ts interval envs :
  forall seq w,
  exists tr,
    trace (snd (poll_loop ts interval seq envs w)) = trace w ++ tr /\
    results (snd (poll_loop ts interval seq envs w)) =
      results w ++ recorded (firstn (turns_taken interval envs) envs) /\
    (Forall (fun env => displayable (time_recv env) = true) envs ->
     shown_samples tr = recorded (firstn (turns_taken interval envs) envs)) /\
    StronglySorted Z.lt (shown_sequences tr) /\
    Forall (fun n => seq < n <= seq + Z.of_nat (List.length envs)) (shown_sequences tr) /\
    Forall (turn_event ts) tr /\
    (sleepable interval = true ->
     fst (poll_loop ts interval seq envs w) = inr tt \/
     fst (poll_loop ts interval seq envs w) = inl Keyboard_interrupt) /\
    (fst (poll_loop ts interval seq envs w) = inl Keyboard_interrupt ->
     existsb interrupted envs = true) /\
    (fst (poll_loop ts interval seq envs w) = inr tt ->
     turns_taken interval envs = List.length envs).
Proof.
  induction envs as [|env envs IH]; intros seq w; cbn [poll_loop turns_taken].
  - exists []. cbn. rewrite !app_nil_r. repeat split; try (constructor; fail).
    + intros _. now left.
    + discriminate.
  - unfold mbind.
    destruct (iteration_effect ts interval (seq + 1) env w)
      as (tr1 & Ht & Hr & Hsh & Hq & Hev & Hok & _ & Hki).
    rewrite <- (iteration_result ts interval (seq + 1) env w).
    destruct (iteration ts interval (seq + 1) env w) as [[e|[]] w1]; cbn [fst snd] in *.
    + exists tr1. cbn [firstn recorded flat_map]. rewrite app_nil_r.
      repeat split; try assumption.
      * intros Hall. apply Hsh. now inversion Hall.
      * destruct Hq as [-> | ->]; repeat constructor.
      * cbn [List.length]. destruct Hq as [-> | ->]; constructor; [lia|constructor].
      * intros [= ->]. cbn [existsb]. now rewrite (Hki eq_refl).
      * discriminate.
    + destruct (IH (seq + 1) w1)
        as (tr2 & Ht2 & Hr2 & Hsh2 & Hs2 & Hb2 & Hev2 & Hok2 & Hki2 & Hn2).
      exists (tr1 ++ tr2). cbn [firstn recorded flat_map]. fold (recorded (firstn (turns_taken interval envs) envs)).
      rewrite Ht2, Hr2, Ht, Hr, shown_samples_app, shown_sequences_app, <- !app_assoc.
      repeat split; try assumption.
      * intros Hall. inversion Hall; subst. rewrite Hsh, Hsh2 by assumption. reflexivity.
      * destruct Hq as [-> | ->]; cbn [app]; [assumption|].
        constructor; [assumption|]. eapply Forall_impl; [|exact Hb2]. cbn. lia.
      * cbn [List.length]. apply Forall_app. split.
        -- destruct Hq as [-> | ->]; constructor; [lia|constructor].
        -- eapply Forall_impl; [|exact Hb2]. cbn beta. lia.
      * apply Forall_app. now split.
      * intros Hk. cbn [existsb]. rewrite (Hki2 Hk). apply orb_true_r.
      * intros Hk. cbn [List.length]. now rewrite (Hn2 Hk).
Qed.

(** C10: when the reply datagram is empty the turn does nothing but
    send the request and sleep for the interval (one that [time.sleep]
    is sure to take, and with no Ctrl-C on the way): [results] is
    unchanged, nothing is printed (no progress line, no notice of any
    error), and no exception leaves the turn. *)
Theorem zero_byte_reply_is_skipped ts interval seq env w :
  sendto_outcome env = None -> recvfrom_outcome env = inr [] ->
  sleepable interval = true -> sleep_interrupted env = false ->
  iteration ts interval seq env w =
  (inr tt, {| results := results w;
              trace := trace w ++ [Sendto msg ts PORT; Sleep interval] |}).
Proof.
  intros Hs Hr Hv Hi. unfold iteration, try_except, mbind.
  rewrite (exchange_on_reply ts seq env w [] Hs Hr) by (cbn; lia).
  cbn [mret]. rewrite (sleep_sleepable _ _ _ _ Hv), Hi. cbn [results trace].
  now rewrite <- app_assoc.
Qed.

Lemma zero_byte_reply_is_skipped_witness :
  iteration "ntp.nict.jp"%string 1 7
    {| time_send := 1000; sendto_outcome := None; recvfrom_outcome := inr [];
       time_recv := 1000.25; localtime_refusal := None;
       cooldown_interrupted := false; sleep_refusal := None;
       sleep_interrupted := false |} initial_world =
  (inr tt, {| results := [];
              trace := [Sendto msg "ntp.nict.jp"%string PORT; Sleep 1] |}).
Proof.
  apply (zero_byte_reply_is_skipped "ntp.nict.jp"%string 1 7
           {| time_send := 1000; sendto_outcome := None; recvfrom_outcome := inr [];
              time_recv := 1000.25; localtime_refusal := None;
              cooldown_interrupted := false; sleep_refusal := None;
              sleep_interrupted := false |} initial_world); reflexivity.
Defined.






(** X1: along any run of the loop [results] grows by exactly the
    samples of the complete exchanges of the turns taken, in turn order:
    one for each such turn, whether or not its progress line could be
    printed, and nothing else. *)
Theorem poll_loop_records_complete_samples ts interval envs seq w :
  results (snd (poll_loop ts interval seq envs w)) =
    results w ++ recorded (firstn (turns_taken interval envs) envs) /\
  (turns_taken interval envs <= List.length envs)%nat /\
  (fst (poll_loop ts interval seq envs w) = inr tt ->
   turns_taken interval envs = List.length envs) /\
  (forall env s, In s (recorded_in env) <-> complete_sample env s).
Proof.
  destruct (poll_loop_effect ts interval envs seq w)
    as (tr & _ & Hr & _ & _ & _ & _ & _ & _ & Hn).
  split; [exact Hr|]. split; [apply turns_taken_bound|]. split; [exact Hn|].
  intros env s. rewrite <- sample_of_complete. unfold recorded_in.
  destruct (sample_of env) as [s'|]; cbn; split.
  - intros [->|[]]. reflexivity.
  - intros [= ->]. now left.
  - intros [].
  - discriminate.
Qed.

(** C1, as stated, fails on the empty reply: the body of the [try]
    ends normally, so no error condition of any kind arises. *)
Lemma empty_reply_raises_nothing : ~ short_reply_always_raises.
Proof.
  intros H.
  destruct (H "ntp.nict.jp"%string 1
              {| time_send := 1000; sendto_outcome := None;
                 recvfrom_outcome := inr []; time_recv := 1000.25;
                 localtime_refusal := None; cooldown_interrupted := false;
                 sleep_refusal := None; sleep_interrupted := false |}
              initial_world [] eq_refl eq_refl) as (e & w' & E).
  - cbn; lia.
  - discriminate E.
Qed.

(** C1, amended: a reply of 1 to 47 bytes makes the exchange end in
    [struct.error], raised by [get_ntp_time] on a slice that is too
    short; it is reported through the generic error line, nothing is
    appended to [results], and the loop goes on to its sleep (for an
    interval that [time.sleep] is sure to take, and with no Ctrl-C on
    the way).  There is no check of the length before decoding: from 40
    bytes on, the first timestamp is decoded before the second one
    fails. *)
Theorem short_reply_is_a_decoding_error ts interval seq env w data :
  sendto_outcome env = None -> recvfrom_outcome env = inr data ->
  (1 <= List.length data < 48)%nat ->
  exchange ts seq env w =
    (inl Struct_error,
     {| results := results w; trace := trace w ++ [Sendto msg ts PORT] |}) /\
  (sleepable interval = true -> sleep_interrupted env = false ->
   iteration ts interval seq env w =
     (inr tt,
      {| results := results w;
         trace := trace w ++ [Sendto msg ts PORT;
                              Print (Error_line seq Struct_error);
                              Sleep interval] |})) /\
  ((40 <= List.length data)%nat ->
   exists t2, get_ntp_time (slice 32 40 data) = ret t2).
Proof.
  intros Hs Hr Hl.
  assert (Hx : exchange ts seq env w =
               (inl Struct_error,
                {| results := results w; trace := trace w ++ [Sendto msg ts PORT] |})).
  { rewrite (exchange_on_reply ts seq env w data Hs Hr) by (unfold BUF_SIZE; lia).
    destruct data as [|b data]; [cbn in Hl; lia|].
    destruct (Nat.lt_ge_cases (List.length (b :: data)) 40) as [Hlt|Hge].
    - unfold mbind at 1. unfold lift at 1.
      rewrite get_ntp_time_wrong_length; [reflexivity|].
      rewrite slice_length. lia.
    - unfold mbind at 1. unfold lift at 1.
      destruct (get_ntp_time_eight_bytes (slice 32 40 (b :: data))) as [t2 E2].
      { rewrite slice_length. lia. }
      rewrite E2. unfold ret at 1. unfold mbind at 1. unfold lift at 1.
      rewrite get_ntp_time_wrong_length; [reflexivity|].
      rewrite slice_length. lia. }
  split; [exact Hx|]. split.
  - intros Hv Hi. unfold iteration, try_except. unfold mbind at 1. rewrite Hx.
    cbn [handlers is_Exception]. unfold print, emit.
    rewrite (sleep_sleepable _ _ _ _ Hv), Hi.
    cbn [results trace]. now rewrite <- !app_assoc.
  - intros Hge. apply get_ntp_time_eight_bytes. rewrite slice_length. lia.
Qed.

Lemma short_reply_is_a_decoding_error_witness :
  let env := {| time_send := 1000; sendto_outcome := None;
                recvfrom_outcome := inr (repeat Byte.x00 10); time_recv := 1000.25;
                localtime_refusal := None; cooldown_interrupted := false;
                sleep_refusal := None; sleep_interrupted := false |} in
  iteration "ntp.nict.jp"%string 1 3 env initial_world =
  (inr tt,
   {| results := [];
      trace := [Sendto msg "ntp.nict.jp"%string PORT;
                Print (Error_line 3 Struct_error); Sleep 1] |}).
Proof.
  intros env.
  refine (proj1 (proj2 (short_reply_is_a_decoding_error "ntp.nict.jp"%string 1 3 env
                          initial_world (repeat Byte.x00 10) eq_refl eq_refl _))
            eq_refl eq_refl).
  cbn; lia.
Defined.

(** A whole run: header, three turns, Ctrl-C, summary. *)
Example main_run :
  main "ntp.nict.jp"%string 1 example_envs initial_world =
  (inr tt,
   {| results := [{| offset := 0.25; delay := 0 |}];
      trace :=
        [Print (Header "ntp.nict.jp"%string 1);
         Sendto msg "ntp.nict.jp"%string PORT;
         Print (Progress 1 1704067200.5 0.25 0);
         Sleep 1;
         Sendto msg "ntp.nict.jp"%string PORT;
         Print (Request_timed_out 2);
         Sleep 1;
         Print (Could_not_resolve 3 "ntp.nict.jp"%string);
         Sleep 1;
         Print Stopped_banner;
         Print (Target_line "ntp.nict.jp"%string); Print (Count_line 1);
         Print (Average_offset_line 0.25); Print (Max_offset_line 0.25);
         Print (Min_offset_line 0.25); Print (Std_deviation_line 0);
         Print (Average_delay_line 0); Print Separator;
         Print (Verdict_line ACCURATE); Print Rule; Close] |}).
Proof. vm_compute. reflexivity. Qed.

(** Ctrl-C before the first reply: the summary has nothing to show. *)
Example main_run_without_data :
  main "ntp.nict.jp"%string 1
    [ {| time_send := 1704067200.25; sendto_outcome := None;
         recvfrom_outcome := inl Keyboard_interrupt; time_recv := 1704067200.5;
         localtime_refusal := None; cooldown_interrupted := false;
         sleep_refusal := None; sleep_interrupted := false |} ]
    initial_world =
  (inr tt,
   {| results := [];
      trace := [Print (Header "ntp.nict.jp"%string 1);
                Sendto msg "ntp.nict.jp"%string PORT;
                Print Stopped_banner; Print No_data_collected; Print Rule; Close] |}).
Proof. vm_compute. reflexivity. Qed.

(** A clock that reads 10^18 seconds: the sample is recorded, the
    progress line is not printed, the generic error line is; and a
    summary over offsets of that size ends in [OverflowError] after the
    banner, without report, rule or closing of the socket. *)
Example main_run_with_absurd_clock :
  main "ntp.nict.jp"%string 1
    [ {| time_send := 1704067200.25; sendto_outcome := None;
         recvfrom_outcome := inr example_reply; time_recv := 1704067200.5;
         localtime_refusal := None; cooldown_interrupted := false;
         sleep_refusal := None; sleep_interrupted := false |};
      {| time_send := 1e200; sendto_outcome := None;
         recvfrom_outcome := inr example_reply; time_recv := 1e200;
         localtime_refusal := None; cooldown_interrupted := false;
         sleep_refusal := None; sleep_interrupted := true |} ]
    initial_world =
  (inl Overflow_error,
   {| results := [{| offset := 0.25; delay := 0 |};
                  {| offset := -1e200; delay := -0.25 |}];
      trace := [Print (Header "ntp.nict.jp"%string 1);
                Sendto msg "ntp.nict.jp"%string PORT;
                Print (Progress 1 1704067200.5 0.25 0);
                Sleep 1;
                Sendto msg "ntp.nict.jp"%string PORT;
                Print (Error_line 2 Overflow_error);
                Print Stopped_banner] |}).
Proof. vm_compute. reflexivity. Qed.

(** *** The summary *)

Lemma count_not_zero {A} (x : A) (xs : list A) :
  (Z.of_nat (List.length (x :: xs)) =? 0) = false.
Proof. apply Z.eqb_neq. cbn [List.length]. lia. Qed.

(** The shape of the summary of a non-empty [results]: the divisions by
    [count], [max] and [min] go through; what can still raise is a
    square that overflows, and [math.sqrt]. *)
Lemma summarize_with_nonempty fsum square (r : sample) (rs : list sample) :
  let offsets := map offset (r :: rs) in
  let delays := map delay (r :: rs) in
  let n := float_of_int (Z.of_nat (List.length (r :: rs))) in
  let avg := (fsum offsets / n)%float in
  summarize_with fsum square (r :: rs) =
  (terms <- squares square avg offsets ;;
   std_dev <- math_sqrt (fsum terms / n)%float ;;
   ret (Statistics
          {| count := Z.of_nat (List.length (r :: rs));
             avg_offset := avg;
             max_offset := fold_left (fun m y => if (m <? y)%float then y else m)
                             (map offset rs) (offset r);
             min_offset := fold_left (fun m y => if (y <? m)%float then y else m)
                             (map offset rs) (offset r);
             avg_delay := (fsum delays / n)%float;
             std_dev := std_dev |}
          (classify avg))).
Proof.
  intros offsets delays n avg. unfold summarize_with, float_truediv_int.
  rewrite length_map, count_not_zero. cbn [bind ret py_max py_min].
  fold offsets. fold n. fold avg.
  destruct (squares square avg offsets) as [e|terms]; [reflexivity|].
  reflexivity.
Qed.

(** The squares are those of the deviations, in order; the one thing
    that can be raised among them is [OverflowError]. *)
Lemma squares_returned square avg xs terms :
  squares square avg xs = ret terms <->
  Forall2 (fun x y => square (x - avg)%float = Some y) xs terms.
Proof.
  revert terms. induction xs as [|x xs IH]; intros terms; cbn [squares].
  - split.
    + intros [= <-]. constructor.
    + intros H. inversion H. reflexivity.
  - destruct (square (x - avg)%float) as [y|] eqn:Hy.
    + destruct (squares square avg xs) as [e|ys] eqn:Hs; cbn [bind ret]; split.
      * discriminate.
      * intros H. inversion H as [|? y' ? ys' Hy' Hrest]; subst.
        apply IH in Hrest. discriminate Hrest.
      * intros [= <-]. constructor; [exact Hy|]. now apply IH.
      * intros H. inversion H as [|? y' ? ys' Hy' Hrest]; subst.
        apply IH in Hrest. injection Hrest as ->. congruence.
    + split; [discriminate|].
      intros H. inversion H; subst. congruence.
Qed.

Lemma squares_raised square avg xs e :
  squares square avg xs = inl e <->
  e = Overflow_error /\ Exists (fun x => square (x - avg)%float = None) xs.
Proof.
  induction xs as [|x xs IH]; cbn [squares].
  - split; [discriminate|]. intros [_ H]. inversion H.
  - destruct (square (x - avg)%float) as [y|] eqn:Hy.
    + destruct (squares square avg xs) as [e'|ys]; cbn [bind ret]; split.
      * intros H. apply IH in H. destruct H as [-> Hex].
        split; [reflexivity|]. now apply Exists_cons_tl.
      * intros [-> Hex]. inversion Hex; subst; [congruence|].
        apply IH. now split.
      * discriminate.
      * intros [-> Hex]. inversion Hex; subst; [congruence|].
        assert (H : @inr exn (list float) ys = inl Overflow_error)
          by (apply IH; now split).
        discriminate H.
    + split.
      * intros [= <-]. split; [reflexivity|]. now apply Exists_cons_hd.
      * now intros [-> _].
Qed.

(** What a summary that returns statistics has computed. *)
Lemma summarize_with_returned fsum square rs st v :
  summarize_with fsum square rs = ret (Statistics st v) ->
  let offsets := map offset rs in
  let n := float_of_int (Z.of_nat (List.length rs)) in
  let avg := (fsum offsets / n)%float in
  exists r rest terms,
    rs = r :: rest /\
    squares square avg offsets = ret terms /\
    math_sqrt (fsum terms / n)%float = ret (std_dev st) /\
    count st = Z.of_nat (List.length rs) /\
    avg_offset st = avg /\
    max_offset st = fold_left (fun m y => if (m <? y)%float then y else m)
                      (map offset rest) (offset r) /\
    min_offset st = fold_left (fun m y => if (y <? m)%float then y else m)
                      (map offset rest) (offset r) /\
    avg_delay st = (fsum (map delay rs) / n)%float /\
    v = classify avg.
Proof.
  destruct rs as [|r rest]; [discriminate|].
  rewrite summarize_with_nonempty. cbv zeta.
  destruct (squares square _ _) as [e|terms]; [discriminate|]. cbn [bind].
  destruct (math_sqrt _) as [e|sd] eqn:Hsd; [discriminate|]. cbn [bind ret].
  intros H. injection H as <- <-. exists r, rest, terms.
  repeat split; assumption || reflexivity.
Qed.

(** C9: with an empty [results] the summary is the "no data" report,
    whatever [sum] and [pow] are: nothing is divided (no [ZeroDivisionError], for
    this or any other [results]), and the handler prints the banner, the
    "No data collected." line and the closing rule, and no number. *)
Theorem empty_results_report_no_data fsum square ts tr :
  summarize_with fsum square [] = ret No_data /\
  (forall rs, summarize_with fsum square rs <> raise Zero_division_error) /\
  summary fsum square ts {| results := []; trace := tr |} =
    (inr tt,
     {| results := [];
        trace := tr ++ [Print Stopped_banner; Print No_data_collected;
                        Print Rule; Close] |}).
Proof.
  split; [reflexivity|]. split.
  - intros [|r rs]; [discriminate|].
    rewrite summarize_with_nonempty. cbv zeta.
    destruct (squares square _ _) as [e|terms] eqn:Hsq.
    + apply squares_raised in Hsq. destruct Hsq as [-> _]. discriminate.
    + cbn [bind]. unfold math_sqrt. destruct (_ <? 0)%float; discriminate.
  - unfold summary, mbind, print, emit. cbn. now rewrite <- !app_assoc.
Qed.

Lemma float_sq_never_negative : never_negative float_sq.
Proof.
  intros x y. unfold float_sq. cbv zeta.
  destruct (is_finite x && is_infinity (x * x))%bool; [discriminate|].
  intros [= <-]. rewrite mul_spec. apply SFmul_square_sign.
Qed.

Lemma variance_not_negative square (xs terms : list float) (avg : float) (n : Z) :
  never_negative square -> 0 <= n ->
  squares square avg xs = ret terms ->
  ((py_sum terms / float_of_int n <? 0)%float) = false.
Proof.
  intros Hsq Hn Hterms. rewrite ltb_zero, div_spec.
  rewrite SFdiv_sign; [reflexivity| |now apply float_of_int_sign].
  apply py_sum_sign. apply squares_returned in Hterms.
  induction Hterms as [|x y xs ys Hy _ IH]; constructor; [|exact IH].
  exact (Hsq _ _ Hy).
Qed.

(** With the plain [sum] and a [pow] whose squares are never negative,
    the summary of a non-empty [results] raises only when a square
    overflows: [math.sqrt] always gets a variance that is not negative. *)
Lemma summarize_with_total square (r : sample) (rs : list sample) :
  never_negative square ->
  let offsets := map offset (r :: rs) in
  let delays := map delay (r :: rs) in
  let n := float_of_int (Z.of_nat (List.length (r :: rs))) in
  let avg := (py_sum offsets / n)%float in
  summarize_with py_sum square (r :: rs) =
  (terms <- squares square avg offsets ;;
   ret (Statistics
          {| count := Z.of_nat (List.length (r :: rs));
             avg_offset := avg;
             max_offset := fold_left (fun m y => if (m <? y)%float then y else m)
                             (map offset rs) (offset r);
             min_offset := fold_left (fun m y => if (y <? m)%float then y else m)
                             (map offset rs) (offset r);
             avg_delay := (py_sum delays / n)%float;
             std_dev := PrimFloat.sqrt (py_sum terms / n) |}
          (classify avg))).
Proof.
  intros Hsq offsets delays n avg.
  rewrite summarize_with_nonempty. cbv zeta. fold offsets. fold n. fold avg.
  destruct (squares square avg offsets) as [e|terms] eqn:Hterms; [reflexivity|].
  cbn [bind]. unfold math_sqrt. unfold n.
  rewrite (variance_not_negative square offsets terms avg) by (assumption || lia).
  reflexivity.
Qed.

Lemma summarize_nonempty (r : sample) (rs : list sample) :
  let offsets := map offset (r :: rs) in
  let delays := map delay (r :: rs) in
  let n := float_of_int (Z.of_nat (List.length (r :: rs))) in
  let avg := (py_sum offsets / n)%float in
  summarize (r :: rs) =
  (terms <- squares float_sq avg offsets ;;
   ret (Statistics
          {| count := Z.of_nat (List.length (r :: rs));
             avg_offset := avg;
             max_offset := fold_left (fun m y => if (m <? y)%float then y else m)
                             (map offset rs) (offset r);
             min_offset := fold_left (fun m y => if (y <? m)%float then y else m)
                             (map offset rs) (offset r);
             avg_delay := (py_sum delays / n)%float;
             std_dev := PrimFloat.sqrt (py_sum terms / n) |}
          (classify avg))).
Proof. exact (summarize_with_total float_sq r rs float_sq_never_negative). Qed.

(** When no square overflows, the squares are there. *)
Lemma squares_return square avg xs :
  Forall (fun x => square (x - avg)%float <> None) xs ->
  exists terms, squares square avg xs = ret terms.
Proof.
  intros Hall. destruct (squares square avg xs) as [e|terms] eqn:Hs.
  - apply squares_raised in Hs. destruct Hs as [_ Hex].
    now apply Forall_Exists_neg in Hall.
  - now exists terms.
Qed.

Lemma squares_returned_all square avg xs terms :
  squares square avg xs = ret terms ->
  Forall (fun x => square (x - avg)%float <> None) xs.
Proof.
  intros H. apply squares_returned in H.
  induction H as [|x y xs' ys Hy _ IH]; constructor; [congruence|exact IH].
Qed.

(** C4, as stated, fails at its own example, under either [sum] and
    whatever [x ** 2] is: the mean of the floats 0.1, 0.2, 0.3 is not
    the float 0.2. *)
Lemma aggregate_example_not_exact :
  ~ aggregate_example_exact py_sum /\ ~ aggregate_example_exact py_sum_compensated.
Proof.
  split; intros (square & st & v & H & Havg & _);
    destruct (summarize_with_returned _ _ _ _ _ H)
      as (r & rest & terms & _ & _ & _ & _ & Ha & _);
    rewrite Ha in Havg;
    apply (f_equal (fun x => (x =? 0.2)%float)) in Havg;
    vm_compute in Havg; discriminate Havg.
Qed.

(** C4, amended: for every non-empty [results], whatever [sum] and
    [x ** 2] are, the summary computes [count = len(results)],
    [avg_offset = sum(offsets) / count], the [max] and [min] of the
    offsets (when none is NaN: offsets of the list that no other
    exceeds, resp. is below), [avg_delay = sum(delays) / count] and
    [std_dev = sqrt(sum((x - avg_offset) ** 2) / count)], the denominator
    being [count]; sums, quotients, differences and the square root are
    rounded to binary64, the squares are what [x ** 2] gives, in the
    order of the offsets, and a square that overflows ends the summary
    in [OverflowError].  With the plain [sum] and squares that are never
    negative nothing else can be raised.  For offsets 0.1, 0.2, 0.3 the
    summary has [count = 3], [min = 0.1], [max = 0.3] and
    [avg_offset = 0.20000000000000004] (0.19999999999999998 with the
    compensated [sum]), within 10^-16 of 0.2; and where [x ** 2] is
    correctly rounded, [std_dev = 0.081649658092772595], whose square is
    within 10^-17 of 0.02 / 3. *)
Theorem summary_aggregates :
  (forall fsum square (r : sample) (rs : list sample),
     let offsets := map offset (r :: rs) in
     let delays := map delay (r :: rs) in
     let n := float_of_int (Z.of_nat (List.length (r :: rs))) in
     let avg := (fsum offsets / n)%float in
     summarize_with fsum square (r :: rs) =
     (terms <- squares square avg offsets ;;
      std_dev <- math_sqrt (fsum terms / n)%float ;;
      ret (Statistics
             {| count := Z.of_nat (List.length (r :: rs));
                avg_offset := avg;
                max_offset := fold_left (fun m y => if (m <? y)%float then y else m)
                                (map offset rs) (offset r);
                min_offset := fold_left (fun m y => if (y <? m)%float then y else m)
                                (map offset rs) (offset r);
                avg_delay := (fsum delays / n)%float;
                std_dev := std_dev |}
             (classify avg)))) /\
  (forall square avg xs,
     (forall terms, squares square avg xs = ret terms <->
        Forall2 (fun x y => square (x - avg)%float = Some y) xs terms) /\
     (forall e, squares square avg xs = inl e <->
        e = Overflow_error /\
        Exists (fun x => square (x - avg)%float = None) xs)) /\
  (forall square (r : sample) (rs : list sample),
     never_negative square ->
     let offsets := map offset (r :: rs) in
     let delays := map delay (r :: rs) in
     let n := float_of_int (Z.of_nat (List.length (r :: rs))) in
     let avg := (py_sum offsets / n)%float in
     (Forall (fun x => square (x - avg)%float <> None) offsets ->
      exists terms, squares square avg offsets = ret terms) /\
     (forall terms, squares square avg offsets = ret terms ->
        summarize_with py_sum square (r :: rs) =
        ret (Statistics
               {| count := Z.of_nat (List.length (r :: rs));
                  avg_offset := avg;
                  max_offset := fold_left (fun m y => if (m <? y)%float then y else m)
                                  (map offset rs) (offset r);
                  min_offset := fold_left (fun m y => if (y <? m)%float then y else m)
                                  (map offset rs) (offset r);
                  avg_delay := (py_sum delays / n)%float;
                  std_dev := PrimFloat.sqrt (py_sum terms / n) |}
               (classify avg)))) /\
  (forall fsum square (r : sample) (rs : list sample) st v,
     Forall (fun y => is_nan y = false) (map offset (r :: rs)) ->
     summarize_with fsum square (r :: rs) = ret (Statistics st v) ->
     In (max_offset st) (map offset (r :: rs)) /\
     In (min_offset st) (map offset (r :: rs)) /\
     Forall (fun y => (max_offset st <? y)%float = false /\
                      (y <? min_offset st)%float = false)
            (map offset (r :: rs))) /\
  (forall square st v,
     (summarize_with py_sum square three_samples = ret (Statistics st v) ->
      count st = 3 /\ avg_offset st = 0.20000000000000004%float /\
      max_offset st = 0.3%float /\ min_offset st = 0.1%float /\
      avg_delay st = 0.01%float /\ v = ACCURATE) /\
     (summarize_with py_sum_compensated square three_samples = ret (Statistics st v) ->
      count st = 3 /\ avg_offset st = 0.19999999999999998%float /\
      max_offset st = 0.3%float /\ min_offset st = 0.1%float /\
      avg_delay st = 0.01%float /\ v = ACCURATE)) /\
  summarize three_samples =
    ret (Statistics
           {| count := 3; avg_offset := 0.20000000000000004;
              max_offset := 0.3; min_offset := 0.1; avg_delay := 0.01;
              std_dev := 0.081649658092772595 |} ACCURATE) /\
  summarize_with py_sum_compensated float_sq three_samples =
    ret (Statistics
           {| count := 3; avg_offset := 0.19999999999999998;
              max_offset := 0.3; min_offset := 0.1; avg_delay := 0.01;
              std_dev := 0.081649658092772595 |} ACCURATE) /\
  within (1 # 10 ^ 16) 0.20000000000000004 (2 # 10) /\
  within (1 # 10 ^ 16) 0.19999999999999998 (2 # 10) /\
  (exists v, float_value 0.081649658092772595 = Some v /\
             (Qabs (v * v - (2 # 100) / 3) <= 1 # 10 ^ 17)%Q).
Proof.
  split; [exact summarize_with_nonempty|].
  split.
  { intros square avg xs. split.
    - intros terms. apply squares_returned.
    - intros e. apply squares_raised. }
  split.
  { intros square r rs Hsq offsets delays n avg. split.
    - apply squares_return.
    - intros terms Hterms.
      rewrite (summarize_with_total square r rs Hsq). cbv zeta.
      fold offsets. fold n. fold avg. now rewrite Hterms. }
  split.
  { intros fsum square r rs st v Hall H.
    destruct (summarize_with_returned _ _ _ _ _ H)
      as (r' & rest & terms & Hrs & _ & _ & _ & _ & -> & -> & _).
    injection Hrs as <- <-.
    exact (fold_max_min_spec (offset r) (map offset rs) Hall). }
  split.
  { intros square st v. split; intros H;
      destruct (summarize_with_returned _ _ _ _ _ H)
        as (r' & rest & terms & Hrs & _ & _ & -> & -> & -> & -> & -> & ->);
      injection Hrs as <- <-; vm_compute; repeat split. }
  split; [vm_compute; reflexivity|]. split; [vm_compute; reflexivity|].
  repeat split;
    (eexists; split; [vm_compute; reflexivity|]);
    apply Qle_bool_imp_le; vm_compute; reflexivity.
Qed.

(** ** Further properties *)

(** *** The summary and the whole run *)

Lemma print_all_effect (ls : list line) (w : world) :
  print_all ls w = (inr tt, {| results := results w; trace := trace w ++ map Print ls |}).
Proof.
  revert w. induction ls as [|l ls IH]; intros w; cbn [print_all map].
  - unfold mret. rewrite app_nil_r. now destruct w.
  - unfold mbind, print, emit. rewrite IH. cbn [results trace].
    now rewrite <- app_assoc.
Qed.

Lemma report_lines_show_nothing ts r :
  shown_samples (map Print (report_lines ts r)) = [] /\
  shown_sequences (map Print (report_lines ts r)) = [].
Proof. now destruct r. Qed.

(** The handler of [KeyboardInterrupt]: the banner, then the summary of
    [results]; what follows is there only if the summary returns. *)
Lemma summary_effect fsum square ts (w : world) :
  summary fsum square ts w =
  match summarize_with fsum square (results w) with
  | inl e =>
      (inl e, {| results := results w; trace := trace w ++ [Print Stopped_banner] |})
  | inr r =>
      (inr tt, {| results := results w;
                  trace := trace w ++ Print Stopped_banner ::
                             map Print (report_lines ts r) ++ [Print Rule; Close] |})
  end.
Proof.
  unfold summary, mbind, print, emit. cbn [results trace].
  destruct (summarize_with fsum square (results w)) as [e|r]; [reflexivity|].
  rewrite print_all_effect. cbn [results trace].
  rewrite <- !app_assoc. reflexivity.
Qed.

(** The two ways [main] can end: the loop is left by Ctrl-C and the
    summary follows, or what the loop did is all there is. *)
Lemma main_cases fsum square ts interval envs (w : world) :
  let lp := poll_loop ts interval 0 envs (after_header ts interval w) in
  (fst lp = inl Keyboard_interrupt /\
   main_with fsum square ts interval envs w = summary fsum square ts (snd lp)) \/
  (fst lp <> inl Keyboard_interrupt /\ main_with fsum square ts interval envs w = lp).
Proof.
  intros lp. unfold main_with, mbind, print, emit, try_except.
  fold (after_header ts interval w). fold lp.
  destruct lp as [[e|[]] w1]; cbn [fst snd].
  - destruct e; try (right; split; [discriminate|reflexivity]).
    left. split; reflexivity.
  - right. split; [discriminate|reflexivity].
Qed.



Lemma slice_of_slice {A} (d : list A) :
  slice 32 40 (firstn BUF_SIZE d) = firstn 8 (slice 32 48 d) /\
  slice 40 48 (firstn BUF_SIZE d) = skipn 8 (slice 32 48 d).
Proof.
  unfold slice, BUF_SIZE. rewrite !firstn_firstn. cbn [Nat.min].
  change (Nat.min 40 1024) with 40%nat. change (Nat.min 48 1024) with 48%nat.
  split.
  - rewrite firstn_skipn_comm. cbn [Nat.add]. rewrite firstn_firstn. reflexivity.
  - rewrite skipn_skipn. reflexivity.
Qed.

(** X3: of a reply of 48 bytes or more only bytes 32 to 47, the receive
    and transmit timestamps, have any influence on the turn. *)
Theorem only_the_two_timestamps_are_read ts seq env w d1 d2 :
  (48 <= List.length d1)%nat -> (48 <= List.length d2)%nat ->
  slice 32 48 d1 = slice 32 48 d2 ->
  exchange ts seq (with_reply env d1) w = exchange ts seq (with_reply env d2) w.
Proof.
  intros H1 H2 Heq. unfold exchange, recvfrom, with_reply, sendto.
  cbn [sendto_outcome recvfrom_outcome time_send time_recv localtime_refusal].
  unfold bind, ret.
  assert (L1 : (48 <= List.length (firstn BUF_SIZE d1))%nat)
    by (rewrite length_firstn; unfold BUF_SIZE; lia).
  assert (L2 : (48 <= List.length (firstn BUF_SIZE d2))%nat)
    by (rewrite length_firstn; unfold BUF_SIZE; lia).
  destruct (slice_of_slice d1) as [A1 B1]. destruct (slice_of_slice d2) as [A2 B2].
  destruct (firstn BUF_SIZE d1) as [|b1 r1]; [cbn in L1; lia|].
  destruct (firstn BUF_SIZE d2) as [|b2 r2]; [cbn in L2; lia|].
  unfold mbind, lift. destruct (sendto_outcome env); [reflexivity|].
  unfold emit. cbv beta iota zeta. rewrite A1, B1, A2, B2, Heq. reflexivity.
Qed.

Lemma only_the_two_timestamps_are_read_witness :
  let env := {| time_send := 1704067200.25; sendto_outcome := None;
                recvfrom_outcome := inr []; time_recv := 1704067200.5;
                localtime_refusal := None; cooldown_interrupted := false;
                sleep_refusal := None; sleep_interrupted := false |} in
  exchange "ntp.nict.jp"%string 1 (with_reply env example_reply) initial_world =
  exchange "ntp.nict.jp"%string 1
    (with_reply env (repeat Byte.xff 32 ++ skipn 32 example_reply ++ [Byte.x2a]))
    initial_world.
Proof.
  apply (only_the_two_timestamps_are_read "ntp.nict.jp"%string 1);
    [cbn; lia|cbn; lia|reflexivity].
Defined.

(** What [main] has done when it ends, from a fresh start. *)
Lemma main_effect fsum square ts interval envs :
  let run := main_with fsum square ts interval envs initial_world in
  exists tr tail,
    trace (snd run) = Print (Header ts interval) :: tr ++ tail /\
    results (snd run) = recorded (firstn (turns_taken interval envs) envs) /\
    (Forall (fun env => displayable (time_recv env) = true) envs ->
     shown_samples tr = results (snd run)) /\
    StronglySorted Z.lt (shown_sequences tr) /\
    Forall (fun n => 1 <= n <= Z.of_nat (List.length envs)) (shown_sequences tr) /\
    Forall (turn_event ts) tr /\
    shown_samples tail = [] /\ shown_sequences tail = [] /\
    (tail = [] \/
     (tail = [Print Stopped_banner] /\
      exists e, summarize_with fsum square (results (snd run)) = inl e) \/
     exists r, summarize_with fsum square (results (snd run)) = ret r /\
       tail = Print Stopped_banner :: map Print (report_lines ts r) ++ [Print Rule; Close]).
Proof.
  intros run.
  destruct (poll_loop_effect ts interval envs 0 (after_header ts interval initial_world))
    as (tr & Ht & Hr & Hsh & Hs & Hb & Hev & _).
  cbn [after_header initial_world results trace app] in Ht, Hr.
  assert (Hb' : Forall (fun n => 1 <= n <= Z.of_nat (List.length envs)) (shown_sequences tr))
    by (eapply Forall_impl; [|exact Hb]; cbn beta; lia).
  exists tr.
  destruct (main_cases fsum square ts interval envs initial_world) as [(_ & Hm)|(_ & Hm)];
    fold run in Hm; rewrite Hm.
  - rewrite summary_effect.
    destruct (summarize_with fsum square _) as [e|r] eqn:Hsum; cbn [fst snd results trace].
    + exists [Print Stopped_banner]. rewrite Ht, Hr. cbn [shown_samples shown_sequences].
      repeat split; try assumption.
      * right. left. split; [reflexivity|]. exists e. now rewrite <- Hr.
    + exists (Print Stopped_banner :: map Print (report_lines ts r) ++ [Print Rule; Close]).
      destruct (report_lines_show_nothing ts r) as [R1 R2].
      rewrite Ht, Hr. cbn [shown_samples shown_sequences].
      rewrite shown_samples_app, shown_sequences_app, R1, R2.
      repeat split; try assumption.
      * right. right. exists r. split; [|reflexivity]. now rewrite <- Hr.
  - exists []. cbn [fst snd]. rewrite Ht, Hr, app_nil_r. repeat split; try assumption.
    + now left.
Qed.



(** X5: the sequence numbers printed go up strictly, start at 1 or later
    and never pass the number of turns taken: a turn prints at most one
    numbered line, and no number is used twice. *)
Theorem sequence_numbers_increase ts interval envs :
  let shown := shown_sequences (trace (snd (main ts interval envs initial_world))) in
  StronglySorted Z.lt shown /\
  Forall (fun n => 1 <= n <= Z.of_nat (List.length envs)) shown.
Proof.
  intros shown.
  destruct (main_effect py_sum float_sq ts interval envs)
    as (tr & tail & Ht & _ & _ & Hs & Hb & _ & _ & Hq & _).
  assert (E : shown = shown_sequences tr).
  { unfold shown, main. rewrite Ht. cbn [shown_sequences].
    now rewrite shown_sequences_app, Hq, app_nil_r. }
  rewrite E. now split.
Qed.






(** X8: the interval is not checked when the program starts.  With a
    negative one (or NaN) the first turn still runs its exchange; then
    [time.sleep] raises [ValueError], which no handler takes: [main]
    ends in that exception after one turn, without summary and without
    closing the socket. *)
Theorem invalid_interval_ends_the_first_turn ts interval env envs w :
  unsleepable interval = true -> interrupted env = false ->
  main ts interval (env :: envs) w =
  (inl Value_error, snd (iteration ts interval 1 env (after_header ts interval w))).
Proof.
  intros Hv Hni.
  destruct (iteration_effect ts interval 1 env (after_header ts interval w))
    as (tr & _ & _ & _ & _ & _ & _ & Hbad & _).
  specialize (Hbad Hv Hni).
  assert (Hlp : poll_loop ts interval 0 (env :: envs) (after_header ts interval w) =
                (inl Value_error,
                 snd (iteration ts interval 1 env (after_header ts interval w)))).
  { cbn [poll_loop]. unfold mbind. change (0 + 1) with 1.
    destruct (iteration ts interval 1 env (after_header ts interval w)) as [r w1].
    cbn [fst snd] in *. now subst r. }
  unfold main.
  destruct (main_cases py_sum float_sq ts interval (env :: envs) w) as [(Hk & _)|(_ & ->)].
  - rewrite Hlp in Hk. discriminate.
  - exact Hlp.
Qed.

Lemma invalid_interval_ends_the_first_turn_witness :
  main "ntp.nict.jp"%string (-1) example_envs initial_world =
  (inl Value_error,
   {| results := [{| offset := 0.25; delay := 0 |}];
      trace := [Print (Header "ntp.nict.jp"%string (-1));
                Sendto msg "ntp.nict.jp"%string PORT;
                Print (Progress 1 1704067200.5 0.25 0)] |}).
Proof.
  apply (invalid_interval_ends_the_first_turn "ntp.nict.jp"%string (-1)
           {| time_send := 1704067200.25; sendto_outcome := None;
              recvfrom_outcome := inr example_reply; time_recv := 1704067200.5;
              localtime_refusal := None; cooldown_interrupted := false;
              sleep_refusal := None; sleep_interrupted := false |}
           (tl example_envs) initial_world); reflexivity.
Defined.

(** X9: however the loop is left by Ctrl-C, what follows is the banner
    and then the summary of [results] as they stand.  When the summary
    returns, the report, the rule and the closing of the socket follow,
    the closing being the very last action, and [main] ends normally;
    with no sample at all that is always so.  When the summary raises --
    a squared deviation that overflows -- [main] ends in that exception
    right after the banner: no report, no rule, and the socket is not
    closed. *)
Theorem interrupt_leads_to_the_summary fsum square ts interval envs w :
  let lp := poll_loop ts interval 0 envs (after_header ts interval w) in
  fst lp = inl Keyboard_interrupt ->
  main_with fsum square ts interval envs w =
  match summarize_with fsum square (results (snd lp)) with
  | inr r =>
      (inr tt, {| results := results (snd lp);
                  trace := trace (snd lp) ++ Print Stopped_banner ::
                             map Print (report_lines ts r) ++ [Print Rule; Close] |})
  | inl e =>
      (inl e, {| results := results (snd lp);
                 trace := trace (snd lp) ++ [Print Stopped_banner] |})
  end /\
  (results (snd lp) = [] ->
   main_with fsum square ts interval envs w =
   (inr tt, {| results := [];
               trace := trace (snd lp) ++ [Print Stopped_banner; Print No_data_collected;
                                           Print Rule; Close] |})).
Proof.
  intros lp Hk.
  destruct (main_cases fsum square ts interval envs w) as [(_ & H)|(Hn & _)];
    [|fold lp in Hn; contradiction].
  fold lp in H. rewrite H, summary_effect. split.
  - now destruct (summarize_with fsum square (results (snd lp))).
  - intros ->. reflexivity.
Qed.

Lemma interrupt_leads_to_the_summary_witness :
  main "ntp.nict.jp"%string 1 example_envs initial_world =
  (inr tt,
   {| results := [{| offset := 0.25; delay := 0 |}];
      trace :=
        [Print (Header "ntp.nict.jp"%string 1);
         Sendto msg "ntp.nict.jp"%string PORT;
         Print (Progress 1 1704067200.5 0.25 0);
         Sleep 1;
         Sendto msg "ntp.nict.jp"%string PORT;
         Print (Request_timed_out 2);
         Sleep 1;
         Print (Could_not_resolve 3 "ntp.nict.jp"%string);
         Sleep 1;
         Print Stopped_banner;
         Print (Target_line "ntp.nict.jp"%string); Print (Count_line 1);
         Print (Average_offset_line 0.25); Print (Max_offset_line 0.25);
         Print (Min_offset_line 0.25); Print (Std_deviation_line 0);
         Print (Average_delay_line 0); Print Separator;
         Print (Verdict_line ACCURATE); Print Rule; Close] |}).
Proof.
  exact (proj1 (interrupt_leads_to_the_summary py_sum float_sq
                  "ntp.nict.jp"%string 1 example_envs initial_world eq_refl)).
Defined.

(** X10: everything [main] ever sends is the 48-byte client request of
    line 53, to port 123 of the target server. *)
Theorem only_the_client_request_is_sent ts interval envs :
  Forall (fun ev => match ev with
                    | Sendto m host port =>
                        m = msg /\ List.length m = 48%nat /\ host = ts /\ port = 123
                    | _ => True
                    end)
         (trace (snd (main ts interval envs initial_world))).
Proof.
  destruct (main_effect py_sum float_sq ts interval envs)
    as (tr & tail & Ht & _ & _ & _ & _ & Hev & _ & _ & Hc).
  unfold main. rewrite Ht. constructor; [exact I|]. apply Forall_app. split.
  - eapply Forall_impl; [|exact Hev]. intros [l|m host port|x|]; cbn; try easy.
    intros (-> & -> & ->). repeat split.
  - destruct Hc as [-> | [(-> & _) | (r & _ & ->)]]; [constructor|repeat constructor|].
    constructor; [exact I|]. apply Forall_app. split.
    + apply Forall_forall. intros ev Hin. apply in_map_iff in Hin.
      destruct Hin as (l & <- & _). exact I.
    + repeat constructor.
Qed.



(** *** More on the summary *)

Lemma sqrt_not_negative (x : float) : (PrimFloat.sqrt x <? 0)%float = false.
Proof.
  rewrite ltb_zero, sqrt_spec. apply negb_false_iff.
  destruct (Prim2SF x) as [[]|[]| |[] m e]; try reflexivity.
  unfold SF64sqrt, SFsqrt.
  destruct (SFsqrt_core_binary prec emax (Z.pos m) e) as [[mz ez] lz].
  apply sign_clear_not_negative, binary_round_aux_sign.
Qed.

(** X12: the jitter of a summary is never below zero, whichever [sum]
    and [pow] the interpreter has: the standard deviation shown is zero,
    positive or NaN. *)
Theorem jitter_is_never_negative fsum square (rs : list sample) st v :
  summarize_with fsum square rs = ret (Statistics st v) ->
  (std_dev st <? 0)%float = false.
Proof.
  intros H. destruct (summarize_with_returned _ _ _ _ _ H)
    as (r & rest & terms & _ & _ & Hsd & _).
  unfold math_sqrt in Hsd. destruct (_ <? 0)%float; [discriminate|].
  injection Hsd as <-. apply sqrt_not_negative.
Qed.

Lemma jitter_is_never_negative_witness :
  exists st v, summarize three_samples = ret (Statistics st v) /\
               (std_dev st <? 0)%float = false.
Proof.
  eexists. eexists. split; [vm_compute; reflexivity|].
  apply (jitter_is_never_negative py_sum float_sq three_samples _ ACCURATE).
  vm_compute. reflexivity.
Defined.

(** X13: when no recorded offset is NaN, the maximum and the minimum of
    the summary are recorded offsets, and no recorded offset lies above
    the one or below the other. *)
Theorem summary_extremes_bound_the_offsets fsum square (rs : list sample) st v :
  Forall (fun s => is_nan (offset s) = false) rs ->
  summarize_with fsum square rs = ret (Statistics st v) ->
  In (max_offset st) (map offset rs) /\
  In (min_offset st) (map offset rs) /\
  Forall (fun s => (max_offset st <? offset s)%float = false /\
                   (offset s <? min_offset st)%float = false) rs.
Proof.
  intros Hnan Hsum.
  destruct (summarize_with_returned _ _ _ _ _ Hsum)
    as (r & rs' & terms & -> & _ & _ & _ & _ & -> & -> & _).
  assert (Hall : Forall (fun y => is_nan y = false) (offset r :: map offset rs')).
  { change (offset r :: map offset rs') with (map offset (r :: rs')).
    apply Forall_forall. intros y Hy. apply in_map_iff in Hy.
    destruct Hy as (s & <- & Hs). rewrite Forall_forall in Hnan. now apply Hnan. }
  destruct (fold_max_min_spec (offset r) (map offset rs') Hall) as (Hhi & Hlo & Hb).
  cbn [map]. split; [exact Hhi|]. split; [exact Hlo|].
  apply Forall_forall. intros s Hs. rewrite Forall_forall in Hb.
  apply Hb. change (offset r :: map offset rs') with (map offset (r :: rs')).
  now apply in_map.
Qed.

Lemma summary_extremes_bound_the_offsets_witness :
  exists st v,
    summarize three_samples = ret (Statistics st v) /\
    In (max_offset st) (map offset three_samples) /\
    In (min_offset st) (map offset three_samples) /\
    Forall (fun s => (max_offset st <? offset s)%float = false /\
                     (offset s <? min_offset st)%float = false) three_samples.
Proof.
  eexists. eexists. split; [vm_compute; reflexivity|].
  apply (summary_extremes_bound_the_offsets py_sum float_sq three_samples _ ACCURATE).
  - repeat constructor.
  - vm_compute. reflexivity.
Defined.

(** *** More on offset and delay *)

Lemma sub_self (x : float) : finite x -> (x - x)%float = 0%float.
Proof.
  intros [q Hq]. apply Prim2SF_inj. rewrite sub_spec.
  unfold float_value in Hq. change (Prim2SF 0) with (S754_zero false).
  destruct (Prim2SF x) as [s|s| |s m e]; try discriminate.
  - now destruct s.
  - unfold SF64sub, SFsub. now rewrite Z.sub_diag.
Qed.

Lemma sub_zero (x y : float) : (x - (y - y))%float = x \/ ~ finite y.
Proof.
  destruct (float_value y) as [q|] eqn:Hy.
  - left. rewrite (sub_self y) by (now exists q).
    apply Prim2SF_inj. rewrite sub_spec. change (Prim2SF 0) with (S754_zero false).
    now destruct (Prim2SF x) as [[]|[]| |s m e].
  - right. intros [q Hq]. congruence.
Qed.

(** X14: a server that is in step with the client and answers at once
    (its two timestamps are the client's own) yields an offset and a
    delay of exactly zero: lines 68-69 leave no rounding residue. *)
Theorem synchronized_clocks_give_zero (t1 t4 : float) :
  finite t1 -> finite t4 -> finite (t4 - t1)%float ->
  offset_delay t1 t1 t4 t4 = ret {| offset := 0; delay := 0 |}.
Proof.
  intros H1 H4 Hd. unfold offset_delay, float_truediv_int. cbn [bind ret Z.eqb].
  rewrite (sub_self t1 H1), (sub_self t4 H4), (sub_self _ Hd). reflexivity.
Qed.

Lemma synchronized_clocks_give_zero_witness :
  offset_delay 1704067200.25 1704067200.25 1704067200.5 1704067200.5
  = ret {| offset := 0; delay := 0 |}.
Proof.
  apply synchronized_clocks_give_zero; eexists; vm_compute; reflexivity.
Defined.

(** X15: when the two timestamps of the server are the same finite
    number (no processing time is reported), the delay recorded is the
    client's round-trip time [t4 - t1] itself. *)
Theorem delay_without_processing_time (t1 t3 t4 : float) (s : sample) :
  finite t3 -> offset_delay t1 t3 t3 t4 = ret s ->
  delay s = (t4 - t1)%float.
Proof.
  intros H3 Hs. unfold offset_delay, float_truediv_int in Hs.
  cbn [bind ret Z.eqb] in Hs. injection Hs as <-. cbn [delay].
  destruct (sub_zero (t4 - t1) t3) as [E|N]; [exact E|contradiction].
Qed.

Lemma delay_without_processing_time_witness :
  exists s, offset_delay 1000 1000.5 1000.5 1000.25 = ret s /\ delay s = (1000.25 - 1000)%float.
Proof.
  eexists. split; [reflexivity|].
  apply (delay_without_processing_time 1000 1000.5 1000.25).
  - eexists. vm_compute. reflexivity.
  - reflexivity.
Defined.

(** *** The range of the decoder *)

(** What [get_ntp_time] returns on a pair, in units of 2^-1074. *)
Lemma get_ntp_time_units (s f : Z) :
  0 <= s < 2 ^ 32 -> 0 <= f < 2 ^ 32 ->
  exists x u,
    get_ntp_time (struct_pack_II s f) = ret x /\
    SFunits (Prim2SF x) = Some u /\
    Z.abs (u - ((s - NTP_DELTA) * 2 ^ 1074 + f * 2 ^ 1042)) <= 2 ^ 1052.
Proof.
  intros Hs Hf. unfold get_ntp_time.
  rewrite (struct_unpack_pack _ _ Hs Hf). cbn [bind ret int_truediv].
  change (2 ^ 32 =? 0) with false. cbv iota.
  change (2 ^ 32) with 4294967296 in Hs, Hf.
  set (a := s - NTP_DELTA).
  assert (Ha : -2208988800 <= a < 2085978496) by (unfold a, NTP_DELTA; lia).
  assert (Hux : SFunits (Prim2SF (float_of_int a)) = Some (a * 2 ^ 1074)).
  { apply float_of_int_units. change (2 ^ 53) with 9007199254740992. lia. }
  assert (Huy := fraction_units f ltac:(change (2 ^ 32) with 4294967296; lia)).
  assert (Hsum : a * 2 ^ 1074 + f * 2 ^ 1042 = (a * 4294967296 + f) * 2 ^ 1042).
  { change (2 ^ 1074) with (4294967296 * 2 ^ 1042). ring. }
  assert (HQ : 0 < 2 ^ 1042) by (apply Z.pow_pos_nonneg; lia).
  destruct (SFadd_units _ _ _ _ 1106 Hux Huy ltac:(lia)) as (u & Hu & Herr).
  { rewrite Hsum. destruct (Z.eq_dec (a * 4294967296 + f) 0) as [H0|Hne].
    - left. rewrite H0. reflexivity.
    - right. rewrite Z.abs_mul, (Z.abs_eq (2 ^ 1042)) by lia.
      change (2 ^ 52) with (2 ^ 52 * 1).
      change (2 ^ 1106) with (18446744073709551616 * 2 ^ 1042).
      assert (1 <= Z.abs (a * 4294967296 + f) < 18446744073709551616) by lia.
      assert (2 ^ 52 <= 2 ^ 1042) by (apply Z.pow_le_mono_r; lia).
      nia. }
  rewrite <- div_spec, <- add_spec in Hu.
  eexists. exists u. split; [reflexivity|]. split; [exact Hu|].
  change (1106 - 53) with 1053 in Herr.
  change (2 ^ 1053) with (2 * 2 ^ 1052) in Herr. lia.
Qed.

Lemma units_between (u lo hi : Z) :
  lo * 2 ^ 1074 <= u <= hi * 2 ^ 1074 ->
  (inject_Z lo <= inject_Z u / inject_Z (2 ^ 1074) <= inject_Z hi)%Q.
Proof.
  intros [Hlo Hhi]. pose proof units_positive as HP. split.
  - apply Qle_shift_div_l; [exact HP|]. rewrite <- inject_Z_mult. now rewrite <- Zle_Qle.
  - apply Qle_shift_div_r; [exact HP|]. rewrite <- inject_Z_mult. now rewrite <- Zle_Qle.
Qed.

(** X16: on any 8 bytes [get_ntp_time] returns a number, never NaN or
    an infinity, and that number lies between the years 1900 and 2036:
    with its 32-bit count of seconds the decoder cannot name a moment
    after 2036-02-07 06:28:16 UTC, 2085978496 seconds after the Unix
    epoch. *)
Theorem get_ntp_time_range (b : list Byte.byte) :
  List.length b = 8%nat ->
  exists x v, get_ntp_time b = ret x /\ float_value x = Some v /\
              (-2208988801 <= v <= 2085978497)%Q.
Proof.
  intros Hlen.
  destruct (eight_bytes_are_a_pair b Hlen) as (s & f & Hs & Hf & ->).
  destruct (get_ntp_time_units s f Hs Hf) as (x & u & Hx & Hu & Herr).
  destruct (SFunits_SF2Q _ _ Hu) as (v & Hv & Ev).
  exists x, v. split; [exact Hx|]. split; [exact Hv|].
  rewrite Ev. apply (units_between u (-2208988801) 2085978497).
  change (2 ^ 32) with 4294967296 in Hs, Hf. unfold NTP_DELTA in Herr.
  change (2 ^ 1074) with (4294967296 * 2 ^ 1042) in *.
  change (2 ^ 1052) with (1024 * 2 ^ 1042) in Herr.
  assert (HQ : 0 < 2 ^ 1042) by (apply Z.pow_pos_nonneg; lia).
  set (P := 2 ^ 1042) in *. clearbody P.
  nia.
Qed.

Lemma get_ntp_time_range_witness :
  exists x v, get_ntp_time (repeat Byte.xff 8) = ret x /\ float_value x = Some v /\
              (-2208988801 <= v <= 2085978497)%Q.
Proof. apply (get_ntp_time_range (repeat Byte.xff 8)). reflexivity. Defined.

(** *** Where the decoder is exact *)

(** Rounding within a binade: the result is within half a step of the
    number and lies on the grid of the binade, whose step is [2^(B-53)]. *)
Lemma binary_normalize_rounds (M ez B : Z) :
  -1074 <= ez -> 53 <= B <= 2097 ->
  2 ^ (B - 1) <= Z.abs (M * 2 ^ (ez + 1074)) < 2 ^ B ->
  exists u, SFunits (binary_normalize prec emax M ez false) = Some u /\
            2 * Z.abs (u - M * 2 ^ (ez + 1074)) <= 2 ^ (B - 53) /\
            (2 ^ (B - 53) | u).
Proof.
  intros Hez HB HU.
  assert (HQ : 0 < 2 ^ (ez + 1074)) by (apply Z.pow_pos_nonneg; lia).
  assert (Hmain : forall (s : bool) (p : positive),
             2 ^ (B - 1) <= Z.pos p * 2 ^ (ez + 1074) < 2 ^ B ->
             exists u, SFunits (binary_round prec emax s p ez) = Some u /\
               2 * Z.abs (u - (if s then Z.neg p else Z.pos p) * 2 ^ (ez + 1074))
                 <= 2 ^ (B - 53) /\
               (2 ^ (B - 53) | u)).
  { intros s p Hp. pose proof (digits2_pos_bounds p) as Hd.
    set (d := Z.pos (digits2_pos p)) in *.
    assert (Hd1 : B - 1 < d + ez + 1074).
    { apply pow2_lt_exponent; [lia|].
      replace (d + ez + 1074) with (d + (ez + 1074)) by lia.
      rewrite Z.pow_add_r by lia.
      eapply Z.le_lt_trans; [apply Hp|].
      apply Z.mul_lt_mono_pos_r; lia. }
    assert (Hd2 : d + ez + 1074 <= B).
    { assert (d - 1 + (ez + 1074) < B); [|lia].
      apply pow2_lt_exponent; [lia|]. rewrite Z.pow_add_r by lia.
      eapply Z.le_lt_trans; [|apply Hp].
      apply Z.mul_le_mono_nonneg_r; lia. }
    assert (HdB : d + ez + 1074 = B) by lia.
    destruct (binary_round_spec s p ez (-1074))
      as (m' & e' & Hr & He & He' & _ & _ & Herr); try (fold d; lia).
    fold d in Herr, He'. rewrite Hr, SFunits_finite by lia.
    replace (e' - -1074) with (e' + 1074) in Herr by lia.
    replace (ez - -1074) with (ez + 1074) in Herr by lia.
    replace (d + ez - 53 - -1074) with (B - 53) in Herr by lia.
    assert (Hgrid : (2 ^ (B - 53) | Z.pos m' * 2 ^ (e' + 1074))).
    { replace (e' + 1074) with ((e' + 1074 - (B - 53)) + (B - 53)) by lia.
      rewrite Z.pow_add_r by lia. rewrite Z.mul_assoc. apply Z.divide_factor_r. }
    eexists. split; [reflexivity|]. destruct s.
    - change (Z.neg m') with (- Z.pos m'). change (Z.neg p) with (- Z.pos p).
      rewrite !Z.mul_opp_l. split; [|now apply Z.divide_opp_r].
      replace (- (Z.pos m' * 2 ^ (e' + 1074)) - - (Z.pos p * 2 ^ (ez + 1074)))
        with (- (Z.pos m' * 2 ^ (e' + 1074) - Z.pos p * 2 ^ (ez + 1074))) by ring.
      now rewrite Z.abs_opp.
    - now split. }
  destruct M as [|p|p]; cbn [binary_normalize].
  - exfalso. cbn in HU. assert (0 < 2 ^ (B - 1)) by (apply Z.pow_pos_nonneg; lia). lia.
  - apply (Hmain false p). rewrite Z.abs_eq in HU by lia. exact HU.
  - apply (Hmain true p). change (Z.neg p) with (- Z.pos p) in HU.
    rewrite Z.mul_opp_l, Z.abs_opp, Z.abs_eq in HU by lia. exact HU.
Qed.

(** A float of a binade lies on the grid of that binade. *)
Lemma valid_on_grid (s : bool) (m : positive) (e u B : Z) :
  valid_binary (S754_finite s m e) = true ->
  SFunits (S754_finite s m e) = Some u ->
  53 <= B -> 2 ^ (B - 1) <= Z.abs u -> (2 ^ (B - 53) | u).
Proof.
  intros Hv Hs HB Hu. apply SFunits_finite_inv in Hs. destruct Hs as [He ->].
  apply valid_finite in Hv. destruct Hv as (_ & Hd & _).
  pose proof (digits2_pos_bounds m) as HBm.
  assert (Hm53 : Z.pos m < 2 ^ 53).
  { eapply Z.lt_le_trans; [apply HBm|]. apply Z.pow_le_mono_r; lia. }
  assert (Habs : Z.abs ((if s then Z.neg m else Z.pos m) * 2 ^ (e + 1074))
                 = Z.pos m * 2 ^ (e + 1074)).
  { rewrite Z.abs_mul, (Z.abs_eq (2 ^ (e + 1074))) by (apply Z.pow_nonneg; lia).
    now destruct s. }
  rewrite Habs in Hu.
  assert (He1 : B - 1 < 53 + (e + 1074)).
  { apply pow2_lt_exponent; [lia|]. rewrite Z.pow_add_r by lia.
    eapply Z.le_lt_trans; [exact Hu|].
    apply Z.mul_lt_mono_pos_r; [apply Z.pow_pos_nonneg; lia|exact Hm53]. }
  replace (e + 1074) with ((e + 1074 - (B - 53)) + (B - 53)) by lia.
  rewrite Z.pow_add_r by lia. rewrite Z.mul_assoc. apply Z.divide_factor_r.
Qed.

(** The sum of two finite floats, rounded within its binade. *)
Lemma add_rounds (x y : float) (ux uy B : Z) :
  SFunits (Prim2SF x) = Some ux -> SFunits (Prim2SF y) = Some uy ->
  53 <= B <= 2097 -> 2 ^ (B - 1) <= Z.abs (ux + uy) < 2 ^ B ->
  exists u, SFunits (Prim2SF (x + y)) = Some u /\
            2 * Z.abs (u - (ux + uy)) <= 2 ^ (B - 53) /\
            (2 ^ (B - 53) | u).
Proof.
  intros Hx Hy HB HU. rewrite add_spec.
  pose proof (Prim2SF_valid x) as Vx. pose proof (Prim2SF_valid y) as Vy.
  assert (HG : 0 < 2 ^ (B - 53)) by (apply Z.pow_pos_nonneg; lia).
  assert (HG1 : 0 < 2 ^ (B - 1)) by (apply Z.pow_pos_nonneg; lia).
  assert (Hsame : forall r, SFunits r = Some (ux + uy) -> (2 ^ (B - 53) | ux + uy) ->
            exists u, SFunits r = Some u /\
                      2 * Z.abs (u - (ux + uy)) <= 2 ^ (B - 53) /\ (2 ^ (B - 53) | u)).
  { intros r Hr Hd. exists (ux + uy). rewrite Z.sub_diag. split; [exact Hr|].
    split; [cbn; lia|exact Hd]. }
  destruct (Prim2SF x) as [sx|sx| |sx mx ex]; try discriminate;
    destruct (Prim2SF y) as [sy|sy| |sy my ey]; try discriminate.
  - exfalso. cbn in Hx, Hy. inversion Hx; inversion Hy; subst. cbn in HU. lia.
  - cbn in Hx. inversion Hx; subst. cbn [Z.add] in *.
    apply Hsame; [exact Hy|]. apply (valid_on_grid sy my ey); (assumption || lia).
  - cbn in Hy. inversion Hy; subst. rewrite Z.add_0_r in *.
    apply Hsame; [exact Hx|]. apply (valid_on_grid sx mx ex); (assumption || lia).
  - apply SFunits_finite_inv in Hx, Hy. destruct Hx as [Hex ->], Hy as [Hey ->].
    unfold SF64add, SFadd.
    set (ez := Z.min ex ey).
    rewrite !shl_align_fst by lia.
    set (M := cond_Zopp sx (Z.pos mx * 2 ^ (ex - ez))
              + cond_Zopp sy (Z.pos my * 2 ^ (ey - ez))).
    assert (HM : (if sx then Z.neg mx else Z.pos mx) * 2 ^ (ex + 1074)
                 + (if sy then Z.neg my else Z.pos my) * 2 ^ (ey + 1074)
                 = M * 2 ^ (ez + 1074)).
    { unfold M.
      assert (Hpx : 2 ^ (ex + 1074) = 2 ^ (ex - ez) * 2 ^ (ez + 1074))
        by (rewrite <- Z.pow_add_r by lia; f_equal; lia).
      assert (Hpy : 2 ^ (ey + 1074) = 2 ^ (ey - ez) * 2 ^ (ez + 1074))
        by (rewrite <- Z.pow_add_r by lia; f_equal; lia).
      rewrite Hpx, Hpy.
      destruct sx, sy; cbn [cond_Zopp];
        change (Z.neg mx) with (- Z.pos mx); change (Z.neg my) with (- Z.pos my); ring. }
    rewrite HM in *.
    apply binary_normalize_rounds; try assumption. lia.
Qed.

(** Two points of a grid that are at most half a step apart are one. *)
Lemma grid_nearest (G u v : Z) :
  0 < G -> (G | u) -> (G | v) -> 2 * Z.abs (u - v) <= G -> u = v.
Proof.
  intros HG [k ->] [k' ->] H.
  rewrite <- Z.mul_sub_distr_r, Z.abs_mul, (Z.abs_eq G) in H by lia.
  destruct (Z.eq_dec k k') as [->|N]; [reflexivity|exfalso].
  assert (1 <= Z.abs (k - k')) by lia.
  assert (G * 1 <= Z.abs (k - k') * G)
    by (rewrite (Z.mul_comm G); apply Z.mul_le_mono_nonneg_r; lia).
  lia.
Qed.

(** The sum of two finite floats is exact when it lies on the grid of
    its binade. *)
Lemma add_on_grid (x y : float) (ux uy B : Z) :
  SFunits (Prim2SF x) = Some ux -> SFunits (Prim2SF y) = Some uy ->
  53 <= B <= 2097 ->
  ux + uy = 0 \/
  (2 ^ (B - 1) <= Z.abs (ux + uy) < 2 ^ B /\ (2 ^ (B - 53) | ux + uy)) ->
  SFunits (Prim2SF (x + y)) = Some (ux + uy).
Proof.
  intros Hx Hy HB [H0|[HU Hd]].
  - destruct (SFadd_units _ _ _ _ 53 Hx Hy ltac:(lia) (or_introl H0)) as (u & Hu & Herr).
    rewrite <- add_spec in Hu. rewrite Hu. f_equal.
    rewrite H0 in *. change (2 ^ (53 - 53)) with 1 in Herr. lia.
  - destruct (add_rounds x y ux uy B Hx Hy HB HU) as (u & Hu & Herr & Hg).
    rewrite Hu. f_equal.
    apply (grid_nearest (2 ^ (B - 53))); try assumption.
    apply Z.pow_pos_nonneg; lia.
Qed.

(** A 53-bit multiple of [2^g] lies on the grid of its binade. *)
Lemma on_grid_binade (k g : Z) :
  52 <= g <= 2044 -> k <> 0 -> Z.abs k < 2 ^ 53 ->
  exists B, 53 <= B <= 2097 /\
            2 ^ (B - 1) <= Z.abs (k * 2 ^ g) < 2 ^ B /\
            (2 ^ (B - 53) | k * 2 ^ g).
Proof.
  intros Hg Hne Hk. set (L := Z.log2 (Z.abs k)).
  assert (HL : 2 ^ L <= Z.abs k < 2 ^ (L + 1)).
  { pose proof (Z.log2_spec (Z.abs k) ltac:(lia)) as H. unfold L.
    now rewrite <- Z.add_1_r in H. }
  assert (HL0 : 0 <= L) by apply Z.log2_nonneg.
  assert (HL1 : L < 53) by (apply (Z.pow_lt_mono_r_iff 2); lia).
  assert (HQ : 0 < 2 ^ g) by (apply Z.pow_pos_nonneg; lia).
  exists (L + 1 + g). split; [lia|]. split.
  - rewrite Z.abs_mul, (Z.abs_eq (2 ^ g)) by lia.
    replace (L + 1 + g - 1) with (L + g) by lia.
    rewrite !Z.pow_add_r by lia. rewrite Z.pow_add_r in HL by lia.
    set (P := 2 ^ g) in *. clearbody P.
    split; [apply Z.mul_le_mono_nonneg_r|apply Z.mul_lt_mono_pos_r]; lia.
  - assert (E : 2 ^ g = 2 ^ (52 - L) * 2 ^ (L + 1 + g - 53))
      by (rewrite <- Z.pow_add_r by lia; f_equal; lia).
    rewrite E, Z.mul_assoc. apply Z.divide_factor_r.
Qed.

(** Adding two multiples of [2^g] units is exact as long as the sum
    fits in 53 bits. *)
Lemma add_grid (x y : float) (kx ky g : Z) :
  52 <= g <= 2044 ->
  SFunits (Prim2SF x) = Some (kx * 2 ^ g) -> SFunits (Prim2SF y) = Some (ky * 2 ^ g) ->
  Z.abs (kx + ky) < 2 ^ 53 ->
  SFunits (Prim2SF (x + y)) = Some ((kx + ky) * 2 ^ g).
Proof.
  intros Hg Hx Hy Hk. rewrite Z.mul_add_distr_r.
  destruct (Z.eq_dec (kx + ky) 0) as [H0|Hne].
  - apply (add_on_grid x y _ _ 53 Hx Hy); [lia|]. left.
    rewrite <- Z.mul_add_distr_r, H0. reflexivity.
  - destruct (on_grid_binade (kx + ky) g Hg Hne Hk) as (B & HB & Hb & Hd).
    apply (add_on_grid x y _ _ B Hx Hy HB). right.
    rewrite <- Z.mul_add_distr_r. now split.
Qed.

(** X17: a timestamp whose fraction is a multiple of 2048 (a whole
    number of units of 2^-21 s, whole seconds among them) is decoded
    without any rounding: the float returned is the number
    [(seconds - 2208988800) + fraction / 2^32] itself. *)
Theorem get_ntp_time_exact_on_grid (s f : Z) :
  0 <= s < 2 ^ 32 -> 0 <= f < 2 ^ 32 -> f mod 2048 = 0 ->
  exists x, get_ntp_time (struct_pack_II s f) = ret x /\
            within 0 x (unix_seconds s f).
Proof.
  intros Hs Hf Hmod. unfold get_ntp_time.
  rewrite (struct_unpack_pack _ _ Hs Hf). cbn [bind ret int_truediv].
  change (2 ^ 32 =? 0) with false. cbv iota.
  eexists. split; [reflexivity|].
  change (2 ^ 32) with 4294967296 in Hs, Hf.
  set (a := s - NTP_DELTA).
  assert (Ha : -2208988800 <= a < 2085978496) by (unfold a, NTP_DELTA; lia).
  assert (Hux : SFunits (Prim2SF (float_of_int a)) = Some (a * 2 ^ 1074)).
  { apply float_of_int_units. change (2 ^ 53) with 9007199254740992. lia. }
  assert (Huy := fraction_units f ltac:(change (2 ^ 32) with 4294967296; lia)).
  apply Z.mod_divide in Hmod; [|lia]. destruct Hmod as [g Hg].
  assert (Ea : a * 2 ^ 1074 = (a * 2097152) * 2 ^ 1053).
  { change (2 ^ 1074) with (2097152 * 2 ^ 1053). ring. }
  assert (Ef : f * 2 ^ 1042 = g * 2 ^ 1053).
  { rewrite Hg. change (2 ^ 1053) with (2048 * 2 ^ 1042). ring. }
  assert (Hu := Hux). rewrite Ea in Hu. rewrite Ef, <- div_spec in Huy.
  apply (add_grid _ _ _ _ 1053 ltac:(lia) Hu) in Huy;
    [|change (2 ^ 53) with 9007199254740992; lia].
  rewrite Z.mul_add_distr_r, <- Ea, <- Ef in Huy.
  apply (within_of_units _ _ (a * 2 ^ 1074 + f * 2 ^ 1042) _ _ Huy).
  - apply unix_seconds_units.
  - rewrite Z.sub_diag. cbn. apply Qle_refl.
Qed.

Lemma get_ntp_time_exact_on_grid_witness :
  exists x, get_ntp_time (struct_pack_II 3913056000 3221225472) = ret x /\
            within 0 x (unix_seconds 3913056000 3221225472).
Proof.
  apply (get_ntp_time_exact_on_grid 3913056000 3221225472);
    [split; reflexivity || discriminate ..|reflexivity].
Defined.

(** *** Where offset and delay are exact *)

Lemma SFopp_units (y : spec_float) (u : Z) :
  SFunits y = Some u -> SFunits (SFopp y) = Some (- u).
Proof.
  destruct y as [s|s| |s m e]; try discriminate.
  - intros [= <-]. reflexivity.
  - intros H. apply SFunits_finite_inv in H. destruct H as [He ->].
    cbn [SFopp]. rewrite SFunits_finite by exact He. f_equal.
    destruct s; cbn [negb]; change (Z.neg m) with (- Z.pos m); ring.
Qed.

Lemma SFsub_units_add (x y : spec_float) :
  SFunits (SF64sub x y) = SFunits (SF64add x (SFopp y)).
Proof.
  destruct x as [sx|sx| |sx mx ex], y as [sy|sy| |sy my ey]; try reflexivity.
  - now destruct sx, sy.
  - now destruct sx, sy.
  - unfold SF64sub, SF64add, SFsub, SFadd. cbn [SFopp].
    f_equal. f_equal. unfold Z.sub. f_equal. now destruct sy.
Qed.

Lemma sub_grid (x y : float) (kx ky g : Z) :
  52 <= g <= 2044 ->
  SFunits (Prim2SF x) = Some (kx * 2 ^ g) -> SFunits (Prim2SF y) = Some (ky * 2 ^ g) ->
  Z.abs (kx - ky) < 2 ^ 53 ->
  SFunits (Prim2SF (x - y)) = Some ((kx - ky) * 2 ^ g).
Proof.
  intros Hg Hx Hy Hk. rewrite sub_spec, SFsub_units_add, <- opp_spec, <- add_spec.
  apply SFopp_units in Hy. rewrite <- Z.mul_opp_l, <- opp_spec in Hy.
  exact (add_grid x (- y) kx (- ky) g Hg Hx Hy Hk).
Qed.

Lemma two_float : Prim2SF (float_of_int 2) = S754_finite false 4503599627370496 (-51).
Proof. vm_compute. reflexivity. Qed.

(** Halving a normal number only lowers its exponent. *)
Lemma SFdiv_two (s : bool) (m : positive) (e : Z) :
  Z.pos (digits2_pos m) = 53 -> -1018 <= e <= 900 ->
  SF64div (S754_finite s m e) (S754_finite false 4503599627370496 (-51)) =
  S754_finite s m (e - 1).
Proof.
  intros Hd He. unfold SF64div, SFdiv, SFdiv_core_binary.
  cbn [Zdigits2]. rewrite xorb_false_r. rewrite Hd.
  change (Z.pos (digits2_pos 4503599627370496)) with 53.
  replace (53 + e - (53 + -51)) with (e + 51) by lia.
  rewrite fexp_normal by lia.
  replace (Z.min (e + 51 - 53) (e - -51)) with (e - 2) by lia.
  replace (e - -51 - (e - 2)) with 53 by lia.
  rewrite Z.shiftl_mul_pow2 by lia.
  replace (Z.pos m * 2 ^ 53) with ((2 * Z.pos m) * Z.pos 4503599627370496)
    by (change (2 ^ 53) with (2 * Z.pos 4503599627370496); ring).
  rewrite div_eucl_exact by lia.
  change (new_location (Z.pos 4503599627370496) 0) with loc_Exact.
  change (2 * Z.pos m) with (Z.pos m~0).
  unfold binary_round_aux, shr_fexp. cbn [Zdigits2 digits2_pos].
  rewrite Pos2Z.inj_succ, Hd. rewrite fexp_normal by lia.
  replace (Z.succ 53 + (e - 2) - 53 - (e - 2)) with 1 by lia.
  cbn [shr_record_of_loc shr iter_pos shr_1 loc_of_shr_record round_nearest_even shr_m orb].
  cbn [Zdigits2]. rewrite Hd. rewrite fexp_normal by lia.
  replace (53 + (e - 2 + 1) - 53 - (e - 2 + 1)) with 0 by lia.
  cbn [shr shr_m].
  assert (Hle : (e - 2 + 1 <=? emax - prec) = true)
    by (apply Z.leb_le; unfold emax, prec; lia).
  rewrite Hle. f_equal. lia.
Qed.

(** Halving a float that is a 53-bit multiple of [2^g] units. *)
Lemma half_units (x : float) (k g : Z) :
  108 <= g <= 1900 -> Z.abs k < 2 ^ 53 ->
  SFunits (Prim2SF x) = Some (k * 2 ^ g) ->
  SFunits (Prim2SF (x / float_of_int 2)) = Some (k * 2 ^ (g - 1)).
Proof.
  intros Hg Hk Hu. rewrite div_spec, two_float.
  pose proof (Prim2SF_valid x) as Hv.
  assert (HQ : 0 < 2 ^ g) by (apply Z.pow_pos_nonneg; lia).
  destruct (Prim2SF x) as [s|s| |s m e]; try discriminate.
  - cbn in Hu. injection Hu as Hu. assert (k = 0) as -> by nia.
    now destruct s.
  - apply SFunits_finite_inv in Hu. destruct Hu as [He Hu].
    apply valid_finite in Hv. destruct Hv as (_ & Hd & Hn).
    pose proof (digits2_pos_bounds m) as HB.
    assert (Habs : Z.pos m * 2 ^ (e + 1074) = Z.abs k * 2 ^ g).
    { rewrite <- (Z.abs_eq (2 ^ g)) by lia. rewrite <- Z.abs_mul, Hu.
      rewrite Z.abs_mul, (Z.abs_eq (2 ^ (e + 1074))) by (apply Z.pow_nonneg; lia).
      now destruct s. }
    assert (Hk0 : 1 <= Z.abs k).
    { assert (0 < Z.pos m * 2 ^ (e + 1074))
        by (apply Z.mul_pos_pos; [lia|apply Z.pow_pos_nonneg; lia]).
      destruct (Z.eq_dec k 0) as [->|]; [|lia].
      change (Z.abs 0 * 2 ^ g) with 0 in Habs. lia. }
    assert (Hm53 : Z.pos m < 2 ^ 53).
    { eapply Z.lt_le_trans; [apply HB|]. apply Z.pow_le_mono_r; lia. }
    assert (He1 : g - 53 < e + 1074).
    { apply pow2_lt_exponent; [lia|].
      assert (H1 : 2 ^ g <= Z.pos m * 2 ^ (e + 1074)).
      { rewrite Habs. rewrite <- (Z.mul_1_l (2 ^ g)) at 1.
        apply Z.mul_le_mono_nonneg_r; lia. }
      assert (H2 : Z.pos m * 2 ^ (e + 1074) < 2 ^ 53 * 2 ^ (e + 1074)).
      { apply Z.mul_lt_mono_pos_r; [apply Z.pow_pos_nonneg; lia|exact Hm53]. }
      assert (H3 : 2 ^ g = 2 ^ 53 * 2 ^ (g - 53))
        by (rewrite <- Z.pow_add_r by lia; f_equal; lia).
      rewrite H3 in H1.
      assert (H53 : 0 < 2 ^ 53) by reflexivity.
      set (T := 2 ^ 53) in *. clearbody T.
      apply (Z.mul_lt_mono_pos_l T); lia. }
    specialize (Hn ltac:(lia)). rewrite Hn in HB. change (53 - 1) with 52 in HB.
    assert (He2 : e + 1074 < g + 1).
    { apply pow2_lt_exponent; [lia|].
      assert (H1 : 2 ^ 52 * 2 ^ (e + 1074) <= Z.pos m * 2 ^ (e + 1074)).
      { apply Z.mul_le_mono_nonneg_r; [apply Z.pow_nonneg; lia|lia]. }
      assert (H2 : Z.abs k * 2 ^ g < 2 ^ 53 * 2 ^ g)
        by (apply Z.mul_lt_mono_pos_r; lia).
      assert (H3 : 2 ^ (g + 1) = 2 * 2 ^ g)
        by (rewrite Z.pow_add_r by lia; change (2 ^ 1) with 2; ring).
      rewrite H3. rewrite Habs in H1.
      change (2 ^ 53) with (2 * 2 ^ 52) in H2.
      assert (H52 : 0 < 2 ^ 52) by reflexivity.
      set (T := 2 ^ 52) in *. set (P := 2 ^ (e + 1074)) in *. set (G := 2 ^ g) in *.
      clearbody T P G.
      apply (Z.mul_lt_mono_pos_l T); [lia|].
      replace (T * (2 * G)) with (2 * T * G) by ring. lia. }
    rewrite SFdiv_two by (assumption || lia).
    rewrite SFunits_finite by lia. f_equal.
    assert (E1 : 2 ^ (e + 1074) = 2 * 2 ^ (e - 1 + 1074)).
    { replace (e + 1074) with (1 + (e - 1 + 1074)) by lia.
      rewrite Z.pow_add_r by lia. reflexivity. }
    assert (E2 : 2 ^ g = 2 * 2 ^ (g - 1)).
    { replace g with (1 + (g - 1)) at 1 by lia.
      rewrite Z.pow_add_r by lia. reflexivity. }
    rewrite E1, E2 in Hu. lia.
Qed.

Lemma units_bounds_inv (u lo hi : Z) :
  (inject_Z lo <= inject_Z u / inject_Z (2 ^ 1074))%Q ->
  (inject_Z u / inject_Z (2 ^ 1074) < inject_Z hi)%Q ->
  lo * 2 ^ 1074 <= u < hi * 2 ^ 1074.
Proof.
  pose proof units_positive as HP. intros Hlo Hhi.
  assert (E : (inject_Z u / inject_Z (2 ^ 1074) * inject_Z (2 ^ 1074) == inject_Z u)%Q).
  { unfold Qdiv. rewrite <- Qmult_assoc, (Qmult_comm (/ _)), Qmult_inv_r, Qmult_1_r.
    - reflexivity.
    - intros H. rewrite H in HP. discriminate. }
  split.
  - apply (Qmult_le_r _ _ _ HP) in Hlo. rewrite E, <- inject_Z_mult in Hlo.
    now rewrite <- Zle_Qle in Hlo.
  - apply (Qmult_lt_r _ _ _ HP) in Hhi. rewrite E, <- inject_Z_mult in Hhi.
    now rewrite <- Zlt_Qlt in Hhi.
Qed.

(** A clock reading of this era is a 53-bit multiple of 2^-22 s. *)
Lemma clock_reading_units (t : float) (v : Q) :
  clock_reading t v ->
  exists k, SFunits (Prim2SF t) = Some (k * 2 ^ 1052) /\ 2 ^ 52 <= k < 2 ^ 53 /\
            (v == inject_Z (k * 2 ^ 1052) / inject_Z (2 ^ 1074))%Q.
Proof.
  unfold clock_reading, float_value. intros (Hv & Hlo & Hhi).
  pose proof (Prim2SF_valid t) as Hval.
  destruct (Prim2SF t) as [s|s| |s m e]; try discriminate.
  { cbn in Hv. injection Hv as <-. exfalso. apply Qle_bool_iff in Hlo. discriminate. }
  apply valid_finite in Hval. destruct Hval as (He & Hd & Hn).
  destruct (SFunits_SF2Q _ _ (SFunits_finite s m e He)) as (v' & Hv' & Ev).
  rewrite Hv in Hv'. injection Hv' as <-.
  rewrite Ev in Hlo, Hhi.
  destruct (units_bounds_inv _ 1073741824 2147483648 Hlo Hhi) as [Ulo Uhi].
  change (1073741824 * 2 ^ 1074) with (2 ^ 1104) in Ulo.
  change (2147483648 * 2 ^ 1074) with (2 ^ 1105) in Uhi.
  assert (HP : 0 < 2 ^ (e + 1074)) by (apply Z.pow_pos_nonneg; lia).
  assert (H1104 : 0 < 2 ^ 1104) by (apply Z.pow_pos_nonneg; lia).
  destruct s.
  { exfalso. change (Z.neg m) with (- Z.pos m) in Ulo.
    assert (0 < Z.pos m * 2 ^ (e + 1074)) by (apply Z.mul_pos_pos; lia).
    set (P := 2 ^ 1104) in *. clearbody P. lia. }
  pose proof (digits2_pos_bounds m) as HB.
  assert (Hm53 : Z.pos m < 2 ^ 53).
  { eapply Z.lt_le_trans; [apply HB|]. apply Z.pow_le_mono_r; lia. }
  assert (He1 : 1104 < 53 + (e + 1074)).
  { apply pow2_lt_exponent; [lia|]. rewrite Z.pow_add_r by lia.
    eapply Z.le_lt_trans; [exact Ulo|]. apply Z.mul_lt_mono_pos_r; assumption. }
  specialize (Hn ltac:(lia)). rewrite Hn in HB. change (53 - 1) with 52 in HB.
  assert (He2 : 52 + (e + 1074) < 1105).
  { apply pow2_lt_exponent; [lia|]. rewrite Z.pow_add_r by lia.
    eapply Z.le_lt_trans; [|exact Uhi]. apply Z.mul_le_mono_nonneg_r; lia. }
  assert (e = -22) as -> by lia.
  exists (Z.pos m). change (-22 + 1074) with 1052 in *.
  split; [apply SFunits_finite; lia|]. split; [lia|exact Ev].
Qed.

(** Lines 68-69 on four 53-bit multiples of 2^-22 s: every operation
    is exact. *)
Lemma offset_delay_units (t1 t2 t3 t4 : float) (k1 k2 k3 k4 : Z) :
  SFunits (Prim2SF t1) = Some (k1 * 2 ^ 1052) -> 2 ^ 52 <= k1 < 2 ^ 53 ->
  SFunits (Prim2SF t2) = Some (k2 * 2 ^ 1052) -> 2 ^ 52 <= k2 < 2 ^ 53 ->
  SFunits (Prim2SF t3) = Some (k3 * 2 ^ 1052) -> 2 ^ 52 <= k3 < 2 ^ 53 ->
  SFunits (Prim2SF t4) = Some (k4 * 2 ^ 1052) -> 2 ^ 52 <= k4 < 2 ^ 53 ->
  offset_delay t1 t2 t3 t4 =
    ret {| offset := ((t2 - t1) + (t3 - t4)) / float_of_int 2;
           delay := (t4 - t1) - (t3 - t2) |} /\
  SFunits (Prim2SF (((t2 - t1) + (t3 - t4)) / float_of_int 2))
    = Some ((k2 - k1 + (k3 - k4)) * 2 ^ 1051) /\
  SFunits (Prim2SF ((t4 - t1) - (t3 - t2)))
    = Some ((k4 - k1 - (k3 - k2)) * 2 ^ 1052).
Proof.
  intros U1 B1 U2 B2 U3 B3 U4 B4.
  change (2 ^ 52) with 4503599627370496 in B1, B2, B3, B4.
  change (2 ^ 53) with 9007199254740992 in B1, B2, B3, B4.
  assert (Hg : 52 <= 1052 <= 2044) by lia.
  assert (T53 : 2 ^ 53 = 9007199254740992) by reflexivity.
  pose proof (sub_grid _ _ k4 k1 1052 Hg U4 U1 ltac:(rewrite T53; lia)) as H41.
  pose proof (sub_grid _ _ k3 k2 1052 Hg U3 U2 ltac:(rewrite T53; lia)) as H32.
  pose proof (sub_grid _ _ k2 k1 1052 Hg U2 U1 ltac:(rewrite T53; lia)) as H21.
  pose proof (sub_grid _ _ k3 k4 1052 Hg U3 U4 ltac:(rewrite T53; lia)) as H34.
  pose proof (sub_grid _ _ _ _ 1052 Hg H41 H32 ltac:(rewrite T53; lia)) as Hdelay.
  pose proof (add_grid _ _ _ _ 1052 Hg H21 H34 ltac:(rewrite T53; lia)) as Hsum.
  pose proof (half_units _ (k2 - k1 + (k3 - k4)) 1052 ltac:(lia)
                ltac:(rewrite T53; lia) Hsum) as Hoff.
  change (1052 - 1) with 1051 in Hoff.
  split; [reflexivity|]. split; assumption.
Qed.

(** X18: for clock readings of this era (2004 to 2038) lines 68-69 are
    computed without any rounding: the offset and the delay recorded are
    the numbers [((t2 - t1) + (t3 - t4)) / 2] and [(t4 - t1) - (t3 - t2)]
    themselves. *)
Theorem offset_delay_exact_in_this_era (t1 t2 t3 t4 : float) (v1 v2 v3 v4 : Q) :
  clock_reading t1 v1 -> clock_reading t2 v2 ->
  clock_reading t3 v3 -> clock_reading t4 v4 ->
  exists s, offset_delay t1 t2 t3 t4 = ret s /\
            within 0 (offset s) (((v2 - v1) + (v3 - v4)) / 2) /\
            within 0 (delay s) ((v4 - v1) - (v3 - v2)).
Proof.
  intros C1 C2 C3 C4.
  destruct (clock_reading_units _ _ C1) as (k1 & U1 & B1 & E1).
  destruct (clock_reading_units _ _ C2) as (k2 & U2 & B2 & E2).
  destruct (clock_reading_units _ _ C3) as (k3 & U3 & B3 & E3).
  destruct (clock_reading_units _ _ C4) as (k4 & U4 & B4 & E4).
  destruct (offset_delay_units _ _ _ _ _ _ _ _ U1 B1 U2 B2 U3 B3 U4 B4)
    as (Hs & Hoff & Hdelay).
  eexists. split; [exact Hs|]. cbn [offset delay].
  pose proof units_positive as HP.
  assert (HP0 : ~ (inject_Z (2 ^ 1074) == 0)%Q)
    by (intros H; rewrite H in HP; discriminate).
  assert (HG : (inject_Z (2 ^ 1052) == 2 * inject_Z (2 ^ 1051))%Q).
  { change (2 ^ 1052) with (2 * 2 ^ 1051). now rewrite inject_Z_mult. }
  rewrite inject_Z_mult, HG in E1, E2, E3, E4.
  split.
  - apply (within_of_units _ _ ((k2 - k1 + (k3 - k4)) * 2 ^ 1051) _ _ Hoff).
    + rewrite E1, E2, E3, E4.
      unfold Z.sub. rewrite inject_Z_mult.
      repeat (rewrite inject_Z_plus || rewrite inject_Z_opp).
      generalize dependent (inject_Z (2 ^ 1074)). generalize (inject_Z (2 ^ 1051)).
      intros h p. intros. field. assumption.
    + rewrite Z.sub_diag. cbn. apply Qle_refl.
  - apply (within_of_units _ _ ((k4 - k1 - (k3 - k2)) * 2 ^ 1052) _ _ Hdelay).
    + rewrite E1, E2, E3, E4.
      unfold Z.sub. rewrite inject_Z_mult, HG.
      repeat (rewrite inject_Z_plus || rewrite inject_Z_opp).
      generalize dependent (inject_Z (2 ^ 1074)). generalize (inject_Z (2 ^ 1051)).
      intros h p. intros. field. assumption.
    + rewrite Z.sub_diag. cbn. apply Qle_refl.
Qed.

Lemma offset_delay_exact_in_this_era_witness :
  let v1 := (7147375874277376 # 4194304)%Q in
  let v2 := (7147375875325952 # 4194304)%Q in
  let v3 := (7147375876374528 # 4194304)%Q in
  let v4 := (7147375877423104 # 4194304)%Q in
  exists s, offset_delay 1704067200.25 1704067200.5 1704067200.75 1704067201 = ret s /\
            within 0 (offset s) (((v2 - v1) + (v3 - v4)) / 2) /\
            within 0 (delay s) ((v4 - v1) - (v3 - v2)).
Proof.
  apply (offset_delay_exact_in_this_era
           1704067200.25 1704067200.5 1704067200.75 1704067201);
    (split; [vm_compute; reflexivity|]);
    (split; [apply Qle_bool_imp_le; vm_compute; reflexivity|]);
    reflexivity.
Defined.

(** *** The accuracy of a measurement *)

(** Decoding a timestamp of this era: the result is a 53-bit multiple of
    2^-22 s, within 2^-23 s of the timestamp ([k] counts units of 2^-22 s,
    the timestamp units of 2^-32 s). *)
Lemma get_ntp_time_era (s f : Z) :
  era_stamp s f ->
  exists t k,
    get_ntp_time (struct_pack_II s f) = ret t /\
    SFunits (Prim2SF t) = Some (k * 2 ^ 1052) /\ 2 ^ 52 <= k < 2 ^ 53 /\
    Z.abs (k * 1024 - ((s - NTP_DELTA) * 2 ^ 32 + f)) <= 512.
Proof.
  intros [Hs Hf]. unfold get_ntp_time.
  assert (Hs' : 0 <= s < 2 ^ 32).
  { change (2 ^ 30) with 1073741824 in Hs. unfold NTP_DELTA in Hs. lia. }
  rewrite (struct_unpack_pack _ _ Hs' Hf).
  cbn [bind ret int_truediv]. change (2 ^ 32 =? 0) with false. cbv iota.
  change (2 ^ 32) with 4294967296 in *. change (2 ^ 30) with 1073741824 in Hs.
  set (a := s - NTP_DELTA).
  assert (Ha : 1073741824 <= a < 2085978496) by (unfold a, NTP_DELTA in *; lia).
  assert (Hux : SFunits (Prim2SF (float_of_int a)) = Some (a * 2 ^ 1074)).
  { apply float_of_int_units. change (2 ^ 53) with 9007199254740992. lia. }
  assert (Huy := fraction_units f ltac:(change (2 ^ 32) with 4294967296; lia)).
  change (2 ^ 32) with 4294967296 in Huy. rewrite <- div_spec in Huy.
  assert (Hsum : a * 2 ^ 1074 + f * 2 ^ 1042 = (a * 4294967296 + f) * 2 ^ 1042).
  { change (2 ^ 1074) with (4294967296 * 2 ^ 1042). ring. }
  assert (HQ : 0 < 2 ^ 1042) by (apply Z.pow_pos_nonneg; lia).
  destruct (add_rounds _ _ _ _ 1105 Hux Huy ltac:(lia)) as (u & Hu & Herr & [k Hk]).
  { rewrite Hsum. rewrite Z.abs_mul, (Z.abs_eq (2 ^ 1042)) by lia.
    change (2 ^ (1105 - 1)) with (4611686018427387904 * 2 ^ 1042).
    change (2 ^ 1105) with (9223372036854775808 * 2 ^ 1042).
    set (P := 2 ^ 1042) in *. clearbody P.
    split; [apply Z.mul_le_mono_nonneg_r|apply Z.mul_lt_mono_pos_r]; lia. }
  change (1105 - 53) with 1052 in *. subst u.
  eexists. exists k. split; [reflexivity|]. split; [exact Hu|].
  rewrite Hsum in Herr.
  change (2 ^ 1052) with (1024 * 2 ^ 1042) in Herr.
  change (2 ^ 52) with 4503599627370496. change (2 ^ 53) with 9007199254740992.
  set (P := 2 ^ 1042) in *. clearbody P.
  replace (k * (1024 * P) - (a * 4294967296 + f) * P)
    with ((k * 1024 - (a * 4294967296 + f)) * P) in Herr by ring.
  rewrite Z.abs_mul, (Z.abs_eq P) in Herr by lia.
  assert (Hle : Z.abs (k * 1024 - (a * 4294967296 + f)) * P <= 512 * P) by lia.
  apply Z.mul_le_mono_pos_r in Hle; [|exact HQ]. lia.
Qed.

Lemma half_sum_over (a2 b1 a3 b4 w p : Q) :
  ~ (p == 0)%Q -> (a2 - b1 + (a3 - b4) == 2 * w)%Q ->
  ((a2 / p - b1 / p + (a3 / p - b4 / p)) / 2 == w / p)%Q.
Proof.
  intros Hp H.
  transitivity ((a2 - b1 + (a3 - b4)) / (2 * p))%Q; [field; assumption|].
  rewrite H. field. assumption.
Qed.

Lemma difference_over (a4 b1 a3 a2 w p : Q) :
  ~ (p == 0)%Q -> (a4 - b1 - (a3 - a2) == w)%Q ->
  (a4 / p - b1 / p - (a3 / p - a2 / p) == w / p)%Q.
Proof. intros Hp H. rewrite <- H. field. assumption. Qed.

(** X19: the accuracy of a measurement of this era.  With the client's
    two clock readings between 2004-01-10 and 2038-01-19 and the server's
    two timestamps between 2004-01-10 and 2036-02-07, decoding the
    timestamps and computing lines 68-69 yields an offset within 2^-23 s
    (0.12 microseconds) and a delay within 2^-22 s of the exact values of
    the NTP formulas on the timestamps as sent: the only rounding is that
    of the decoder. *)
Theorem measurement_accuracy (t1 t4 : float) (v1 v4 : Q) (s2 f2 s3 f3 : Z) :
  clock_reading t1 v1 -> clock_reading t4 v4 ->
  era_stamp s2 f2 -> era_stamp s3 f3 ->
  exists t2 t3 s,
    get_ntp_time (struct_pack_II s2 f2) = ret t2 /\
    get_ntp_time (struct_pack_II s3 f3) = ret t3 /\
    offset_delay t1 t2 t3 t4 = ret s /\
    within (1 # 2 ^ 23) (offset s)
      (((unix_seconds s2 f2 - v1) + (unix_seconds s3 f3 - v4)) / 2) /\
    within (1 # 2 ^ 22) (delay s)
      ((v4 - v1) - (unix_seconds s3 f3 - unix_seconds s2 f2)).
Proof.
  intros C1 C4 S2 S3.
  destruct (clock_reading_units _ _ C1) as (k1 & U1 & B1 & E1).
  destruct (clock_reading_units _ _ C4) as (k4 & U4 & B4 & E4).
  destruct (get_ntp_time_era _ _ S2) as (t2 & k2 & G2 & U2 & B2 & R2).
  destruct (get_ntp_time_era _ _ S3) as (t3 & k3 & G3 & U3 & B3 & R3).
  destruct (offset_delay_units _ _ _ _ _ _ _ _ U1 B1 U2 B2 U3 B3 U4 B4)
    as (Hs & Hoff & Hdelay).
  exists t2, t3. eexists. split; [exact G2|]. split; [exact G3|].
  split; [exact Hs|]. cbn [offset delay].
  pose proof units_positive as HP.
  assert (HP0 : ~ (inject_Z (2 ^ 1074) == 0)%Q)
    by (intros H; rewrite H in HP; discriminate).
  pose proof (unix_seconds_units s2 f2) as Q2.
  pose proof (unix_seconds_units s3 f3) as Q3.
  set (n2 := (s2 - NTP_DELTA) * 2 ^ 32 + f2) in *.
  set (n3 := (s3 - NTP_DELTA) * 2 ^ 32 + f3) in *.
  assert (A2 : (s2 - NTP_DELTA) * 2 ^ 1074 + f2 * 2 ^ 1042 = n2 * 2 * 2 ^ 1041).
  { unfold n2. change (2 ^ 1074) with (2 ^ 32 * 2 * 2 ^ 1041).
    change (2 ^ 1042) with (2 * 2 ^ 1041). ring. }
  assert (A3 : (s3 - NTP_DELTA) * 2 ^ 1074 + f3 * 2 ^ 1042 = n3 * 2 * 2 ^ 1041).
  { unfold n3. change (2 ^ 1074) with (2 ^ 32 * 2 * 2 ^ 1041).
    change (2 ^ 1042) with (2 * 2 ^ 1041). ring. }
  rewrite A2 in Q2. rewrite A3 in Q3. clear A2 A3.
  change (2 ^ 1052) with (2048 * 2 ^ 1041) in *.
  change (2 ^ 1051) with (1024 * 2 ^ 1041) in *.
  assert (HQ : 0 < 2 ^ 1041) by (apply Z.pow_pos_nonneg; lia).
  assert (T23 : (inject_Z (1024 * 2 ^ 1041) <= (1 # 2 ^ 23) * inject_Z (2 ^ 1074))%Q)
    by (apply Qle_bool_imp_le; vm_compute; reflexivity).
  assert (T22 : (inject_Z (2048 * 2 ^ 1041) <= (1 # 2 ^ 22) * inject_Z (2 ^ 1074))%Q)
    by (apply Qle_bool_imp_le; vm_compute; reflexivity).
  clearbody n2 n3. set (P := 2 ^ 1041) in *. clearbody P.
  split.
  - apply (within_of_units _ _ ((n2 - k1 * 1024 + (n3 - k4 * 1024)) * P) _ _ Hoff).
    + rewrite Q2, Q3, E1, E4. apply half_sum_over; [exact HP0|].
      rewrite <- (inject_Z_mult 2).
      replace (2 * ((n2 - k1 * 1024 + (n3 - k4 * 1024)) * P))
        with (n2 * 2 * P - k1 * (2048 * P) + (n3 * 2 * P - k4 * (2048 * P))) by ring.
      generalize (n2 * 2 * P) (k1 * (2048 * P)) (n3 * 2 * P) (k4 * (2048 * P)).
      intros a b c d. unfold Z.sub, Qminus.
      now rewrite !inject_Z_plus, !inject_Z_opp.
    + eapply Qle_trans; [|exact T23]. rewrite <- Zle_Qle.
      replace ((k2 - k1 + (k3 - k4)) * (1024 * P) - (n2 - k1 * 1024 + (n3 - k4 * 1024)) * P)
        with (((k2 * 1024 - n2) + (k3 * 1024 - n3)) * P) by ring.
      rewrite Z.abs_mul, (Z.abs_eq P) by lia.
      apply Z.mul_le_mono_nonneg_r; lia.
  - apply (within_of_units _ _ ((k4 * 1024 - k1 * 1024 - (n3 - n2)) * (2 * P)) _ _ Hdelay).
    + rewrite Q2, Q3, E1, E4. apply difference_over; [exact HP0|].
      replace ((k4 * 1024 - k1 * 1024 - (n3 - n2)) * (2 * P))
        with (k4 * (2048 * P) - k1 * (2048 * P) - (n3 * 2 * P - n2 * 2 * P)) by ring.
      generalize (n2 * 2 * P) (k1 * (2048 * P)) (n3 * 2 * P) (k4 * (2048 * P)).
      intros a b c d. unfold Z.sub, Qminus.
      now rewrite !inject_Z_plus, !inject_Z_opp, !inject_Z_plus, !inject_Z_opp.
    + eapply Qle_trans; [|exact T22]. rewrite <- Zle_Qle.
      replace ((k4 - k1 - (k3 - k2)) * (2048 * P)
               - (k4 * 1024 - k1 * 1024 - (n3 - n2)) * (2 * P))
        with (((k2 * 1024 - n2) - (k3 * 1024 - n3)) * (2 * P)) by ring.
      rewrite Z.abs_mul, (Z.abs_eq (2 * P)) by lia.
      replace (2048 * P) with (1024 * (2 * P)) by ring.
      apply Z.mul_le_mono_nonneg_r; lia.
Qed.

Lemma measurement_accuracy_witness :
  let v1 := (7147375874277376 # 4194304)%Q in
  let v4 := (7147375877423104 # 4194304)%Q in
  exists t2 t3 s,
    get_ntp_time (struct_pack_II 3913056000 2147483649) = ret t2 /\
    get_ntp_time (struct_pack_II 3913056000 3221225473) = ret t3 /\
    offset_delay 1704067200.25 t2 t3 1704067201 = ret s /\
    within (1 # 2 ^ 23) (offset s)
      (((unix_seconds 3913056000 2147483649 - v1)
        + (unix_seconds 3913056000 3221225473 - v4)) / 2) /\
    within (1 # 2 ^ 22) (delay s)
      ((v4 - v1) - (unix_seconds 3913056000 3221225473
                    - unix_seconds 3913056000 2147483649)).
Proof.
  apply (measurement_accuracy 1704067200.25 1704067201).
  - split; [vm_compute; reflexivity|].
    split; [apply Qle_bool_imp_le; vm_compute; reflexivity|reflexivity].
  - split; [vm_compute; reflexivity|].
    split; [apply Qle_bool_imp_le; vm_compute; reflexivity|reflexivity].
  - split; split; reflexivity || discriminate.
  - split; split; reflexivity || discriminate.
Defined.

(** *** The summary of a single sample *)

Lemma one_float : Prim2SF (float_of_int 1) = S754_finite false 4503599627370496 (-52).
Proof. vm_compute. reflexivity. Qed.

(** Dividing by 1.0 changes nothing. *)
Lemma SFdiv_one (s : bool) (m : positive) (e : Z) :
  valid_binary (S754_finite s m e) = true ->
  SF64div (S754_finite s m e) (S754_finite false 4503599627370496 (-52)) =
  S754_finite s m e.
Proof.
  intros Hv.
  assert (Htop : e <= 971).
  { cbn [SpecFloat.valid_binary] in Hv. unfold bounded in Hv.
    apply andb_true_iff in Hv. destruct Hv as [_ Hv]. apply Z.leb_le in Hv.
    unfold emax, prec in Hv. lia. }
  apply valid_finite in Hv. destruct Hv as (He & Hd & Hn).
  assert (Hle : (e <=? emax - prec) = true)
    by (apply Z.leb_le; unfold emax, prec; lia).
  unfold SF64div, SFdiv, SFdiv_core_binary.
  cbn [Zdigits2]. rewrite xorb_false_r.
  change (Z.pos (digits2_pos 4503599627370496)) with 53.
  destruct (Z.eq_dec e (-1074)) as [->|Hne].
  - set (d := Z.pos (digits2_pos m)) in *.
    assert (Hd0 : 0 < d) by (unfold d; lia).
    assert (F1 : SpecFloat.fexp prec emax (d + -1074 - (53 + -52)) = -1074)
      by (unfold SpecFloat.fexp, SpecFloat.emin, prec, emax; lia).
    assert (F2 : SpecFloat.fexp prec emax (d + -1074) = -1074)
      by (unfold SpecFloat.fexp, SpecFloat.emin, prec, emax; lia).
    rewrite F1. change (Z.min (-1074) (-1074 - -52)) with (-1074).
    change (-1074 - -52 - -1074) with 52.
    rewrite Z.shiftl_mul_pow2 by lia.
    change (2 ^ 52) with (Z.pos 4503599627370496).
    rewrite div_eucl_exact by lia.
    change (new_location (Z.pos 4503599627370496) 0) with loc_Exact.
    unfold binary_round_aux, shr_fexp. cbn [Zdigits2]. fold d. rewrite F2.
    change (-1074 - -1074) with 0.
    cbn [shr_record_of_loc shr loc_of_shr_record round_nearest_even shr_m].
    cbn [Zdigits2]. fold d. rewrite F2. change (-1074 - -1074) with 0.
    cbn [shr shr_m]. rewrite Hle. reflexivity.
  - specialize (Hn ltac:(lia)). rewrite Hn.
    replace (53 + e - (53 + -52)) with (e + 52) by lia.
    rewrite fexp_normal by lia.
    replace (Z.min (e + 52 - 53) (e - -52)) with (e - 1) by lia.
    replace (e - -52 - (e - 1)) with 53 by lia.
    rewrite Z.shiftl_mul_pow2 by lia.
    replace (Z.pos m * 2 ^ 53) with ((2 * Z.pos m) * Z.pos 4503599627370496)
      by (change (2 ^ 53) with (2 * Z.pos 4503599627370496); ring).
    rewrite div_eucl_exact by lia.
    change (new_location (Z.pos 4503599627370496) 0) with loc_Exact.
    change (2 * Z.pos m) with (Z.pos m~0).
    unfold binary_round_aux, shr_fexp. cbn [Zdigits2 digits2_pos].
    rewrite Pos2Z.inj_succ, Hn. rewrite fexp_normal by lia.
    replace (Z.succ 53 + (e - 1) - 53 - (e - 1)) with 1 by lia.
    cbn [shr_record_of_loc shr iter_pos shr_1 loc_of_shr_record round_nearest_even shr_m orb].
    cbn [Zdigits2]. rewrite Hn. rewrite fexp_normal by lia.
    replace (53 + (e - 1 + 1) - 53 - (e - 1 + 1)) with 0 by lia.
    cbn [shr shr_m].
    replace (e - 1 + 1) with e by lia. rewrite Hle. reflexivity.
Qed.

(** The mean of a single number is that number, up to the sign of a
    zero. *)
Lemma mean_of_one (x : float) :
  finite x ->
  (py_sum [x] / float_of_int 1)%float = x \/
  (x = (-0)%float /\ (py_sum [x] / float_of_int 1)%float = 0%float).
Proof.
  intros [q Hq]. unfold float_value in Hq. unfold py_sum. cbn [fold_left].
  pose proof (Prim2SF_valid x) as Hv.
  destruct (Prim2SF x) as [s|s| |s m e] eqn:E; try discriminate.
  - destruct s.
    + right. assert (x = (-0)%float) as -> by (apply Prim2SF_inj; rewrite E; reflexivity).
      split; reflexivity.
    + left. assert (x = 0%float) as -> by (apply Prim2SF_inj; rewrite E; reflexivity).
      reflexivity.
  - left. apply Prim2SF_inj. rewrite div_spec, add_spec, one_float, E.
    change (Prim2SF (float_of_int 0)) with (S754_zero false).
    cbn [SF64add SFadd]. now apply SFdiv_one.
Qed.

Lemma eqb_refl_finite (x : float) : finite x -> (x =? x)%float = true.
Proof.
  intros [q Hq]. unfold float_value in Hq.
  pose proof (is_nan_spec x) as H. unfold is_nan in H.
  destruct (Prim2SF x); try discriminate; cbn in H;
    now destruct (x =? x)%float.
Qed.

(** X20: the summary of a single sample shows that sample: count 1, the
    sample's offset as maximum, minimum and average, its delay as the
    average delay, a jitter of exactly zero, and the verdict on the
    sample's own offset. *)
Theorem single_sample_summary (s : sample) :
  finite (offset s) -> finite (delay s) ->
  exists st,
    summarize [s] = ret (Statistics st (classify (offset s))) /\
    count st = 1 /\
    max_offset st = offset s /\ min_offset st = offset s /\
    (avg_offset st =? offset s)%float = true /\
    (avg_delay st =? delay s)%float = true /\
    std_dev st = 0%float.
Proof.
  intros Ho Hd. rewrite summarize_nonempty. cbv zeta.
  cbn [map List.length fold_left Z.of_nat Pos.of_succ_nat].
  assert (Hsd : forall avg, (offset s - avg)%float = 0%float \/
                            (offset s - avg)%float = (-0)%float ->
            squares float_sq avg [offset s] = ret [0%float]).
  { intros avg H. cbn [squares]. destruct H as [-> | ->]; reflexivity. }
  assert (Had : (py_sum [delay s] / float_of_int 1 =? delay s)%float = true).
  { destruct (mean_of_one _ Hd) as [-> | [D0 ->]].
    - now apply eqb_refl_finite.
    - rewrite D0. reflexivity. }
  destruct (mean_of_one _ Ho) as [E | [E0 E]].
  - rewrite E. rewrite Hsd by (left; now apply sub_self). cbn [bind ret].
    eexists. split; [reflexivity|]. cbn [count max_offset min_offset avg_offset avg_delay std_dev].
    repeat split; try assumption; try reflexivity. now apply eqb_refl_finite.
  - rewrite E. rewrite Hsd by (right; rewrite E0; reflexivity). cbn [bind ret].
    assert (Hc : classify 0 = classify (offset s)) by (rewrite E0; reflexivity).
    rewrite Hc.
    eexists. split; [reflexivity|]. cbn [count max_offset min_offset avg_offset avg_delay std_dev].
    repeat split; try assumption; try reflexivity. rewrite E0. reflexivity.
Qed.

Lemma single_sample_summary_witness :
  exists st,
    summarize [{| offset := 0.25; delay := 0.5 |}] = ret (Statistics st ACCURATE) /\
    count st = 1 /\
    max_offset st = 0.25%float /\ min_offset st = 0.25%float /\
    (avg_offset st =? 0.25)%float = true /\
    (avg_delay st =? 0.5)%float = true /\
    std_dev st = 0%float.
Proof.
  apply (single_sample_summary {| offset := 0.25; delay := 0.5 |});
    eexists; vm_compute; reflexivity.
Defined.

(** *** Magnitudes

    Coarse bounds, in units of 2^-1074, on what rounding returns: enough
    to see that an operation stays far from overflow. *)

Lemma fexp_spec (e : Z) : SpecFloat.fexp prec emax e = Z.max (e - 53) (-1074).
Proof. reflexivity. Qed.

Lemma Zdigits2_bound (m : Z) : 0 <= m -> m < 2 ^ Zdigits2 m /\ 0 <= Zdigits2 m.
Proof.
  intros Hm. destruct m as [|p|p]; [cbn; lia| |lia].
  cbn [Zdigits2]. pose proof (digits2_pos_bounds p). lia.
Qed.

Lemma Zdigits2_le (m k : Z) : 0 <= m -> 0 <= k -> m < 2 ^ k -> Zdigits2 m <= k.
Proof.
  intros Hm Hk H. destruct m as [|p|p]; [cbn; lia| |lia].
  cbn [Zdigits2]. pose proof (digits2_pos_bounds p) as [Hl _].
  assert (Z.pos (digits2_pos p) - 1 < k); [|lia].
  apply pow2_lt_exponent; [lia|]. lia.
Qed.

Lemma shr_m_of_loc (m : Z) (l : location) : shr_m (shr_record_of_loc m l) = m.
Proof. now destruct l as [|[]]. Qed.

Lemma shr_m_iter (k : nat) (mrs : shr_record) :
  0 <= shr_m mrs -> shr_m (Nat.iter k shr_1 mrs) = shr_m mrs / 2 ^ Z.of_nat k.
Proof.
  intros Hm. induction k as [|k IH].
  - cbn. now rewrite Z.div_1_r.
  - change (Nat.iter (S k) shr_1 mrs) with (shr_1 (Nat.iter k shr_1 mrs)).
    destruct (Nat.iter k shr_1 mrs) as [m r s] eqn:E.
    cbn [shr_m] in IH.
    assert (H0 : 0 <= m) by (rewrite IH; apply Z.div_pos; [lia|apply Z.pow_pos_nonneg; lia]).
    rewrite shr_1_nonneg by exact H0. cbn [shr_m]. rewrite IH.
    rewrite Nat2Z.inj_succ, Z.pow_succ_r by lia.
    rewrite Z.div_div by (try apply Z.pow_pos_nonneg; lia).
    f_equal. ring.
Qed.

(** The first step of rounding: the mantissa loses the digits that the
    format has no room for. *)
Lemma shr_fexp_m (m e : Z) (l : location) :
  0 <= m ->
  let n := Z.max (SpecFloat.fexp prec emax (Zdigits2 m + e) - e) 0 in
  exists mrs, shr_fexp prec emax m e l = (mrs, e + n) /\ shr_m mrs = m / 2 ^ n.
Proof.
  intros Hm n. unfold shr_fexp.
  destruct (Z.le_gt_cases 0 (SpecFloat.fexp prec emax (Zdigits2 m + e) - e)) as [H|H].
  - rewrite shr_nat by exact H. eexists. split.
    + unfold n. rewrite Z.max_l by lia. reflexivity.
    + rewrite shr_m_iter by (rewrite shr_m_of_loc; exact Hm).
      rewrite shr_m_of_loc, Z2Nat.id by exact H. unfold n. now rewrite Z.max_l by lia.
  - assert (Hn : n = 0) by (unfold n; lia). rewrite Hn, Z.add_0_r.
    exists (shr_record_of_loc m l). split.
    + destruct (SpecFloat.fexp prec emax (Zdigits2 m + e) - e); try lia; reflexivity.
    + rewrite shr_m_of_loc. cbn. now rewrite Z.div_1_r.
Qed.

Lemma round_nearest_even_bounds (m : Z) (l : location) :
  m <= round_nearest_even m l <= m + 1.
Proof. destruct l as [|[]]; cbn; try lia. destruct (Z.even m); lia. Qed.

(** Rounding a number below 2^D, with D at most 971, gives a zero or a
    finite float of at most 2^D. *)
Lemma binary_round_aux_bound (s : bool) (m e : Z) (l : location) (D : Z) :
  0 <= m -> Zdigits2 m + e <= D -> D <= 971 ->
  exists u, SFunits (binary_round_aux prec emax s m e l) = Some u /\
            Z.abs u <= 2 ^ Z.max (D + 1074) 0.
Proof.
  intros Hm HD Hmax.
  pose proof (Zdigits2_bound m Hm) as [Hd Hd0]. set (d := Zdigits2 m) in *.
  unfold binary_round_aux.
  destruct (shr_fexp_m m e l Hm) as (mrs1 & -> & H1). fold d in H1. fold d. cbv beta iota.
  set (n1 := Z.max (SpecFloat.fexp prec emax (d + e) - e) 0) in *.
  pose proof (round_nearest_even_bounds (shr_m mrs1) (loc_of_shr_record mrs1)) as Hr.
  set (m1 := round_nearest_even (shr_m mrs1) (loc_of_shr_record mrs1)) in *.
  assert (Hn1 : 0 <= n1) by (unfold n1; lia).
  assert (Hp1 : 0 < 2 ^ n1) by (apply Z.pow_pos_nonneg; lia).
  assert (Hm0 : 0 <= m / 2 ^ n1) by (apply Z.div_pos; lia).
  assert (Hm1 : 0 <= m1) by lia.
  assert (He1 : -1074 <= e + n1).
  { unfold n1. rewrite fexp_spec. lia. }
  assert (Hu1 : m1 * 2 ^ (e + n1 + 1074) <= 2 ^ Z.max (D + 1074) 0).
  { destruct (Z.le_gt_cases n1 d) as [Hle|Hgt].
    - assert (Hlt : m / 2 ^ n1 < 2 ^ (d - n1)).
      { apply Z.div_lt_upper_bound; [lia|]. rewrite <- Z.pow_add_r by lia.
        now replace (n1 + (d - n1)) with d by lia. }
      assert (Hle1 : m1 <= 2 ^ (d - n1)) by lia.
      assert (Hpe : 0 < 2 ^ (e + n1 + 1074)) by (apply Z.pow_pos_nonneg; lia).
      apply Z.le_trans with (2 ^ (d - n1) * 2 ^ (e + n1 + 1074)); [nia|].
      rewrite <- Z.pow_add_r by lia. apply Z.pow_le_mono_r; lia.
    - assert (Hz : m / 2 ^ n1 = 0).
      { apply Z.div_small. split; [lia|].
        apply Z.lt_le_trans with (2 ^ d); [exact Hd|]. apply Z.pow_le_mono_r; lia. }
      assert (Hen : e + n1 = -1074).
      { unfold n1 in *. rewrite fexp_spec in *. lia. }
      rewrite Hen. change (2 ^ (-1074 + 1074)) with 1.
      assert (1 <= 2 ^ Z.max (D + 1074) 0); [|lia].
      change 1 with (2 ^ 0). apply Z.pow_le_mono_r; lia. }
  destruct (shr_fexp_m m1 (e + n1) loc_Exact Hm1) as (mrs2 & -> & H2). cbv beta iota.
  set (n2 := Z.max (SpecFloat.fexp prec emax (Zdigits2 m1 + (e + n1)) - (e + n1)) 0) in *.
  assert (Hn2 : 0 <= n2) by (unfold n2; lia).
  assert (Hp2 : 0 < 2 ^ n2) by (apply Z.pow_pos_nonneg; lia).
  assert (Hm2 : 0 <= shr_m mrs2) by (rewrite H2; apply Z.div_pos; lia).
  assert (Hu2 : shr_m mrs2 * 2 ^ (e + n1 + n2 + 1074) <= 2 ^ Z.max (D + 1074) 0).
  { apply Z.le_trans with (m1 * 2 ^ (e + n1 + 1074)); [|exact Hu1].
    replace (e + n1 + n2 + 1074) with (n2 + (e + n1 + 1074)) by lia.
    rewrite Z.pow_add_r by lia.
    assert (shr_m mrs2 * 2 ^ n2 <= m1).
    { rewrite H2, Z.mul_comm. apply Z.mul_div_le. lia. }
    assert (0 < 2 ^ (e + n1 + 1074)) by (apply Z.pow_pos_nonneg; lia).
    nia. }
  destruct (shr_m mrs2) as [|p|p] eqn:Hp; [| |lia].
  - exists 0. split; [reflexivity|]. cbn. apply Z.pow_nonneg. lia.
  - assert (Hov : e + n1 + n2 <= 971).
    { destruct (Z.le_gt_cases (e + n1 + n2) 971) as [H|H]; [exact H|exfalso].
      assert (2 ^ (e + n1 + n2 + 1074) <= 2 ^ Z.max (D + 1074) 0).
      { assert (0 < 2 ^ (e + n1 + n2 + 1074)) by (apply Z.pow_pos_nonneg; lia). nia. }
      assert (e + n1 + n2 + 1074 <= Z.max (D + 1074) 0)
        by (apply (Z.pow_le_mono_r_iff 2); lia).
      lia. }
    destruct (Z.leb_spec (e + n1 + n2) (emax - prec)) as [_|H];
      [|unfold emax, prec in H; lia].
    rewrite SFunits_finite by lia. eexists. split; [reflexivity|].
    destruct s.
    + change (Z.neg p) with (- Z.pos p). rewrite Z.mul_opp_l, Z.abs_opp, Z.abs_eq; [exact Hu2|].
      apply Z.mul_nonneg_nonneg; [lia|apply Z.pow_nonneg; lia].
    + rewrite Z.abs_eq; [exact Hu2|].
      apply Z.mul_nonneg_nonneg; [lia|apply Z.pow_nonneg; lia].
Qed.

Lemma shl_align_digits (m : positive) (e e' : Z) :
  exists mz ez, shl_align m e e' = (mz, ez) /\
                Zdigits2 (Z.pos mz) + ez = Z.pos (digits2_pos m) + e.
Proof.
  unfold shl_align. destruct (e' - e) as [|d|d] eqn:Hd;
    try (eexists; eexists; split; [reflexivity|reflexivity]).
  eexists. eexists. split; [reflexivity|].
  cbn [Zdigits2].
  assert (E : e = e' + Z.pos d) by lia. subst e.
  pose proof (digits2_pos_bounds m) as [Hl Hu].
  assert (Hv : Z.pos (Pos.iter xO m d) = Z.pos m * 2 ^ Z.pos d) by apply iter_xO.
  assert (Hdig : Z.pos (digits2_pos (Pos.iter xO m d)) = Z.pos (digits2_pos m) + Z.pos d).
  { apply digits2_pos_unique. rewrite Hv.
    replace (Z.pos (digits2_pos m) + Z.pos d - 1)
      with (Z.pos (digits2_pos m) - 1 + Z.pos d) by lia.
    rewrite !Z.pow_add_r by lia.
    assert (0 < 2 ^ Z.pos d) by (apply Z.pow_pos_nonneg; lia). nia. }
  lia.
Qed.

(** A number that is below 2^K units rounds to at most 2^K units. *)
Lemma binary_normalize_bound (M ez K : Z) :
  -1074 <= ez -> Z.abs M * 2 ^ (ez + 1074) < 2 ^ K -> 0 <= K <= 2045 ->
  exists u, SFunits (binary_normalize prec emax M ez false) = Some u /\
            Z.abs u <= 2 ^ K.
Proof.
  intros Hez HM HK.
  assert (Hmain : forall (s : bool) (p : positive),
             Z.pos p * 2 ^ (ez + 1074) < 2 ^ K ->
             exists u, SFunits (binary_round prec emax s p ez) = Some u /\
                       Z.abs u <= 2 ^ K).
  { intros s p Hp. unfold binary_round.
    destruct (shl_align_digits p ez
                (SpecFloat.fexp prec emax (Z.pos (digits2_pos p) + ez)))
      as (mz & ez' & -> & Hdig).
    pose proof (digits2_pos_bounds p) as [Hl _].
    assert (Hd : Z.pos (digits2_pos p) + ez + 1074 <= K).
    { assert (Z.pos (digits2_pos p) - 1 + (ez + 1074) < K); [|lia].
      apply pow2_lt_exponent; [lia|]. rewrite Z.pow_add_r by lia.
      assert (0 < 2 ^ (ez + 1074)) by (apply Z.pow_pos_nonneg; lia). nia. }
    destruct (binary_round_aux_bound s (Z.pos mz) ez' loc_Exact (K - 1074))
      as (u & Hu & Hb); try lia.
    exists u. split; [exact Hu|].
    replace (Z.max (K - 1074 + 1074) 0) with K in Hb by lia. exact Hb. }
  destruct M as [|p|p]; cbn [binary_normalize].
  - exists 0. split; [reflexivity|]. cbn. apply Z.pow_nonneg. lia.
  - apply (Hmain false p). rewrite Z.abs_eq in HM by lia. exact HM.
  - apply (Hmain true p). change (Z.neg p) with (- Z.pos p) in HM.
    rewrite Z.abs_opp, Z.abs_eq in HM by lia. exact HM.
Qed.

Lemma SFadd_bound (x y : spec_float) (ux uy K : Z) :
  SFunits x = Some ux -> SFunits y = Some uy ->
  Z.abs (ux + uy) < 2 ^ K -> 0 <= K <= 2045 ->
  exists u, SFunits (SF64add x y) = Some u /\ Z.abs u <= 2 ^ K.
Proof.
  intros Hx Hy HU HK.
  assert (Hexact : forall r, SFunits r = Some (ux + uy) ->
            exists u, SFunits r = Some u /\ Z.abs u <= 2 ^ K).
  { intros r Hr. exists (ux + uy). split; [exact Hr|lia]. }
  destruct x as [sx|sx| |sx mx ex]; try discriminate;
    destruct y as [sy|sy| |sy my ey]; try discriminate.
  - cbn in Hx, Hy. inversion Hx; inversion Hy; subst.
    apply Hexact. now destruct sx, sy.
  - cbn in Hx. inversion Hx; subst. apply Hexact. exact Hy.
  - cbn in Hy. inversion Hy; subst. apply Hexact. rewrite Z.add_0_r. exact Hx.
  - apply SFunits_finite_inv in Hx, Hy. destruct Hx as [Hex ->], Hy as [Hey ->].
    unfold SF64add, SFadd.
    set (ez := Z.min ex ey).
    rewrite !shl_align_fst by lia.
    set (M := cond_Zopp sx (Z.pos mx * 2 ^ (ex - ez))
              + cond_Zopp sy (Z.pos my * 2 ^ (ey - ez))).
    assert (HM : (if sx then Z.neg mx else Z.pos mx) * 2 ^ (ex + 1074)
                 + (if sy then Z.neg my else Z.pos my) * 2 ^ (ey + 1074)
                 = M * 2 ^ (ez + 1074)).
    { unfold M.
      assert (Hpx : 2 ^ (ex + 1074) = 2 ^ (ex - ez) * 2 ^ (ez + 1074))
        by (rewrite <- Z.pow_add_r by lia; f_equal; lia).
      assert (Hpy : 2 ^ (ey + 1074) = 2 ^ (ey - ez) * 2 ^ (ez + 1074))
        by (rewrite <- Z.pow_add_r by lia; f_equal; lia).
      rewrite Hpx, Hpy.
      destruct sx, sy; cbn [cond_Zopp];
        change (Z.neg mx) with (- Z.pos mx); change (Z.neg my) with (- Z.pos my); ring. }
    rewrite HM in HU.
    apply binary_normalize_bound; [lia| |exact HK].
    rewrite Z.abs_mul in HU. rewrite (Z.abs_eq (2 ^ (ez + 1074))) in HU; [exact HU|].
    apply Z.pow_nonneg. lia.
Qed.

Lemma add_bound (x y : float) (ux uy K : Z) :
  SFunits (Prim2SF x) = Some ux -> SFunits (Prim2SF y) = Some uy ->
  Z.abs (ux + uy) < 2 ^ K -> 0 <= K <= 2045 ->
  exists u, SFunits (Prim2SF (x + y)) = Some u /\ Z.abs u <= 2 ^ K.
Proof. intros. rewrite add_spec. now apply (SFadd_bound _ _ ux uy). Qed.

Lemma sub_bound (x y : float) (ux uy K : Z) :
  SFunits (Prim2SF x) = Some ux -> SFunits (Prim2SF y) = Some uy ->
  Z.abs (ux - uy) < 2 ^ K -> 0 <= K <= 2045 ->
  exists u, SFunits (Prim2SF (x - y)) = Some u /\ Z.abs u <= 2 ^ K.
Proof.
  intros Hx Hy HU HK. rewrite sub_spec, SFsub_units_add.
  apply (SFadd_bound _ _ ux (- uy)); try assumption.
  now apply SFopp_units.
Qed.

(** The digits of a float of at most 2^K units. *)
Lemma units_digits (s : bool) (m : positive) (e u K : Z) :
  SFunits (S754_finite s m e) = Some u -> Z.abs u <= 2 ^ K -> 0 <= K ->
  -1074 <= e /\ Z.pos (digits2_pos m) + e + 1074 <= K + 1.
Proof.
  intros Hu Hb HK. apply SFunits_finite_inv in Hu. destruct Hu as [He ->].
  split; [exact He|].
  pose proof (digits2_pos_bounds m) as [Hl _].
  assert (Hp : 0 < 2 ^ (e + 1074)) by (apply Z.pow_pos_nonneg; lia).
  assert (Hab : Z.abs ((if s then Z.neg m else Z.pos m) * 2 ^ (e + 1074))
                = Z.pos m * 2 ^ (e + 1074)).
  { rewrite Z.abs_mul, (Z.abs_eq (2 ^ (e + 1074))) by lia. now destruct s. }
  rewrite Hab in Hb.
  assert (Z.pos (digits2_pos m) - 1 + (e + 1074) < K + 1); [|lia].
  apply pow2_lt_exponent; [lia|]. rewrite Z.pow_add_r by lia.
  replace (K + 1) with (Z.succ K) by lia. rewrite Z.pow_succ_r by lia.
  assert (0 < 2 ^ K) by (apply Z.pow_pos_nonneg; lia). nia.
Qed.

Lemma digits2_pos_mul (a b : positive) :
  Z.pos (digits2_pos (a * b)) <= Z.pos (digits2_pos a) + Z.pos (digits2_pos b).
Proof.
  pose proof (digits2_pos_bounds a) as [_ Ha].
  pose proof (digits2_pos_bounds b) as [_ Hb].
  change (Z.pos (digits2_pos (a * b))) with (Zdigits2 (Z.pos (a * b))).
  apply Zdigits2_le; [lia|lia|].
  rewrite Pos2Z.inj_mul, Z.pow_add_r by lia. nia.
Qed.

(** The product of two floats of at most 2^A and 2^B units. *)
Lemma mul_bound (x y : float) (ux uy A B : Z) :
  SFunits (Prim2SF x) = Some ux -> SFunits (Prim2SF y) = Some uy ->
  Z.abs ux <= 2 ^ A -> Z.abs uy <= 2 ^ B -> 0 <= A -> 0 <= B ->
  A + B + 2 - 1074 <= 2045 ->
  exists u, SFunits (Prim2SF (x * y)) = Some u /\
            Z.abs u <= 2 ^ Z.max (A + B + 2 - 1074) 0.
Proof.
  intros Hx Hy Ha Hb HA HB HK. rewrite mul_spec.
  assert (Hzero : forall s, exists u, SFunits (S754_zero s) = Some u /\
                    Z.abs u <= 2 ^ Z.max (A + B + 2 - 1074) 0).
  { intros s. exists 0. split; [reflexivity|]. cbn. apply Z.pow_nonneg. lia. }
  destruct (Prim2SF x) as [sx|sx| |sx mx ex]; try discriminate;
    destruct (Prim2SF y) as [sy|sy| |sy my ey]; try discriminate;
    try apply Hzero.
  destruct (units_digits _ _ _ _ _ Hx Ha HA) as [Hex Hdx].
  destruct (units_digits _ _ _ _ _ Hy Hb HB) as [Hey Hdy].
  unfold SF64mul, SFmul.
  pose proof (digits2_pos_mul mx my) as Hd.
  destruct (binary_round_aux_bound (xorb sx sy) (Z.pos (mx * my)) (ex + ey) loc_Exact
              (A + B + 2 - 1074 - 1074)) as (u & Hu & Hbound);
    [lia|cbn [Zdigits2]; lia|lia|].
  exists u. split; [exact Hu|].
  now replace (A + B + 2 - 1074 - 1074 + 1074) with (A + B + 2 - 1074) in Hbound by lia.
Qed.

(** Dividing by a count leaves no more than there was (up to rounding). *)
Lemma div_count_bound (x : float) (ux A n : Z) :
  SFunits (Prim2SF x) = Some ux -> Z.abs ux <= 2 ^ A -> 0 <= A <= 2044 ->
  0 < n < 2 ^ 53 ->
  exists u, SFunits (Prim2SF (x / float_of_int n)) = Some u /\ Z.abs u <= 2 ^ (A + 1).
Proof.
  intros Hx Ha HA Hn. rewrite div_spec.
  destruct (float_of_int_pos n Hn) as (my & ey & -> & Hdy & Hey & Hval).
  destruct (Prim2SF x) as [sx|sx| |sx mx ex]; try discriminate.
  { exists 0. split; [reflexivity|]. cbn. apply Z.pow_nonneg. lia. }
  destruct (units_digits _ _ _ _ _ Hx Ha (proj1 HA)) as [Hex Hdx].
  unfold SF64div, SFdiv, SFdiv_core_binary.
  cbn [Zdigits2]. rewrite Hdy.
  set (dx := Z.pos (digits2_pos mx)) in *.
  set (e' := Z.min (SpecFloat.fexp prec emax (dx + ex - (53 + ey))) (ex - ey)).
  set (s := ex - ey - e').
  assert (Hs : 0 <= s) by (unfold s, e'; lia).
  set (m' := match s with Z.pos _ => Z.shiftl (Z.pos mx) s | 0 => Z.pos mx | Z.neg _ => 0 end).
  assert (Hm' : m' = Z.pos mx * 2 ^ s).
  { unfold m'. destruct s as [|p|p] eqn:Es; [cbn; lia| |lia].
    now rewrite Z.shiftl_mul_pow2 by lia. }
  pose proof (Z.div_eucl_eq m' (Z.pos my) ltac:(lia)) as Heq.
  pose proof (Z.mod_pos_bound m' (Z.pos my) ltac:(lia)) as Hmod.
  unfold Z.modulo in Hmod.
  destruct (Z.div_eucl m' (Z.pos my)) as [q r].
  assert (Hmy : 2 ^ (- ey) <= Z.pos my).
  { assert (Hp : 2 ^ (ey + 1074) * 2 ^ (- ey) = 2 ^ 1074)
      by (rewrite <- Z.pow_add_r by lia; f_equal; lia).
    assert (0 < 2 ^ (ey + 1074)) by (apply Z.pow_pos_nonneg; lia).
    assert (0 < 2 ^ (- ey)) by (apply Z.pow_pos_nonneg; lia).
    assert (0 < 2 ^ 1074) by (apply Z.pow_pos_nonneg; lia).
    set (P := 2 ^ 1074) in *. clearbody P. nia. }
  assert (Hq0 : 0 <= q).
  { assert (0 <= m') by (rewrite Hm'; apply Z.mul_nonneg_nonneg; [lia|apply Z.pow_nonneg; lia]).
    destruct (Z.le_gt_cases 0 q); [assumption|]. nia. }
  pose proof (digits2_pos_bounds mx) as [_ Hux]. fold dx in Hux.
  assert (Hqd : Zdigits2 q + e' <= Z.max (dx + ex) (-1074)).
  { assert (He' : e' <= Z.max (dx + ex - 54) (-1074)).
    { unfold e'. rewrite fexp_spec. lia. }
    destruct (Z.le_gt_cases 0 (dx + s + ey)) as [Hk|Hk].
    - assert (Hq : q < 2 ^ (dx + s + ey)).
      { assert (Hqm : q * 2 ^ (- ey) < 2 ^ (dx + s)).
        { apply Z.le_lt_trans with m'; [nia|].
          rewrite Hm', Z.pow_add_r by lia.
          assert (0 < 2 ^ s) by (apply Z.pow_pos_nonneg; lia). nia. }
        replace (dx + s) with (dx + s + ey + - ey) in Hqm by lia.
        rewrite (Z.pow_add_r 2 (dx + s + ey)) in Hqm by lia.
        assert (0 < 2 ^ (- ey)) by (apply Z.pow_pos_nonneg; lia). nia. }
      pose proof (Zdigits2_le q (dx + s + ey) Hq0 Hk Hq). unfold s in *. lia.
    - assert (Hq : q = 0).
      { assert (Hqm : q * 2 ^ (- ey) < 2 ^ (dx + s)).
        { apply Z.le_lt_trans with m'; [nia|].
          rewrite Hm', Z.pow_add_r by lia.
          assert (0 < 2 ^ s) by (apply Z.pow_pos_nonneg; lia). nia. }
        assert (Hle : 2 ^ (dx + s) <= 2 ^ (- ey)) by (apply Z.pow_le_mono_r; lia).
        assert (0 < 2 ^ (- ey)) by (apply Z.pow_pos_nonneg; lia). nia. }
      subst q. cbn [Zdigits2]. lia. }
  destruct (binary_round_aux_bound (xorb sx false) q e' (new_location (Z.pos my) r)
              (Z.max (dx + ex) (-1074))) as (u & Hu & Hb); [exact Hq0|exact Hqd|lia|].
  exists u. split; [exact Hu|].
  apply Z.le_trans with (1 := Hb). apply Z.pow_le_mono_r; lia.
Qed.

Lemma magnitude_mono (k k' : Z) (x : float) :
  k <= k' -> -1074 <= k -> magnitude_at_most k x -> magnitude_at_most k' x.
Proof.
  intros Hk H0 (u & Hu & Hb). exists u. split; [exact Hu|].
  apply Z.le_trans with (1 := Hb). apply Z.pow_le_mono_r; lia.
Qed.

(** A running sum of numbers of at most 2^k never passes 2^(k+54): once
    it is there, adding one more changes nothing. *)
Lemma add_saturates (k : Z) (a x : float) :
  -1074 <= k <= 900 ->
  magnitude_at_most (k + 54) a -> magnitude_at_most k x ->
  magnitude_at_most (k + 54) (a + x).
Proof.
  intros Hk (ua & Ha & Hba) (ux & Hx & Hbx). unfold magnitude_at_most.
  set (K := k + 1074) in *.
  replace (k + 54 + 1074) with (K + 54) in * by (unfold K; lia).
  assert (HK : 0 <= K <= 1974) by (unfold K; lia).
  assert (HT : 0 < 2 ^ (K + 54)) by (apply Z.pow_pos_nonneg; lia).
  assert (HP : 0 < 2 ^ K) by (apply Z.pow_pos_nonneg; lia).
  destruct (Z.lt_ge_cases (Z.abs (ua + ux)) (2 ^ 52)) as [Hsmall|Hbig].
  - assert (H52 : 0 <= 52 <= 2045) by lia.
    destruct (add_bound a x ua ux 52 Ha Hx Hsmall H52) as (u & Hu & Hb).
    exists u. split; [exact Hu|]. apply Z.le_trans with (1 := Hb).
    apply Z.pow_le_mono_r; lia.
  - set (s := ua + ux) in *.
    assert (Hs0 : 0 < Z.abs s).
    { assert (0 < 2 ^ 52) by (apply Z.pow_pos_nonneg; lia). lia. }
    pose proof (Z.log2_spec (Z.abs s) Hs0) as [Hlo Hhi].
    set (B := Z.succ (Z.log2 (Z.abs s))) in *.
    assert (HB1 : 53 <= B).
    { assert (52 < B); [|lia]. apply pow2_lt_exponent; [unfold B; pose proof (Z.log2_nonneg (Z.abs s)); lia|]. lia. }
    assert (Hsle : Z.abs s <= 2 ^ (K + 54) + 2 ^ K) by (unfold s; lia).
    assert (HB2 : B <= K + 55).
    { assert (B - 1 < K + 55); [|lia]. apply pow2_lt_exponent; [lia|].
      replace (B - 1) with (Z.log2 (Z.abs s)) by (unfold B; lia).
      replace (K + 55) with (Z.succ (K + 54)) by lia. rewrite Z.pow_succ_r by lia.
      assert (2 ^ K < 2 ^ (K + 54)) by (apply Z.pow_lt_mono_r; lia). lia. }
    assert (HB : 53 <= B <= 2097) by lia.
    assert (Hbin : 2 ^ (B - 1) <= Z.abs (ua + ux) < 2 ^ B).
    { fold s. replace (B - 1) with (Z.log2 (Z.abs s)) by (unfold B; lia). lia. }
    destruct (add_rounds a x ua ux B Ha Hx HB Hbin) as (u & Hu & Herr & Hdiv).
    fold s in Herr. exists u. split; [exact Hu|].
    set (G := 2 ^ (B - 53)) in *.
    assert (HG : 0 < G) by (apply Z.pow_pos_nonneg; lia).
    assert (HTG : (G | 2 ^ (K + 54))).
    { exists (2 ^ (K + 54 - (B - 53))). unfold G.
      rewrite <- Z.pow_add_r by lia. f_equal. lia. }
    assert (Hlt : Z.abs u < 2 ^ (K + 54) + G).
    { destruct (Z.le_gt_cases (Z.abs s) (2 ^ (K + 54))) as [Hle|Hgt]; [lia|].
      assert (HBe : B = K + 55).
      { assert (K + 54 < B); [|lia]. apply pow2_lt_exponent; [lia|]. lia. }
      assert (HGe : G = 4 * 2 ^ K).
      { unfold G. rewrite HBe. replace (K + 55 - 53) with (2 + K) by lia.
        now rewrite Z.pow_add_r by lia. }
      lia. }
    destruct Hdiv as [cu Hcu]. destruct HTG as [ct Hct].
    rewrite Hct in *.
    assert (Z.abs cu < ct + 1).
    { rewrite Hcu, Z.abs_mul, (Z.abs_eq G) in Hlt by lia. nia. }
    rewrite Hcu, Z.abs_mul, (Z.abs_eq G) by lia. nia.
Qed.

Lemma py_sum_bounded (k : Z) (xs : list float) :
  -1074 <= k <= 900 ->
  Forall (magnitude_at_most k) xs ->
  magnitude_at_most (k + 54) (py_sum xs).
Proof.
  intros Hk. unfold py_sum.
  assert (H0 : magnitude_at_most (k + 54) (float_of_int 0)).
  { exists 0. split; [reflexivity|]. cbn [Z.abs]. apply Z.pow_nonneg. lia. }
  revert H0. generalize (float_of_int 0).
  induction xs as [|x xs IH]; intros acc Hacc Hall; cbn [fold_left]; [exact Hacc|].
  inversion Hall; subst. apply IH; [|assumption].
  now apply add_saturates.
Qed.

Lemma is_infinity_spec (x : float) :
  is_infinity x = match Prim2SF x with S754_infinity _ => true | _ => false end.
Proof.
  unfold is_infinity. rewrite FloatAxioms.eqb_spec, abs_spec.
  change (Prim2SF infinity) with (S754_infinity false).
  now destruct (Prim2SF x) as [[]|[]| |[] m e].
Qed.

(** The correctly rounded square does not overflow below 2^100. *)
Lemma float_sq_moderate : moderate_squares float_sq.
Proof.
  intros x (u & Hu & Hb). unfold float_sq. cbv zeta.
  assert (H0 : 0 <= 1174) by lia.
  assert (H1 : 1174 + 1174 + 2 - 1074 <= 2045) by lia.
  destruct (mul_bound x x u u 1174 1174 Hu Hu Hb Hb H0 H0 H1) as (u' & Hu' & _).
  rewrite (is_infinity_spec (x * x)).
  destruct (Prim2SF (x * x)) as [s|s| |s m e]; try discriminate;
    rewrite andb_false_r; discriminate.
Qed.

(** With offsets of at most 2^k, k up to 44, and fewer than 2^53 of
    them, no squared deviation overflows. *)
Lemma deviations_moderate square (k : Z) (xs : list float) :
  moderate_squares square -> -1074 <= k <= 44 ->
  (0 < List.length xs)%nat -> Z.of_nat (List.length xs) < 2 ^ 53 ->
  Forall (magnitude_at_most k) xs ->
  let avg := (py_sum xs / float_of_int (Z.of_nat (List.length xs)))%float in
  Forall (fun x => square (x - avg)%float <> None) xs.
Proof.
  intros Hmod Hk Hpos Hlen Hall avg.
  assert (Hk' : -1074 <= k <= 900) by lia.
  destruct (py_sum_bounded k xs Hk' Hall) as (us & Hus & Hbs).
  assert (HA : 0 <= k + 54 + 1074 <= 2044) by lia.
  assert (Hn : 0 < Z.of_nat (List.length xs) < 2 ^ 53) by lia.
  destruct (div_count_bound (py_sum xs) us (k + 54 + 1074)
              (Z.of_nat (List.length xs)) Hus Hbs HA Hn)
    as (ua & Hua & Hba).
  fold avg in Hua.
  apply Forall_forall. intros x Hx. rewrite Forall_forall in Hall.
  destruct (Hall x Hx) as (ux & Hux & Hbx).
  apply Hmod.
  assert (Hlt : Z.abs (ux - ua) < 2 ^ (k + 54 + 1074 + 2)).
  { assert (2 ^ (k + 1074) < 2 ^ (k + 54 + 1074 + 1)) by (apply Z.pow_lt_mono_r; lia).
    replace (k + 54 + 1074 + 2) with (Z.succ (k + 54 + 1074 + 1)) by lia.
    rewrite Z.pow_succ_r by lia.
    assert (0 < 2 ^ (k + 54 + 1074 + 1)) by (apply Z.pow_pos_nonneg; lia). lia. }
  assert (HK2 : 0 <= k + 54 + 1074 + 2 <= 2045) by lia.
  destruct (sub_bound x avg ux ua (k + 54 + 1074 + 2) Hux Hua Hlt HK2)
    as (u & Hu & Hb).
  exists u. split; [exact Hu|]. apply Z.le_trans with (1 := Hb).
  apply Z.pow_le_mono_r; lia.
Qed.







(** *** A run with plausible clocks *)



(** The summary of samples whose offsets are at most 2^44, fewer than
    2^53 of them, returns its statistics. *)
Lemma summarize_with_bounded square (r : sample) (rs : list sample) :
  never_negative square -> moderate_squares square ->
  Z.of_nat (List.length (r :: rs)) < 2 ^ 53 ->
  Forall (fun s => magnitude_at_most 44 (offset s)) (r :: rs) ->
  let offsets := map offset (r :: rs) in
  let n := float_of_int (Z.of_nat (List.length (r :: rs))) in
  let avg := (py_sum offsets / n)%float in
  Forall (fun x => square (x - avg)%float <> None) offsets.
Proof.
  intros Hsq Hmod Hlen Hall offsets n avg.
  assert (Hk : -1074 <= 44 <= 44) by lia.
  assert (Hl : List.length offsets = List.length (r :: rs)) by apply length_map.
  pose proof (deviations_moderate square 44 offsets Hmod Hk) as H.
  cbv zeta in H. rewrite Hl in H. apply H.
  - cbn [List.length]. lia.
  - exact Hlen.
  - unfold offsets. apply Forall_forall. intros x Hx. apply in_map_iff in Hx.
    destruct Hx as (s & <- & Hin). rewrite Forall_forall in Hall. now apply Hall.
Qed.



(** *** The verdict *)

(** C5: the average offset of a summary is [sum(offsets) / count], its
    verdict is [classify avg_offset], and that verdict is the last line
    of the report.  With the plain [sum] and squares that are never
    negative, the summary of a non-empty [results] gets to its verdict
    exactly when no squared deviation overflows; it does so for every
    collection of fewer than 2^53 samples whose offsets are at most
    2^44 seconds (where [x ** 2] does not overflow below 2^100).
    [classify] answers ACCURATE exactly when the average is a finite
    number of absolute value at most 1/2, and DRIFTING otherwise; an
    average of 0.5 is ACCURATE and one of 0.500001 is DRIFTING, and
    offsets 0.1, 5, 5, of average 3.36..., are DRIFTING although the
    first is small. *)
Theorem classification_threshold :
  (forall fsum square rs st v,
     summarize_with fsum square rs = ret (Statistics st v) ->
     avg_offset st =
       (fsum (map offset rs) / float_of_int (Z.of_nat (List.length rs)))%float /\
     v = classify (avg_offset st) /\
     forall ts, last (report_lines ts (Statistics st v)) Rule = Verdict_line v) /\
  (forall square (r : sample) (rs : list sample),
     never_negative square ->
     let offsets := map offset (r :: rs) in
     let n := float_of_int (Z.of_nat (List.length (r :: rs))) in
     let avg := (py_sum offsets / n)%float in
     (Forall (fun x => square (x - avg)%float <> None) offsets <->
      exists st,
        summarize_with py_sum square (r :: rs) = ret (Statistics st (classify avg)) /\
        avg_offset st = avg) /\
     (moderate_squares square ->
      Z.of_nat (List.length (r :: rs)) < 2 ^ 53 ->
      Forall (fun s => magnitude_at_most 44 (offset s)) (r :: rs) ->
      exists st,
        summarize_with py_sum square (r :: rs) = ret (Statistics st (classify avg)) /\
        avg_offset st = avg)) /\
  never_negative float_sq /\ moderate_squares float_sq /\
  (forall a q, float_value a = Some q ->
     (classify a = ACCURATE <-> (Qabs q <= 1 # 2)%Q)) /\
  (forall a, float_value a = None -> classify a = DRIFTING) /\
  (forall a, classify a <> ACCURATE -> classify a = DRIFTING) /\
  classify 0.5 = ACCURATE /\ classify 0.500001 = DRIFTING /\
  (exists st, summarize [{| offset := 0.5; delay := 0.01 |}]
              = ret (Statistics st ACCURATE) /\ avg_offset st = 0.5%float) /\
  (exists st, summarize [{| offset := 0.500001; delay := 0.01 |}]
              = ret (Statistics st DRIFTING) /\ avg_offset st = 0.500001%float) /\
  (exists st, summarize [{| offset := 0.1; delay := 0.01 |};
                         {| offset := 5; delay := 0.01 |};
                         {| offset := 5; delay := 0.01 |}]
              = ret (Statistics st DRIFTING) /\
              avg_offset st = 3.3666666666666667%float).
Proof.
  split.
  { intros fsum square rs st v H.
    destruct (summarize_with_returned _ _ _ _ _ H)
      as (r & rest & terms & _ & _ & _ & _ & Ha & _ & _ & _ & Hv).
    split; [exact Ha|]. split; [now rewrite Ha|reflexivity]. }
  split.
  { intros square r rs Hsq offsets n avg.
    assert (Hret : Forall (fun x => square (x - avg)%float <> None) offsets ->
              exists st,
                summarize_with py_sum square (r :: rs)
                = ret (Statistics st (classify avg)) /\ avg_offset st = avg).
    { intros Hall.
      destruct (squares_return square avg offsets Hall) as [terms Hterms].
      rewrite (summarize_with_total square r rs Hsq). cbv zeta.
      fold offsets. fold n. fold avg. rewrite Hterms. cbn [bind ret].
      eexists. split; reflexivity. }
    split; [split; [exact Hret|]|].
    - intros (st & H & _).
      destruct (summarize_with_returned _ _ _ _ _ H)
        as (r' & rest & terms & _ & Hterms & _).
      exact (squares_returned_all _ _ _ _ Hterms).
    - intros Hmod Hlen Hall. apply Hret.
      exact (summarize_with_bounded square r rs Hsq Hmod Hlen Hall). }
  split; [exact float_sq_never_negative|]. split; [exact float_sq_moderate|].
  split.
  { intros a q Hq. rewrite <- (abs_le_half a q Hq). unfold classify.
    destruct (PrimFloat.abs a <=? 0.5)%float; split; congruence. }
  split.
  { intros a Ha. unfold classify. rewrite leb_spec, abs_spec.
    unfold float_value in Ha.
    destruct (Prim2SF a) as [s|s| |s m e]; try discriminate; reflexivity. }
  split.
  { intros a. unfold classify. destruct (PrimFloat.abs a <=? 0.5)%float; congruence. }
  split; [reflexivity|]. split; [reflexivity|].
  split; [eexists; split; [vm_compute; reflexivity|reflexivity]|].
  split; eexists; (split; [vm_compute; reflexivity|reflexivity]).
Qed.
